(** * AI website generator: a shallow embedding of [src/index.tsx]

    The program is a single browser script.  Its module-level variables
    ([latestGeneratedImages], [latestFavicon], [history], [historyIndex]),
    the two editors, the preview frame, the buttons it enables and
    disables and the one local-storage record form the [State] below;
    every event listener is a function on that state.

    Conventions.
    - A JavaScript string is a [string]; one [ascii] stands for one UTF-16
      code unit, so the model covers the strings whose code units are below
      256 (in particular [String.length] is [.length]).
    - The HTML parser and serialiser ([DOMParser.parseFromString],
      [outerHTML]) are collaborators of the script, not part of it.  The
      tree they exchange is the [Document] below; the two functions
      themselves are the section variables [parseFromString] and
      [outerHTML].
    - An element has a namespace and a local name ([Tag]).  The
      selectors of the script ([style], [meta[name=...]],
      [link[rel*='icon']], [getElementById]) find an element of inline
      SVG or MathML as they find an HTML element; the properties [src],
      [href] and [alt] write an attribute on the HTML elements that have
      them and on no other element; [setAttribute] writes on any.
    - An editor is the text it holds, the one [getValue()] returns;
      [setValue(text)] stores [text].  Ace, and the text area of the
      earlier revision, make the line ends of the text they are given
      uniform, which the state leaves out.  The model is exact for a
      text an editor returned; what is said of a snapshot or of a
      preview is said of the string the script computed, not of what an
      editor returns of it.
    - The generative model, [fetch] and the storage quota are oracles: the
      outcome of each call is an argument of the event that makes it.
    - An [async] listener is run to completion as one step.
    - The tab bar and the timer of the auto-save have a state of their
      own ([TabBar], [AutoSaveTimer]): no other listener reads it.
    - Progress-bar updates, console output, the example chips, the text
      of the export button and editor resizing are left out: nothing else
      reads them.
    - [src/unnamed/part_000] is an earlier revision of the same script.
      Where its functions differ from this revision's they are embedded
      under the same name with [Earlier] added: the submit, export and tab
      listeners, [generateWebsite], [improveImagePrompts],
      [generateImages] and [populateUI]. *)

From Stdlib Require Import String Ascii List ZArith Lia Bool Arith.
Import ListNotations.
Local Open Scope string_scope.
Local Open Scope list_scope.

Set Implicit Arguments.
Set Warnings "-register-all".

(* ================================================================== *)
(** * Strings *)
(* ================================================================== *)

(** White space of [String.prototype.trim] among the code units below 256:
    TAB, LF, VT, FF, CR, SPACE and NBSP. *)
Definition isWhiteSpace (c : ascii) : bool :=
  let n := nat_of_ascii c in
  (n =? 9)%nat || (n =? 10)%nat || (n =? 11)%nat || (n =? 12)%nat
  || (n =? 13)%nat || (n =? 32)%nat || (n =? 160)%nat.

Fixpoint trimStart (s : string) : string :=
  match s with
  | EmptyString => EmptyString
  | String c r => if isWhiteSpace c then trimStart r else s
  end.

Fixpoint trimEnd (s : string) : string :=
  match s with
  | EmptyString => EmptyString
  | String c r =>
      match trimEnd r with
      | EmptyString => if isWhiteSpace c then EmptyString else String c EmptyString
      | r' => String c r'
      end
  end.

(** [s.trim()] *)
Definition trim (s : string) : string := trimEnd (trimStart s).

(** [s.includes(sub)] *)
Definition includes (s sub : string) : bool :=
  match index 0 sub s with Some _ => true | None => false end.

Definition isUpperAscii (c : ascii) : bool :=
  let n := nat_of_ascii c in (65 <=? n)%nat && (n <=? 90)%nat.

Definition isLowerAscii (c : ascii) : bool :=
  let n := nat_of_ascii c in (97 <=? n)%nat && (n <=? 122)%nat.

Definition isDigitAscii (c : ascii) : bool :=
  let n := nat_of_ascii c in (48 <=? n)%nat && (n <=? 57)%nat.

(** Upper-case code units below 256 other than A-Z: the Latin-1 letters
    192-222 without the multiplication sign 215. *)
Definition isUpperLatin1 (c : ascii) : bool :=
  let n := nat_of_ascii c in (192 <=? n)%nat && (n <=? 222)%nat && negb (n =? 215)%nat.

Definition lowerChar (c : ascii) : ascii :=
  if isUpperAscii c || isUpperLatin1 c then ascii_of_nat (nat_of_ascii c + 32) else c.

Fixpoint mapString (f : ascii -> ascii) (s : string) : string :=
  match s with
  | EmptyString => EmptyString
  | String c r => String (f c) (mapString f r)
  end.

(** [s.toLowerCase()] *)
Definition toLowerCase (s : string) : string := mapString lowerChar s.

(** ASCII lower-casing, as selectors compare the values of [rel]. *)
Definition asciiLower (s : string) : string :=
  mapString (fun c => if isUpperAscii c then ascii_of_nat (nat_of_ascii c + 32) else c) s.

(** [arr.join(sep)] *)
Fixpoint join (sep : string) (l : list string) : string :=
  match l with
  | [] => ""
  | [x] => x
  | x :: r => x ++ sep ++ join sep r
  end.

(** [s.substring(0, n)] *)
Definition substring0 (n : nat) (s : string) : string := substring 0 n s.

Definition isEmptyString (s : string) : bool :=
  match s with EmptyString => true | _ => false end.

(* ================================================================== *)
(** * The document tree *)
(* ================================================================== *)

Definition Attrs := list (string * string).

(** [el.getAttribute(k)] *)
Fixpoint getAttr (k : string) (a : Attrs) : option string :=
  match a with
  | [] => None
  | (k', v) :: r => if String.eqb k k' then Some v else getAttr k r
  end.

(** [el.setAttribute(k, v)]: an attribute that exists keeps its place, a
    new one goes last. *)
Fixpoint setAttr (k v : string) (a : Attrs) : Attrs :=
  match a with
  | [] => [(k, v)]
  | (k', v') :: r => if String.eqb k k' then (k', v) :: r else (k', v') :: setAttr k v r
  end.

(** The namespace of an element.  The parser puts an [svg] or a [math]
    element, and the elements it reads inside one, in the SVG or the
    MathML namespace; [doc.createElement] makes HTML elements. *)
Inductive Namespace : Type :=
| HTML
| SVG
| MathML.

(** The name of an element: its namespace and its local name. *)
Record Tag : Type := mkTag {
  namespaceURI : Namespace;
  localName : string
}.

(** A string where a tag is expected is the HTML element of that name. *)
Definition htmlTag (name : string) : Tag := mkTag HTML name.

Coercion htmlTag : string >-> Tag.

Definition isHtml (t : Tag) : bool :=
  match namespaceURI t with
  | HTML => true
  | _ => false
  end.

Inductive Node : Type :=
| Elem (tag : Tag) (attrs : Attrs) (children : list Node)
| Text (data : string)
| Comment (data : string).

(** A parsed HTML document: the [html] element with its [head] and [body]. *)
Record Document : Type := mkDocument {
  htmlAttrs : Attrs;
  headAttrs : Attrs;
  headNodes : list Node;
  bodyAttrs : Attrs;
  bodyNodes : list Node
}.

(** Induction over a tree whose children are a list. *)
Fixpoint Node_rect' (P : Node -> Type) (Q : list Node -> Type)
    (HE : forall t a cs, Q cs -> P (Elem t a cs))
    (HT : forall s, P (Text s)) (HC : forall s, P (Comment s))
    (Hnil : Q []) (Hcons : forall n l, P n -> Q l -> Q (n :: l))
    (n : Node) {struct n} : P n :=
  match n with
  | Elem t a cs =>
      HE t a cs
        ((fix go (l : list Node) : Q l :=
            match l with
            | [] => Hnil
            | c :: r => Hcons c r (Node_rect' P Q HE HT HC Hnil Hcons c) (go r)
            end) cs)
  | Text s => HT s
  | Comment s => HC s
  end.

(* ================================================================== *)
(** * Data model *)
(* ================================================================== *)

(** An element of [latestGeneratedImages]: [{ id, url, prompt }]. *)
Record Image : Type := mkImage {
  img_id : string;
  img_url : string;
  img_prompt : string
}.

(** [latestFavicon]: [{ url, prompt } | null]. *)
Record Favicon : Type := mkFavicon {
  fav_url : string;
  fav_prompt : string
}.

(** An item of [imagePrompts]: [{ id, prompt }]. *)
Record ImagePrompt : Type := mkImagePrompt {
  ip_id : string;
  ip_prompt : string
}.

(** An element of [history]: [{ html, css }]. *)
Record Snapshot : Type := mkSnapshot {
  snap_html : string;
  snap_css : string
}.

(* ================================================================== *)
(** * Queries and updates on the tree *)
(* ================================================================== *)

(** Apply [g] to the first element of [l] on which it succeeds. *)
Fixpoint mapFirst (A : Type) (g : A -> option A) (l : list A) : option (list A) :=
  match l with
  | [] => None
  | c :: r =>
      match g c with
      | Some c' => Some (c' :: r)
      | None => match mapFirst g r with
                | Some r' => Some (c :: r')
                | None => None
                end
      end
  end.

(** Take something out of the first element of [l] that has it; [g] gives
    what was taken and what replaces the element. *)
Fixpoint takeFirst (A B : Type) (g : A -> option (B * list A)) (l : list A)
  : option (B * list A) :=
  match l with
  | [] => None
  | c :: r =>
      match g c with
      | Some (b, repl) => Some (b, repl ++ r)
      | None => match takeFirst g r with
                | Some (b, r') => Some (b, c :: r')
                | None => None
                end
      end
  end.

Section FirstMatch.

(** [p tag attrs]: the selector; [f tag attrs]: the new attributes of the
    element selected. *)
Variable p : Tag -> Attrs -> bool.
Variable f : Tag -> Attrs -> Attrs.

(** The first element in tree order that matches [p] gets its attributes
    rewritten by [f]; [None] when no element matches. *)
Fixpoint updateFirst (n : Node) : option Node :=
  match n with
  | Elem t a cs =>
      if p t a then Some (Elem t (f t a) cs)
      else match mapFirst updateFirst cs with
           | Some cs' => Some (Elem t a cs')
           | None => None
           end
  | Text _ => None
  | Comment _ => None
  end.

Definition updateFirstIn (l : list Node) : option (list Node) :=
  mapFirst updateFirst l.

(** The same over a whole document: [html], [head], the nodes of the head,
    [body], the nodes of the body. *)
Definition docUpdateFirst (d : Document) : option Document :=
  if p "html" (htmlAttrs d) then
    Some (mkDocument (f "html" (htmlAttrs d)) (headAttrs d) (headNodes d)
                     (bodyAttrs d) (bodyNodes d))
  else if p "head" (headAttrs d) then
    Some (mkDocument (htmlAttrs d) (f "head" (headAttrs d)) (headNodes d)
                     (bodyAttrs d) (bodyNodes d))
  else
    match updateFirstIn (headNodes d) with
    | Some h =>
        Some (mkDocument (htmlAttrs d) (headAttrs d) h (bodyAttrs d) (bodyNodes d))
    | None =>
        if p "body" (bodyAttrs d) then
          Some (mkDocument (htmlAttrs d) (headAttrs d) (headNodes d)
                           (f "body" (bodyAttrs d)) (bodyNodes d))
        else
          match updateFirstIn (bodyNodes d) with
          | Some b =>
              Some (mkDocument (htmlAttrs d) (headAttrs d) (headNodes d) (bodyAttrs d) b)
          | None => None
          end
    end.

(** [const el = doc.querySelector(p); if (el) el.attr = ...] *)
Definition docUpdate (d : Document) : Document :=
  match docUpdateFirst d with
  | Some d' => d'
  | None => d
  end.

End FirstMatch.

(** The elements of a tree, in tree order. *)
Fixpoint elementsOf (n : Node) : list (Tag * Attrs) :=
  match n with
  | Elem t a cs => (t, a) :: flat_map elementsOf cs
  | Text _ => []
  | Comment _ => []
  end.

Definition elementsIn (l : list Node) : list (Tag * Attrs) :=
  flat_map elementsOf l.

Definition docElements (d : Document) : list (Tag * Attrs) :=
  (htmlTag "html", htmlAttrs d) :: (htmlTag "head", headAttrs d)
  :: elementsIn (headNodes d)
  ++ (htmlTag "body", bodyAttrs d) :: elementsIn (bodyNodes d).

Definition matches (p : Tag -> Attrs -> bool) (e : Tag * Attrs) : bool :=
  p (fst e) (snd e).

(** [doc.querySelector(p)], as the tag and attributes of the element. *)
Definition docQuery (p : Tag -> Attrs -> bool) (d : Document)
  : option (Tag * Attrs) :=
  find (matches p) (docElements d).

(** [doc.querySelector(p)] finds an element below or at [n]. *)
Definition hasMatch (p : Tag -> Attrs -> bool) (n : Node) : bool :=
  existsb (matches p) (elementsOf n).

Definition hasMatchIn (p : Tag -> Attrs -> bool) (l : list Node) : bool :=
  existsb (matches p) (elementsIn l).

(** [updateFirst] where a tree without a match stays as it is. *)
Definition updNode (p : Tag -> Attrs -> bool) (f : Tag -> Attrs -> Attrs)
    (n : Node) : Node :=
  match updateFirst p f n with
  | Some n' => n'
  | None => n
  end.

Definition updForest (p : Tag -> Attrs -> bool) (f : Tag -> Attrs -> Attrs)
    (l : list Node) : list Node :=
  match updateFirstIn p f l with
  | Some l' => l'
  | None => l
  end.

(** The effect of [updateFirst] on the list of elements. *)
Fixpoint updList (p : Tag -> Attrs -> bool) (f : Tag -> Attrs -> Attrs)
    (L : list (Tag * Attrs)) : list (Tag * Attrs) :=
  match L with
  | [] => []
  | (t, a) :: r => if p t a then (t, f t a) :: r else (t, a) :: updList p f r
  end.

(** The element list without its first match. *)
Fixpoint dropFirst (p : Tag -> Attrs -> bool) (L : list (Tag * Attrs))
  : list (Tag * Attrs) :=
  match L with
  | [] => []
  | (t, a) :: r => if p t a then r else (t, a) :: dropFirst p r
  end.

(** The selector [style]: a type selector compares the local name, in
    whatever namespace the element is. *)
Definition styleSel (t : Tag) (a : Attrs) : bool :=
  String.eqb (localName t) "style".

(** The document as one tree, rooted at [html]. *)
Definition docNode (d : Document) : Node :=
  Elem "html" (htmlAttrs d)
    [Elem "head" (headAttrs d) (headNodes d);
     Elem "body" (bodyAttrs d) (bodyNodes d)].

(** [doc.head.appendChild(n)] *)
Definition appendToHead (n : Node) (d : Document) : Document :=
  mkDocument (htmlAttrs d) (headAttrs d) (headNodes d ++ [n])
             (bodyAttrs d) (bodyNodes d).

Definition isStyleTag (t : Tag) : bool := String.eqb (localName t) "style".

(** No [style] element in the head. *)
Definition headStyleFree (d : Document) : bool :=
  negb (hasMatchIn styleSel (headNodes d)).

(** The first element that matches [p] has the attribute [k] set to [v]. *)
Definition docFirstHas (p : Tag -> Attrs -> bool) (k v : string) (d : Document)
  : Prop :=
  exists t a, docQuery p d = Some (t, a) /\ getAttr k a = Some v.

(** The first element that matches [p] is one that [f] leaves as it is. *)
Definition docFirstKept (p : Tag -> Attrs -> bool) (f : Tag -> Attrs -> Attrs)
    (d : Document) : Prop :=
  exists t a, docQuery p d = Some (t, a) /\ f t a = a.

(** A tree without its [style] elements: nothing for a [style] element,
    else the node with its children pruned. *)
Fixpoint pruneStyles (n : Node) : list Node :=
  match n with
  | Elem t a cs =>
      if isStyleTag t then [] else [Elem t a (flat_map pruneStyles cs)]
  | Text _ => [n]
  | Comment _ => [n]
  end.

(** [doc.head.querySelectorAll('style').forEach(s => s.remove())] *)
Definition removeHeadStyles (d : Document) : Document :=
  mkDocument (htmlAttrs d) (headAttrs d) (flat_map pruneStyles (headNodes d))
             (bodyAttrs d) (bodyNodes d).

(** The first [style] element below or at [n], and what is left of [n]. *)
Fixpoint takeStyle (n : Node) : option (Node * list Node) :=
  match n with
  | Elem t a cs =>
      if isStyleTag t then Some (n, [])
      else match takeFirst takeStyle cs with
           | Some (s, cs') => Some (s, [Elem t a cs'])
           | None => None
           end
  | Text _ => None
  | Comment _ => None
  end.

(** [node.textContent] *)
Fixpoint textContent (n : Node) : string :=
  match n with
  | Elem _ _ cs => String.concat "" (map textContent cs)
  | Text s => s
  | Comment _ => ""
  end.

(** The children [el.textContent = s] leaves: one text node, none for the
    empty string. *)
Definition textNodes (s : string) : list Node :=
  if isEmptyString s then [] else [Text s].

(** [const styleElement = doc.querySelector('style');
     const cssContent = styleElement?.textContent || '';
     styleElement?.remove();] *)
Definition separateStyle (d : Document) : string * Document :=
  match takeFirst takeStyle (headNodes d) with
  | Some (s, h) =>
      (textContent s,
       mkDocument (htmlAttrs d) (headAttrs d) h (bodyAttrs d) (bodyNodes d))
  | None =>
      match takeFirst takeStyle (bodyNodes d) with
      | Some (s, b) =>
          (textContent s,
           mkDocument (htmlAttrs d) (headAttrs d) (headNodes d) (bodyAttrs d) b)
      | None => ("", d)
      end
  end.

(** ** Selectors *)

(** [meta[name="..."]] *)
Definition isMetaNamed (name : string) (t : Tag) (a : Attrs) : bool :=
  String.eqb (localName t) "meta"
  && match getAttr "name" a with Some v => String.eqb v name | None => false end.

(** [link[rel*='icon']]; on an HTML element selectors compare the value
    of [rel] without regard to ASCII case, on an element of another
    namespace as it is written. *)
Definition isIconLink (t : Tag) (a : Attrs) : bool :=
  String.eqb (localName t) "link"
  && match getAttr "rel" a with
     | Some r => includes (if isHtml t then asciiLower r else r) "icon"
     | None => false
     end.

(** [doc.getElementById(x)]: no element has the empty id. *)
Definition hasId (x : string) (t : Tag) (a : Attrs) : bool :=
  negb (isEmptyString x)
  && match getAttr "id" a with Some v => String.eqb v x | None => false end.

(** The elements whose [src] property writes the [src] attribute: the
    HTML elements of these names.  On any other element, and on an element
    of these names in another namespace, [el.src = url] makes a property
    of the object and leaves the markup as it is. *)
Definition reflectsSrc (t : Tag) : bool :=
  isHtml t
  && existsb (String.eqb (localName t))
       ["img"; "script"; "iframe"; "embed"; "input"; "source"; "track";
        "audio"; "video"; "frame"].

(** [el.src = url] *)
Definition assignSrc (url : string) (t : Tag) (a : Attrs) : Attrs :=
  if reflectsSrc t then setAttr "src" url a else a.

(** The elements whose [href] property writes the [href] attribute: the
    HTML elements of these names. *)
Definition reflectsHref (t : Tag) : bool :=
  isHtml t && existsb (String.eqb (localName t)) ["link"; "a"; "area"; "base"].

(** [el.href = url] *)
Definition assignHref (url : string) (t : Tag) (a : Attrs) : Attrs :=
  if reflectsHref t then setAttr "href" url a else a.

(** [el.setAttribute(k, v)], on an element of any namespace. *)
Definition assignAttr (k v : string) (t : Tag) (a : Attrs) : Attrs :=
  setAttr k v a.

(** [doc.getElementById(x)] finds an element. *)
Definition docHasId (x : string) (d : Document) : bool :=
  existsb (matches (hasId x)) (docElements d).

(* ================================================================== *)
(** * Placeholder resolution on the tree *)
(* ================================================================== *)

(** [populateUI], "Inject SEO Meta Tags": find or create the [meta]
    element, then set its [content]; nothing for an empty value. *)
Definition injectMeta (name content : string) (d : Document) : Document :=
  if isEmptyString content then d
  else
    match docUpdateFirst (isMetaNamed name) (assignAttr "content" content) d with
    | Some d' => d'
    | None =>
        appendToHead (Elem "meta" [("name", name); ("content", content)] []) d
    end.

(** [populateUI], "Inject Favicon": find or create the icon link, then set
    its [href]. *)
Definition injectFavicon (fav : option Favicon) (d : Document) : Document :=
  match fav with
  | None => d
  | Some fv =>
      match docUpdateFirst isIconLink (assignHref (fav_url fv)) d with
      | Some d' => d'
      | None =>
          appendToHead
            (Elem "link" [("rel", "icon"); ("type", "image/jpeg");
                          ("href", fav_url fv)] []) d
      end
  end.

(** The tree part of [populateUI]: the style text taken out and the
    document that goes to the HTML editor. *)
Definition populateDocument (fav : option Favicon) (metaDesc metaKeywords : string)
    (d : Document) : string * Document :=
  separateStyle
    (injectFavicon fav
       (injectMeta "keywords" metaKeywords
          (injectMeta "description" metaDesc d))).

(** [const imgElement = doc.getElementById(image.id);
     if (imgElement) imgElement.src = image.url;] *)
Definition injectImage (d : Document) (im : Image) : Document :=
  docUpdate (hasId (img_id im)) (assignSrc (img_url im)) d.

(** [updatePreview], "Re-inject favicon if needed": an icon link that is
    there gets the favicon, none is created. *)
Definition relinkFavicon (fav : option Favicon) (d : Document) : Document :=
  match fav with
  | None => d
  | Some fv => docUpdate isIconLink (assignHref (fav_url fv)) d
  end.

Definition styleElement (css : string) : Node := Elem "style" [] (textNodes css).

(** The tree part of [updatePreview]. *)
Definition previewDocument (images : list Image) (fav : option Favicon)
    (css : string) (d : Document) : Document :=
  relinkFavicon fav
    (fold_left injectImage images
       (appendToHead (styleElement css) (removeHeadStyles d))).

(** Character data: what the parser puts inside an HTML [style] element,
    whose content it reads as raw text. *)
Definition isCharData (n : Node) : bool :=
  match n with
  | Elem _ _ _ => false
  | _ => true
  end.

(** No [style] element holds an element.  Every HTML [style] element is
    so; a [style] element of inline SVG is so when it holds a style sheet
    and nothing else. *)
Fixpoint wfNode (n : Node) : bool :=
  match n with
  | Elem t a cs =>
      if isStyleTag t then forallb isCharData cs else forallb wfNode cs
  | Text _ => true
  | Comment _ => true
  end.

Definition wfDocument (d : Document) : bool :=
  forallb wfNode (headNodes d) && forallb wfNode (bodyNodes d).

(* ================================================================== *)
(** * The state of the page *)
(* ================================================================== *)

(** A card of the image gallery. *)
Inductive GalleryItem : Type :=
| GalleryFavicon (url prompt : string)
| GalleryImage (id url prompt : string).

(** The record [saveStateToLocalStorage] writes. *)
Record SavedData : Type := mkSavedData {
  sd_html : string;
  sd_css : string;
  sd_images : list Image;
  sd_favicon : option Favicon;
  sd_timestamp : Z
}.

(** What the key [ai-website-gen-data] holds: the text [JSON.stringify]
    made of a record, which [JSON.parse] reads back as that record, or a
    text [JSON.parse] rejects. *)
Inductive StoredText : Type :=
| JsonOf (data : SavedData)
| NotJson (raw : string).

Record State : Type := mkState {
  aiReady : bool;
  latestGeneratedImages : list Image;
  latestFavicon : option Favicon;
  history : list Snapshot;
  historyIndex : Z;
  htmlEditor : string;
  cssEditor : string;
  previewFrame_srcdoc : string;
  imageGallery : list GalleryItem;
  undoBtn_disabled : bool;
  redoBtn_disabled : bool;
  generateBtn_disabled : bool;
  exportBtn_disabled : bool;
  loadingContainer_hidden : bool;
  inputSection_hidden : bool;
  resultContainer_hidden : bool;
  localStorage : option StoredText
}.

Definition set_aiReady (v : bool) (s : State) : State :=
  mkState v (latestGeneratedImages s) (latestFavicon s) (history s)
    (historyIndex s) (htmlEditor s) (cssEditor s) (previewFrame_srcdoc s)
    (imageGallery s) (undoBtn_disabled s) (redoBtn_disabled s)
    (generateBtn_disabled s) (exportBtn_disabled s)
    (loadingContainer_hidden s) (inputSection_hidden s)
    (resultContainer_hidden s) (localStorage s).

Definition set_latestGeneratedImages (v : list Image) (s : State) : State :=
  mkState (aiReady s) v (latestFavicon s) (history s) (historyIndex s)
    (htmlEditor s) (cssEditor s) (previewFrame_srcdoc s) (imageGallery s)
    (undoBtn_disabled s) (redoBtn_disabled s) (generateBtn_disabled s)
    (exportBtn_disabled s) (loadingContainer_hidden s)
    (inputSection_hidden s) (resultContainer_hidden s) (localStorage s).

Definition set_latestFavicon (v : option Favicon) (s : State) : State :=
  mkState (aiReady s) (latestGeneratedImages s) v (history s)
    (historyIndex s) (htmlEditor s) (cssEditor s) (previewFrame_srcdoc s)
    (imageGallery s) (undoBtn_disabled s) (redoBtn_disabled s)
    (generateBtn_disabled s) (exportBtn_disabled s)
    (loadingContainer_hidden s) (inputSection_hidden s)
    (resultContainer_hidden s) (localStorage s).

Definition set_history (v : list Snapshot) (s : State) : State :=
  mkState (aiReady s) (latestGeneratedImages s) (latestFavicon s) v
    (historyIndex s) (htmlEditor s) (cssEditor s) (previewFrame_srcdoc s)
    (imageGallery s) (undoBtn_disabled s) (redoBtn_disabled s)
    (generateBtn_disabled s) (exportBtn_disabled s)
    (loadingContainer_hidden s) (inputSection_hidden s)
    (resultContainer_hidden s) (localStorage s).

Definition set_historyIndex (v : Z) (s : State) : State :=
  mkState (aiReady s) (latestGeneratedImages s) (latestFavicon s)
    (history s) v (htmlEditor s) (cssEditor s) (previewFrame_srcdoc s)
    (imageGallery s) (undoBtn_disabled s) (redoBtn_disabled s)
    (generateBtn_disabled s) (exportBtn_disabled s)
    (loadingContainer_hidden s) (inputSection_hidden s)
    (resultContainer_hidden s) (localStorage s).

Definition set_htmlEditor (v : string) (s : State) : State :=
  mkState (aiReady s) (latestGeneratedImages s) (latestFavicon s)
    (history s) (historyIndex s) v (cssEditor s) (previewFrame_srcdoc s)
    (imageGallery s) (undoBtn_disabled s) (redoBtn_disabled s)
    (generateBtn_disabled s) (exportBtn_disabled s)
    (loadingContainer_hidden s) (inputSection_hidden s)
    (resultContainer_hidden s) (localStorage s).

Definition set_cssEditor (v : string) (s : State) : State :=
  mkState (aiReady s) (latestGeneratedImages s) (latestFavicon s)
    (history s) (historyIndex s) (htmlEditor s) v (previewFrame_srcdoc s)
    (imageGallery s) (undoBtn_disabled s) (redoBtn_disabled s)
    (generateBtn_disabled s) (exportBtn_disabled s)
    (loadingContainer_hidden s) (inputSection_hidden s)
    (resultContainer_hidden s) (localStorage s).

Definition set_previewFrame_srcdoc (v : string) (s : State) : State :=
  mkState (aiReady s) (latestGeneratedImages s) (latestFavicon s)
    (history s) (historyIndex s) (htmlEditor s) (cssEditor s) v
    (imageGallery s) (undoBtn_disabled s) (redoBtn_disabled s)
    (generateBtn_disabled s) (exportBtn_disabled s)
    (loadingContainer_hidden s) (inputSection_hidden s)
    (resultContainer_hidden s) (localStorage s).

Definition set_imageGallery (v : list GalleryItem) (s : State) : State :=
  mkState (aiReady s) (latestGeneratedImages s) (latestFavicon s)
    (history s) (historyIndex s) (htmlEditor s) (cssEditor s)
    (previewFrame_srcdoc s) v (undoBtn_disabled s) (redoBtn_disabled s)
    (generateBtn_disabled s) (exportBtn_disabled s)
    (loadingContainer_hidden s) (inputSection_hidden s)
    (resultContainer_hidden s) (localStorage s).

Definition set_undoBtn_disabled (v : bool) (s : State) : State :=
  mkState (aiReady s) (latestGeneratedImages s) (latestFavicon s)
    (history s) (historyIndex s) (htmlEditor s) (cssEditor s)
    (previewFrame_srcdoc s) (imageGallery s) v (redoBtn_disabled s)
    (generateBtn_disabled s) (exportBtn_disabled s)
    (loadingContainer_hidden s) (inputSection_hidden s)
    (resultContainer_hidden s) (localStorage s).

Definition set_redoBtn_disabled (v : bool) (s : State) : State :=
  mkState (aiReady s) (latestGeneratedImages s) (latestFavicon s)
    (history s) (historyIndex s) (htmlEditor s) (cssEditor s)
    (previewFrame_srcdoc s) (imageGallery s) (undoBtn_disabled s) v
    (generateBtn_disabled s) (exportBtn_disabled s)
    (loadingContainer_hidden s) (inputSection_hidden s)
    (resultContainer_hidden s) (localStorage s).

Definition set_generateBtn_disabled (v : bool) (s : State) : State :=
  mkState (aiReady s) (latestGeneratedImages s) (latestFavicon s)
    (history s) (historyIndex s) (htmlEditor s) (cssEditor s)
    (previewFrame_srcdoc s) (imageGallery s) (undoBtn_disabled s)
    (redoBtn_disabled s) v (exportBtn_disabled s)
    (loadingContainer_hidden s) (inputSection_hidden s)
    (resultContainer_hidden s) (localStorage s).

Definition set_exportBtn_disabled (v : bool) (s : State) : State :=
  mkState (aiReady s) (latestGeneratedImages s) (latestFavicon s)
    (history s) (historyIndex s) (htmlEditor s) (cssEditor s)
    (previewFrame_srcdoc s) (imageGallery s) (undoBtn_disabled s)
    (redoBtn_disabled s) (generateBtn_disabled s) v
    (loadingContainer_hidden s) (inputSection_hidden s)
    (resultContainer_hidden s) (localStorage s).

Definition set_loadingContainer_hidden (v : bool) (s : State) : State :=
  mkState (aiReady s) (latestGeneratedImages s) (latestFavicon s)
    (history s) (historyIndex s) (htmlEditor s) (cssEditor s)
    (previewFrame_srcdoc s) (imageGallery s) (undoBtn_disabled s)
    (redoBtn_disabled s) (generateBtn_disabled s) (exportBtn_disabled s) v
    (inputSection_hidden s) (resultContainer_hidden s) (localStorage s).

Definition set_inputSection_hidden (v : bool) (s : State) : State :=
  mkState (aiReady s) (latestGeneratedImages s) (latestFavicon s)
    (history s) (historyIndex s) (htmlEditor s) (cssEditor s)
    (previewFrame_srcdoc s) (imageGallery s) (undoBtn_disabled s)
    (redoBtn_disabled s) (generateBtn_disabled s) (exportBtn_disabled s)
    (loadingContainer_hidden s) v (resultContainer_hidden s)
    (localStorage s).

Definition set_resultContainer_hidden (v : bool) (s : State) : State :=
  mkState (aiReady s) (latestGeneratedImages s) (latestFavicon s)
    (history s) (historyIndex s) (htmlEditor s) (cssEditor s)
    (previewFrame_srcdoc s) (imageGallery s) (undoBtn_disabled s)
    (redoBtn_disabled s) (generateBtn_disabled s) (exportBtn_disabled s)
    (loadingContainer_hidden s) (inputSection_hidden s) v (localStorage s).

Definition set_localStorage (v : option StoredText) (s : State) : State :=
  mkState (aiReady s) (latestGeneratedImages s) (latestFavicon s)
    (history s) (historyIndex s) (htmlEditor s) (cssEditor s)
    (previewFrame_srcdoc s) (imageGallery s) (undoBtn_disabled s)
    (redoBtn_disabled s) (generateBtn_disabled s) (exportBtn_disabled s)
    (loadingContainer_hidden s) (inputSection_hidden s)
    (resultContainer_hidden s) v.


(** The module-level initialisers: [latestGeneratedImages = []],
    [latestFavicon = null], [history = []], [historyIndex = -1].  What the
    page's markup fixes (the buttons, the editors, the sections shown) and
    what an earlier visit left in local storage is not constrained. *)
Definition startup (s : State) : Prop :=
  latestGeneratedImages s = [] /\ latestFavicon s = None
  /\ history s = [] /\ historyIndex s = (-1)%Z.

(* ================================================================== *)
(** * Effects *)
(* ================================================================== *)

(** The categories of [getFriendlyErrorMessage]. *)
Inductive FriendlyMessage : Type :=
| AuthenticationFailed     (* Authentifizierung fehlgeschlagen. ... *)
| LimitReached             (* API-Limit erreicht. ... *)
| ServiceOverloaded        (* Der AI-Dienst ist derzeit ueberlastet. ... *)
| RequestBlocked           (* Die Anfrage wurde blockiert. ... *)
| InvalidResponseFormat    (* Ungueltiges Antwortformat der KI. ... *)
| NetworkError             (* Netzwerkfehler. ... *)
| Unexpected (detail : string). (* Ein unerwarteter Fehler ist aufgetreten: ... *)

(** The texts shown with [alert]. *)
Inductive Message : Type :=
| MsgAiNotInitialized          (* AI not initialized. Please verify your API Key. *)
| MsgPromptMissing             (* Bitte geben Sie eine Beschreibung ... ein. *)
| MsgPromptTooShort (min : nat) (* ... (mindestens 15 Zeichen). *)
| MsgGenerateFirst             (* Bitte generieren Sie zuerst eine Website. *)
| MsgExportFailed              (* Fehler beim Exportieren. *)
| MsgGeneration (m : FriendlyMessage)
| MsgGenerateFirstEarlier      (* Please generate a website first before exporting. *)
| MsgExportFailedEarlier.      (* An error occurred during the export process. *)

Inductive ZipEntry : Type :=
| ZipFolder
| ZipFile (data : string).

(** A JSZip archive: its entries by path, in the order they were added. *)
Definition Archive := list (string * ZipEntry).

(** What a listener does to the world outside the state. *)
Inductive Effect : Type :=
| Alert (m : Message)
| FocusInput
| GenerateContentCall (contents : string)
| GenerateImagesCall (prompt : string)
| FetchCall (url : string)
| DownloadZip (name : string) (zip : Archive).

Definition isNetworkCall (e : Effect) : bool :=
  match e with
  | GenerateContentCall _ => true
  | GenerateImagesCall _ => true
  | FetchCall _ => true
  | _ => false
  end.

Definition isAlert (e : Effect) : bool :=
  match e with
  | Alert _ => true
  | _ => false
  end.

Definition getFriendlyErrorMessage (errorMessage : string) : FriendlyMessage :=
  let lowerMsg := toLowerCase errorMessage in
  if includes errorMessage "401" || includes errorMessage "403"
     || includes lowerMsg "api key" then AuthenticationFailed
  else if includes errorMessage "429" || includes lowerMsg "quota"
          || includes lowerMsg "resource exhausted" then LimitReached
  else if includes errorMessage "503" || includes lowerMsg "overloaded"
          || includes lowerMsg "unavailable" then ServiceOverloaded
  else if includes lowerMsg "safety" || includes lowerMsg "blocked"
          || includes lowerMsg "harmful" then RequestBlocked
  else if includes lowerMsg "json" || includes lowerMsg "syntax" then
    InvalidResponseFormat
  else if includes errorMessage "Failed to fetch" then NetworkError
  else Unexpected (substring0 150 errorMessage).

(* ================================================================== *)
(** * The generation pipeline: the calls to the model *)
(* ================================================================== *)

(** The parsed reply of the structured call.  [imagePrompts] is [None]
    when the reply carries no array of objects there: [JSON.parse] checks
    no schema, and [improveImagePrompts] then throws a [TypeError]. *)
Record WebsiteData : Type := mkWebsiteData {
  pageTitle : string;
  metaDescription : string;
  metaKeywords : string;
  faviconPrompt : string;
  htmlContent : string;
  imagePrompts : option (list ImagePrompt)
}.

(** How lines 478-489 end: the request or [JSON.parse] throws an error
    with this message, or the reply parses. *)
Inductive StructuredOutcome : Type :=
| StructuredThrows (message : string)
| StructuredData (websiteData : WebsiteData).

(** The outcomes of the calls of one run of [generateWebsite].  A
    refinement or image call is told apart by its position and its
    request; [None] is a call that throws (a rejected request, a reply
    without text or without an image).  [notAnArrayMessage] is the
    message of the [TypeError] the engine throws on [prompts.length] or
    [prompts.map] when the reply has no array of image prompts: its
    wording is the engine's. *)
Record GenerationRun : Type := mkGenerationRun {
  structuredOutcome : StructuredOutcome;
  refinementText : nat -> string -> option string;
  faviconBytes : string -> option string;
  imageBytes : nat -> string -> option string;
  notAnArrayMessage : string
}.

Definition dquote : string := String (ascii_of_nat 34) EmptyString.
Definition newline : string := String (ascii_of_nat 10) EmptyString.

Definition refinementContents (p : ImagePrompt) : string :=
  "Original prompt: " ++ dquote ++ ip_prompt p ++ dquote ++ newline ++ newline
  ++ "Refine this prompt to be photorealistic and relevant to the website context provided in the system instructions.".

(** One callback of [prompts.map(async (p, index) => ...)] in
    [improveImagePrompts]. *)
Definition improvePrompt (run : GenerationRun) (index : nat) (p : ImagePrompt)
  : ImagePrompt :=
  match refinementText run index (refinementContents p) with
  | Some text => mkImagePrompt (ip_id p) (trim text)
  | None => p
  end.

Fixpoint improveFrom (run : GenerationRun) (index : nat) (prompts : list ImagePrompt)
  : list ImagePrompt :=
  match prompts with
  | [] => []
  | p :: rest => improvePrompt run index p :: improveFrom run (S index) rest
  end.

(** [improveImagePrompts(prompts, coreIdea)]; [coreIdea] only enters the
    system instruction. *)
Definition improveImagePrompts (run : GenerationRun) (prompts : list ImagePrompt)
    (coreIdea : string) : list ImagePrompt :=
  improveFrom run 0 prompts.

Definition refinementCalls (prompts : list ImagePrompt) : list Effect :=
  map (fun p => GenerateContentCall (refinementContents p)) prompts.

Definition faviconRequest (prompt : string) : string :=
  "A modern, minimalist, vector-style logo icon. " ++ prompt
  ++ ". High contrast, simple shapes, professional, white background.".

Definition dataUrl (base64ImageBytes : string) : string :=
  "data:image/jpeg;base64," ++ base64ImageBytes.

(** [generateFavicon(prompt)] *)
Definition generateFavicon (run : GenerationRun) (prompt : string) : option Favicon :=
  match faviconBytes run (faviconRequest prompt) with
  | Some bytes => Some (mkFavicon (dataUrl bytes) prompt)
  | None => None
  end.

Definition failedImageUrl : string :=
  "https://via.placeholder.com/1280x720.png?text=Image+Generation+Failed".

(** The body of the [for] loop of [generateImages]: one entry is pushed
    whether the call succeeds or throws. *)
Definition renderImage (run : GenerationRun) (index : nat) (p : ImagePrompt) : Image :=
  match imageBytes run index (ip_prompt p) with
  | Some bytes => mkImage (ip_id p) (dataUrl bytes) (ip_prompt p)
  | None => mkImage (ip_id p) failedImageUrl (ip_prompt p)
  end.

Fixpoint generateImagesLoop (run : GenerationRun) (index : nat)
    (prompts : list ImagePrompt) (results : list Image) : list Image :=
  match prompts with
  | [] => results
  | p :: rest =>
      generateImagesLoop run (S index) rest (results ++ [renderImage run index p])
  end.

(** [generateImages(prompts)] *)
Definition generateImages (run : GenerationRun) (prompts : list ImagePrompt)
  : list Image :=
  generateImagesLoop run 0 prompts [].

Definition imageCalls (prompts : list ImagePrompt) : list Effect :=
  map (fun p => GenerateImagesCall (ip_prompt p)) prompts.

(* ================================================================== *)
(** * History *)
(* ================================================================== *)

(** [arr.slice(0, e)]: a negative [e] counts from the end. *)
Definition sliceTo (A : Type) (e : Z) (l : list A) : list A :=
  if (e <? 0)%Z then firstn (Z.to_nat (Z.of_nat (length l) + e)) l
  else firstn (Z.to_nat e) l.

(** [arr[i]]: [undefined] outside the array. *)
Definition at_index (A : Type) (l : list A) (i : Z) : option A :=
  if (i <? 0)%Z then None else nth_error l (Z.to_nat i).

Definition lastIndex (s : State) : Z := (Z.of_nat (length (history s)) - 1)%Z.

(** [updateUndoRedoButtons()] *)
Definition updateUndoRedoButtons (s : State) : State :=
  set_redoBtn_disabled (lastIndex s <=? historyIndex s)%Z
    (set_undoBtn_disabled (historyIndex s <=? 0)%Z s).

(** [pushHistoryState(html, css)] *)
Definition pushHistoryState (html css : string) (s : State) : State :=
  let s1 :=
    if (historyIndex s <? lastIndex s)%Z
    then set_history (sliceTo (historyIndex s + 1) (history s)) s
    else s in
  let s2 := set_history (history s1 ++ [mkSnapshot html css]) s1 in
  let s3 := set_historyIndex (lastIndex s2) s2 in
  updateUndoRedoButtons s3.

(** [history = []; historyIndex = -1; pushHistoryState(html, css)], as
    [populateUI] starts the history of a new document. *)
Definition resetHistory (html css : string) (s : State) : State :=
  pushHistoryState html css (set_historyIndex (-1)%Z (set_history [] s)).

(* ================================================================== *)
(** * Export: file names and the archive *)
(* ================================================================== *)

Definition isAlphaNumeric (c : ascii) : bool :=
  isLowerAscii c || isUpperAscii c || isDigitAscii c.

(** [id.replace(/[^a-z0-9]/gi, '_').toLowerCase()] *)
Definition safeId (id : string) : string :=
  toLowerCase (mapString (fun c => if isAlphaNumeric c then c else "_"%char) id).

Definition imageFilename (image : Image) : string := safeId (img_id image) ++ ".jpeg".

Definition imagePath (image : Image) : string := "images/" ++ imageFilename image.

(** [zip.file(path, data)]: an entry of that path is replaced where it
    stands, a new one is added last. *)
Fixpoint zipPut (path : string) (e : ZipEntry) (zip : Archive) : Archive :=
  match zip with
  | [] => [(path, e)]
  | (path', e') :: rest =>
      if String.eqb path path' then (path', e) :: rest
      else (path', e') :: zipPut path e rest
  end.

Fixpoint zipGet (path : string) (zip : Archive) : option ZipEntry :=
  match zip with
  | [] => None
  | (path', e) :: rest => if String.eqb path path' then Some e else zipGet path rest
  end.

(** The loop over [latestGeneratedImages] of the export listener.  [net]
    is the outcome of [fetch(url)] and [response.blob()]: the payload, or
    [None] when either throws.  The result is [None] when the loop
    threw; the calls made come with it. *)
Fixpoint exportImages (net : string -> option string) (images : list Image)
    (doc : Document) (zip : Archive) (log : list Effect)
  : option (Document * Archive) * list Effect :=
  match images with
  | [] => (Some (doc, zip), log)
  | image :: rest =>
      if negb (docHasId (img_id image) doc) then exportImages net rest doc zip log
      else
        let doc' :=
          docUpdate (hasId (img_id image)) (assignSrc (imagePath image)) doc in
        match net (img_url image) with
        | Some blob =>
            exportImages net rest doc' (zipPut (imagePath image) (ZipFile blob) zip)
              (log ++ [FetchCall (img_url image)])
        | None => (None, log ++ [FetchCall (img_url image)])
        end
  end.

(** "Handle Favicon" of the export listener. *)
Definition exportFavicon (net : string -> option string) (fav : option Favicon)
    (doc : Document) (zip : Archive) (log : list Effect)
  : option (Document * Archive) * list Effect :=
  match fav with
  | None => (Some (doc, zip), log)
  | Some fv =>
      match docUpdateFirst isIconLink (assignHref "images/favicon.jpeg") doc with
      | None => (Some (doc, zip), log)
      | Some doc' =>
          match net (fav_url fv) with
          | Some blob =>
              (Some (doc', zipPut "images/favicon.jpeg" (ZipFile blob) zip),
               log ++ [FetchCall (fav_url fv)])
          | None => (None, log ++ [FetchCall (fav_url fv)])
          end
      end
  end.

(** The style block put back for the export. *)
Definition restyle (css : string) (doc : Document) : Document :=
  appendToHead (styleElement css) (removeHeadStyles doc).

(* ================================================================== *)
(** * The listeners *)
(* ================================================================== *)

(** The values the submit listener reads from the form. *)
Record FormInput : Type := mkFormInput {
  inputValue : string;
  pageType : string;
  language : string;
  imageCount : string;
  selectedSections : list string
}.

Definition MIN_PROMPT_LENGTH : nat := 15.

(** The prompt of lines 175-185. *)
Definition detailedPromptOf (userPrompt : string) (form : FormInput) : string :=
  "Generate a website based on this core idea: " ++ dquote ++ userPrompt ++ dquote
  ++ "." ++ newline ++ newline
  ++ "**Website Structure Constraints:**" ++ newline
  ++ "- **Language:** The text content of the website MUST be written in "
  ++ language form ++ "." ++ newline
  ++ "- **Page Type:** This should be structured as a " ++ dquote ++ pageType form
  ++ dquote ++ "." ++ newline
  ++ "- **Navigation:** The website MUST include a responsive navigation menu. On desktop, show links horizontally. On mobile, show a hamburger menu that toggles the links. The menu must include anchor links to the following sections: "
  ++ join ", " (selectedSections form) ++ "." ++ newline
  ++ (match selectedSections form with
      | [] => ""
      | _ => "- **Required Sections:** The website MUST include the following sections in a logical order: "
             ++ join ", " (selectedSections form) ++ "." ++ newline
      end)
  ++ "- **Image Count:** Generate exactly " ++ imageCount form
  ++ " unique placeholder images for the site. Ensure the 'imagePrompts' array in your response contains "
  ++ imageCount form ++ " items." ++ newline
  ++ "- **Date:** The current year is 2025. Ensure all dates and copyright notices use the year 2025."
  ++ newline ++ newline
  ++ "Respond with ONLY the JSON object, adhering strictly to the provided schema.".

(** [setLoadingState(isLoading)] *)
Definition setLoadingState (isLoading : bool) (s : State) : State :=
  set_loadingContainer_hidden (negb isLoading) s.

(** The state part of [showError(message)]; the [alert] is an effect of
    the caller. *)
Definition showError (s : State) : State :=
  set_inputSection_hidden false (setLoadingState false s).

Definition galleryOf (fav : option Favicon) (images : list Image) : list GalleryItem :=
  match fav with
  | Some fv => [GalleryFavicon (fav_url fv) (fav_prompt fv)]
  | None => []
  end
  ++ map (fun image => GalleryImage (img_id image) (img_url image) (img_prompt image))
         images.

Definition isEmptyList (A : Type) (l : list A) : bool :=
  match l with [] => true | _ => false end.

(** [saveStateToLocalStorage()]: [now] is [Date.now()], [accepts data]
    tells whether [localStorage.setItem] takes the text of [data] or
    throws for lack of room. *)
Definition saveStateToLocalStorage (now : Z) (accepts : SavedData -> bool)
    (s : State) : State :=
  let htmlVal := htmlEditor s in
  let cssVal := cssEditor s in
  if isEmptyString htmlVal && isEmptyList (latestGeneratedImages s) then s
  else
    let data :=
      mkSavedData htmlVal cssVal (latestGeneratedImages s) (latestFavicon s) now in
    if accepts data then set_localStorage (Some (JsonOf data)) s
    else
      let data' := mkSavedData htmlVal cssVal [] None now in
      if accepts data' then set_localStorage (Some (JsonOf data')) s
      else s.

Section Script.

(** [new DOMParser().parseFromString(html, 'text/html')] and
    [doc.documentElement.outerHTML]. *)
Variable parseFromString : string -> Document.
Variable outerHTML : Document -> string.

(** The parser reads the markup of [d] back as [d]. *)
Definition readsBack (d : Document) : Prop := parseFromString (outerHTML d) = d.

(** [updatePreview(html, css)] *)
Definition updatePreview (html css : string) (s : State) : State :=
  set_previewFrame_srcdoc
    (outerHTML
       (previewDocument (latestGeneratedImages s) (latestFavicon s) css
          (parseFromString html)))
    s.

(** [loadStateFromHistory()]; reading a missing entry throws, and the
    listener ends there. *)
Definition loadStateFromHistory (s : State) : State :=
  match at_index (history s) (historyIndex s) with
  | None => s
  | Some state =>
      updateUndoRedoButtons
        (updatePreview (snap_html state) (snap_css state)
           (set_cssEditor (snap_css state)
              (set_htmlEditor (snap_html state) s)))
  end.

(** The click listener of [undoBtn]. *)
Definition clickUndo (s : State) : State :=
  if (0 <? historyIndex s)%Z
  then loadStateFromHistory (set_historyIndex (historyIndex s - 1)%Z s)
  else s.

(** The click listener of [redoBtn]. *)
Definition clickRedo (s : State) : State :=
  if (historyIndex s <? lastIndex s)%Z
  then loadStateFromHistory (set_historyIndex (historyIndex s + 1)%Z s)
  else s.

(** The click listener of [updatePreviewBtn]. *)
Definition clickUpdatePreview (s : State) : State :=
  let htmlContent := htmlEditor s in
  let cssContent := cssEditor s in
  pushHistoryState htmlContent cssContent (updatePreview htmlContent cssContent s).

(** [populateUI(html, images, metaDesc, metaKeywords)] *)
Definition populateUI (html : string) (images : list Image)
    (metaDesc metaKeywords : string) (s : State) : State :=
  let s1 := set_latestGeneratedImages images s in
  let '(cssContent, doc) :=
    populateDocument (latestFavicon s1) metaDesc metaKeywords (parseFromString html) in
  let htmlContent := outerHTML doc in
  let s2 := set_cssEditor cssContent (set_htmlEditor htmlContent s1) in
  let s3 := resetHistory htmlContent cssContent s2 in
  let s4 := set_imageGallery (galleryOf (latestFavicon s3) images) s3 in
  let s5 := updatePreview htmlContent cssContent s4 in
  set_resultContainer_hidden false s5.

(** The document [populateUI] serialises for the HTML editor. *)
Definition editorDocument (fav : option Favicon)
    (metaDesc metaKeywords html : string) : Document :=
  snd (populateDocument fav metaDesc metaKeywords (parseFromString html)).

(** The document [populateUI] shows: [updatePreview] does not take the
    tree over, it parses the markup written for the editor. *)
Definition resolvedDocument (images : list Image) (fav : option Favicon)
    (metaDesc metaKeywords html : string) : Document :=
  let '(cssContent, doc) :=
    populateDocument fav metaDesc metaKeywords (parseFromString html) in
  previewDocument images fav cssContent (parseFromString (outerHTML doc)).

(** Placeholder resolution as [populateUI] runs it, from the markup of the
    reply to the markup of the preview, with [fav] the favicon of the
    run. *)
Definition resolveMarkup (images : list Image) (fav : option Favicon)
    (metaDesc metaKeywords html : string) : string :=
  outerHTML (resolvedDocument images fav metaDesc metaKeywords html).

(** The state [generateWebsite] sets up before its [try]. *)
Definition beginGeneration (s : State) : State :=
  set_latestFavicon None
    (set_latestGeneratedImages []
       (set_resultContainer_hidden true
          (set_inputSection_hidden true
             (set_generateBtn_disabled true (setLoadingState true s))))).

(** The [finally] of [generateWebsite]. *)
Definition endGeneration (s : State) : State :=
  set_generateBtn_disabled false (setLoadingState false s).

(** The [catch] and [finally] of [generateWebsite] for an error with this
    message. *)
Definition failGeneration (message : string) (s : State) : State * list Effect :=
  (endGeneration (showError s),
   [Alert (MsgGeneration (getFriendlyErrorMessage message))]).

(** [generateWebsite(detailedPrompt, coreIdea, language)] *)
Definition generateWebsite (run : GenerationRun)
    (detailedPrompt coreIdea lang : string) (s : State) : State * list Effect :=
  let s0 := beginGeneration s in
  let sent := [GenerateContentCall detailedPrompt] in
  match structuredOutcome run with
  | StructuredThrows message =>
      let '(s', shown) := failGeneration message s0 in (s', sent ++ shown)
  | StructuredData websiteData =>
      match imagePrompts websiteData with
      | None =>
          let '(s', shown) := failGeneration (notAnArrayMessage run) s0 in
          (s', sent ++ shown)
      | Some prompts =>
          let improvedPrompts := improveImagePrompts run prompts coreIdea in
          let faviconData := generateFavicon run (faviconPrompt websiteData) in
          let s1 := set_latestFavicon faviconData s0 in
          let generatedImages := generateImages run improvedPrompts in
          let s2 :=
            populateUI (htmlContent websiteData) generatedImages
              (metaDescription websiteData) (metaKeywords websiteData) s1 in
          (endGeneration s2,
           sent ++ refinementCalls prompts
           ++ [GenerateImagesCall (faviconRequest (faviconPrompt websiteData))]
           ++ imageCalls improvedPrompts)
      end
  end.

(** The submit listener of the form. *)
Definition submitForm (form : FormInput) (run : GenerationRun) (s : State)
  : State * list Effect :=
  if negb (aiReady s) then (showError s, [Alert MsgAiNotInitialized])
  else
    let userPrompt := trim (inputValue form) in
    if isEmptyString userPrompt then
      (showError s, [Alert MsgPromptMissing; FocusInput])
    else if (String.length userPrompt <? MIN_PROMPT_LENGTH)%nat then
      (showError s, [Alert (MsgPromptTooShort MIN_PROMPT_LENGTH); FocusInput])
    else
      generateWebsite run (detailedPromptOf userPrompt form) userPrompt
        (language form) s.

(** The [try], [catch] and [finally] of the export listener, over the
    images it loops on. *)
Definition exportSite (net : string -> option string) (images : list Image)
    (s : State) : State * list Effect :=
  let zip := [("images/", ZipFolder)] in
  let doc := parseFromString (htmlEditor s) in
  let failed log :=
    (set_exportBtn_disabled false (showError (set_exportBtn_disabled true s)),
     log ++ [Alert MsgExportFailed]) in
  match exportImages net images doc zip [] with
  | (None, log) => failed log
  | (Some (doc1, zip1), log1) =>
      match exportFavicon net (latestFavicon s) doc1 zip1 log1 with
      | (None, log) => failed log
      | (Some (doc2, zip2), log2) =>
          let finalHtml := outerHTML (restyle (cssEditor s) doc2) in
          let zip3 := zipPut "index.html" (ZipFile finalHtml) zip2 in
          (set_exportBtn_disabled false s,
           log2 ++ [DownloadZip "ai-generated-website.zip" zip3])
      end
  end.

(** The click listener of [exportBtn]. *)
Definition clickExport (net : string -> option string) (s : State)
  : State * list Effect :=
  let htmlValue := htmlEditor s in
  if isEmptyString htmlValue || isEmptyList (latestGeneratedImages s) then
    (s, [Alert MsgGenerateFirst])
  else exportSite net (latestGeneratedImages s) s.

(** The export listener of the earlier revision of the script
    ([src/unnamed/part_000]): the same guard and loop, no favicon. *)
Definition exportSiteEarlier (net : string -> option string) (images : list Image)
    (s : State) : State * list Effect :=
  let zip := [("images/", ZipFolder)] in
  let doc := parseFromString (htmlEditor s) in
  match exportImages net images doc zip [] with
  | (None, log) =>
      (set_exportBtn_disabled false (showError (set_exportBtn_disabled true s)),
       log ++ [Alert MsgExportFailedEarlier])
  | (Some (doc1, zip1), log1) =>
      let finalHtml := outerHTML (restyle (cssEditor s) doc1) in
      let zip3 := zipPut "index.html" (ZipFile finalHtml) zip1 in
      (set_exportBtn_disabled false s,
       log1 ++ [DownloadZip "ai-generated-website.zip" zip3])
  end.

Definition clickExportEarlier (net : string -> option string) (s : State)
  : State * list Effect :=
  if isEmptyString (htmlEditor s) || isEmptyList (latestGeneratedImages s) then
    (s, [Alert MsgGenerateFirstEarlier])
  else exportSiteEarlier net (latestGeneratedImages s) s.

(** [loadStateFromLocalStorage()] *)
Definition loadStateFromLocalStorage (s : State) : State :=
  match localStorage s with
  | None => s
  | Some (NotJson _) => s
  | Some (JsonOf data) =>
      if isEmptyString (sd_html data) then s
      else
        let s1 :=
          set_latestFavicon (sd_favicon data)
            (set_latestGeneratedImages (sd_images data) s) in
        let s2 := set_cssEditor (sd_css data) (set_htmlEditor (sd_html data) s1) in
        let s3 :=
          set_imageGallery (galleryOf (latestFavicon s2) (latestGeneratedImages s2)) s2 in
        let s4 := updatePreview (sd_html data) (sd_css data) s3 in
        let s5 := set_resultContainer_hidden false (set_inputSection_hidden true s4) in
        pushHistoryState (sd_html data) (sd_css data) (set_history [] s5)
  end.

(** What can happen to the page. *)
Inductive Event : Type :=
| PageLoad
| Submit (form : FormInput) (run : GenerationRun)
| EditHtml (text : string)
| EditCss (text : string)
| ClickUpdatePreview
| ClickUndo
| ClickRedo
| ClickExport (net : string -> option string)
| AutoSave (now : Z) (accepts : SavedData -> bool).

Definition step (e : Event) (s : State) : State * list Effect :=
  match e with
  | PageLoad => (loadStateFromLocalStorage s, [])
  | Submit form run => submitForm form run s
  | EditHtml text => (set_htmlEditor text s, [])
  | EditCss text => (set_cssEditor text s, [])
  | ClickUpdatePreview => (clickUpdatePreview s, [])
  | ClickUndo => (clickUndo s, [])
  | ClickRedo => (clickRedo s, [])
  | ClickExport net => clickExport net s
  | AutoSave now accepts => (saveStateToLocalStorage now accepts s, [])
  end.

(** The states the page can be in. *)
Inductive reachable : State -> Prop :=
| reachable_startup : forall s, startup s -> reachable s
| reachable_step : forall s e, reachable s -> reachable (fst (step e s)).

(** The operations of the history: [pushHistoryState], the two click
    listeners, and the reset that starts the history of a new document. *)
Inductive HistoryOp : Type :=
| OpPush (html css : string)
| OpUndo
| OpRedo
| OpReset (html css : string).

Definition applyOp (op : HistoryOp) (s : State) : State :=
  match op with
  | OpPush html css => pushHistoryState html css s
  | OpUndo => clickUndo s
  | OpRedo => clickRedo s
  | OpReset html css => resetHistory html css s
  end.

Definition applyOps (ops : list HistoryOp) (s : State) : State :=
  fold_left (fun st op => applyOp op st) ops s.

End Script.

(** The structured stage fails: the call or [JSON.parse] throws, or the
    reply has no array of image prompts. *)
Definition structuredFails (run : GenerationRun) : Prop :=
  match structuredOutcome run with
  | StructuredThrows _ => True
  | StructuredData websiteData => imagePrompts websiteData = None
  end.

(** The cursor is an index of the history. *)
Definition validCursor (s : State) : Prop :=
  (0 <= historyIndex s <= lastIndex s)%Z.

(** The buttons say whether the cursor can move. *)
Definition buttonsInSync (s : State) : Prop :=
  undoBtn_disabled s = (historyIndex s <=? 0)%Z
  /\ redoBtn_disabled s = (lastIndex s <=? historyIndex s)%Z.

(** No history yet, or a valid cursor with the buttons in sync. *)
Definition historyInvariant (s : State) : Prop :=
  (history s = [] /\ historyIndex s = (-1)%Z)
  \/ (validCursor s /\ buttonsInSync s).

(** What [pushHistoryState] leaves alone. *)
Definition sameDocument (s s' : State) : Prop :=
  aiReady s' = aiReady s
  /\ latestGeneratedImages s' = latestGeneratedImages s
  /\ latestFavicon s' = latestFavicon s
  /\ htmlEditor s' = htmlEditor s
  /\ cssEditor s' = cssEditor s
  /\ previewFrame_srcdoc s' = previewFrame_srcdoc s
  /\ imageGallery s' = imageGallery s
  /\ localStorage s' = localStorage s.

(** The history and its two buttons are the same in both states. *)
Definition sameHistory (s s' : State) : Prop :=
  history s' = history s
  /\ historyIndex s' = historyIndex s
  /\ undoBtn_disabled s' = undoBtn_disabled s
  /\ redoBtn_disabled s' = redoBtn_disabled s.

(** The entries [generateImages] pushes, from position [index] on. *)
Fixpoint renderFrom (run : GenerationRun) (index : nat) (prompts : list ImagePrompt)
  : list Image :=
  match prompts with
  | [] => []
  | p :: rest => renderImage run index p :: renderFrom run (S index) rest
  end.

(** The asset the pipeline makes of the prompt at position [i]. *)
Definition assetOf (run : GenerationRun) (i : nat) (p : ImagePrompt) : Image :=
  renderImage run i (improvePrompt run i p).

(* ================================================================== *)
(** * A parser and a serialiser to run the script on *)
(* ================================================================== *)

Definition serializeAttr (kv : string * string) : string :=
  " " ++ fst kv ++ "=" ++ dquote ++ snd kv ++ dquote.

Definition isVoidTag (t : Tag) : bool :=
  isHtml t
  && existsb (String.eqb (localName t)) ["meta"; "link"; "img"; "br"; "hr"; "input"].

Fixpoint serializeNode (n : Node) : string :=
  match n with
  | Elem t a cs =>
      "<" ++ localName t ++ String.concat "" (map serializeAttr a) ++ ">"
      ++ (if isVoidTag t then ""
          else String.concat "" (map serializeNode cs) ++ "</" ++ localName t ++ ">")
  | Text s => s
  | Comment s => "<!--" ++ s ++ "-->"
  end.

(** The markup of a tree, written without escapes. *)
Definition serializePlain (d : Document) : string := serializeNode (docNode d).

(** Markup without a tag parses to a body that holds it as text. *)
Definition parsePlainText (text : string) : Document :=
  mkDocument [] [] [] [] (textNodes text).

(* ================================================================== *)
(** * What the claims say, as predicates *)
(* ================================================================== *)

(** The assets of a run against the prompts of the structured reply: one
    per prompt and in its order; the id is the prompt's, the prompt is the
    refined text or, when refinement threw, the short prompt, and the URL
    is the rendered image or, when rendering threw, the failure
    placeholder. *)
Definition assetsFollowPrompts (run : GenerationRun) (prompts : list ImagePrompt)
    (assets : list Image) : Prop :=
  length assets = length prompts
  /\ map img_id assets = map ip_id prompts
  /\ forall i p,
       nth_error prompts i = Some p ->
       exists asset,
         nth_error assets i = Some asset
         /\ img_id asset = ip_id p
         /\ img_prompt asset
            = match refinementText run i (refinementContents p) with
              | Some text => trim text
              | None => ip_prompt p
              end
         /\ img_url asset
            = match imageBytes run i (img_prompt asset) with
              | Some bytes => dataUrl bytes
              | None => failedImageUrl
              end.

(** A run that failed at its structured stage, from [s] to [s']: editors,
    history, preview, gallery and storage are as before, the images and
    the favicon are gone, and the page shows the input form again. *)
Definition abortedRun (s s' : State) : Prop :=
  htmlEditor s' = htmlEditor s
  /\ cssEditor s' = cssEditor s
  /\ sameHistory s s'
  /\ previewFrame_srcdoc s' = previewFrame_srcdoc s
  /\ imageGallery s' = imageGallery s
  /\ localStorage s' = localStorage s
  /\ latestGeneratedImages s' = []
  /\ latestFavicon s' = None
  /\ inputSection_hidden s' = false
  /\ resultContainer_hidden s' = true
  /\ loadingContainer_hidden s' = true
  /\ generateBtn_disabled s' = false.

(** [s'] holds the document of [s] again, with a history of one snapshot,
    and shows the result. *)
Definition restoredFrom (s s' : State) : Prop :=
  htmlEditor s' = htmlEditor s
  /\ cssEditor s' = cssEditor s
  /\ latestGeneratedImages s' = latestGeneratedImages s
  /\ latestFavicon s' = latestFavicon s
  /\ history s' = [mkSnapshot (htmlEditor s) (cssEditor s)]
  /\ historyIndex s' = 0%Z
  /\ inputSection_hidden s' = true
  /\ resultContainer_hidden s' = false.

(** The pipeline state of [s] is that of [s']. *)
Definition samePipelineState (s s' : State) : Prop :=
  latestGeneratedImages s' = latestGeneratedImages s
  /\ latestFavicon s' = latestFavicon s
  /\ history s' = history s
  /\ historyIndex s' = historyIndex s
  /\ htmlEditor s' = htmlEditor s
  /\ cssEditor s' = cssEditor s
  /\ previewFrame_srcdoc s' = previewFrame_srcdoc s
  /\ localStorage s' = localStorage s.

(** The number of [style] elements in the head. *)
Definition headStyleCount (d : Document) : nat :=
  length (filter (matches styleSel) (elementsIn (headNodes d))).

(* ================================================================== *)
(** * Values to run the script on *)
(* ================================================================== *)

(** The page as the script finds it, with the model initialised. *)
Definition blankPage : State :=
  mkState true [] None [] (-1)%Z "" "" "" [] true true false false true false
          true None.

Definition heroImage : Image :=
  mkImage "hero-image" "data:image/jpeg;base64,QUJD" "fresh bread display".

Definition menuImage : Image :=
  mkImage "menu-image" "data:image/jpeg;base64,REVG" "pastry counter".

Definition bakeryIcon : Favicon :=
  mkFavicon "data:image/jpeg;base64,SUNP" "wheat ear logo".

(** A page that shows a generated site. *)
Definition bakeryPage : State :=
  mkState true [heroImage; menuImage] (Some bakeryIcon)
          [mkSnapshot "Bakery" "body{}"] 0%Z "Bakery" "body{}" "Bakery"
          (galleryOf (Some bakeryIcon) [heroImage; menuImage])
          true true false false true true false None.

(** The same page after its owner emptied the HTML editor. *)
Definition clearedPage : State := set_htmlEditor "" bakeryPage.

Definition bakeryPrompts : list ImagePrompt :=
  [mkImagePrompt "hero-image" "fresh bread display";
   mkImagePrompt "menu-image" "pastry counter"].

(** A run whose structured call parses, whose first refinement answers
    and second throws, and whose first image throws and second renders. *)
Definition bakeryRun : GenerationRun :=
  mkGenerationRun
    (StructuredData
       (mkWebsiteData "Bakery" "Fresh bread daily" "" "wheat ear logo" "Bakery"
          (Some bakeryPrompts)))
    (fun i _ => if (i =? 0)%nat then Some "  golden loaves on a shelf " else None)
    (fun _ => None)
    (fun i _ => if (i =? 0)%nat then None else Some "REVG")
    "Cannot read properties of undefined (reading 'length')".

(** A run whose structured call is rejected. *)
Definition offlineRun : GenerationRun :=
  mkGenerationRun (StructuredThrows "Failed to fetch")
    (fun _ _ => None) (fun _ => None) (fun _ _ => None)
    "Cannot read properties of undefined (reading 'length')".

Definition bakeryForm : FormInput :=
  mkFormInput "bakery landing page" "Landing Page" "English" "2"
    ["about"; "menu"; "contact"].

(** A document with two style blocks, two ids in use and one not. *)
Definition bakeryDocument : Document :=
  mkDocument [("lang", "en")] []
    [Elem "title" [] [Text "Bakery"];
     Elem "style" [] [Text "body{}"];
     Elem "style" [] [Text "h1{}"]]
    []
    [Elem "img" [("id", "hero-image"); ("alt", "bread")] [];
     Elem "div" [("class", "menu")] [Elem "img" [("id", "menu-image")] []]].

(** The tree of [<svg><style><link rel=icon /></style></svg>]: inside
    inline SVG the parser reads [style] as an element like any other, so
    the [link] becomes its child; the three are SVG elements. *)
Definition svgIconDocument : Document :=
  mkDocument [] [] [] []
    [Elem (mkTag SVG "svg") []
       [Elem (mkTag SVG "style") []
          [Elem (mkTag SVG "link") [("rel", "icon")] []]]].

(** The tree of [<svg><script id="hero-image"></script></svg>]: the
    [script] of inline SVG has the id of an image. *)
Definition svgScriptDocument : Document :=
  mkDocument [] [] [] []
    [Elem (mkTag SVG "svg") []
       [Elem (mkTag SVG "script") [("id", "hero-image")] []]].

(** A parser for the markup [serializePlain] writes of the documents in
    [known], and for plain text. *)
Fixpoint parseAmong (known : list Document) (html : string) : Document :=
  match known with
  | [] => parsePlainText html
  | d :: rest =>
      if String.eqb html (serializePlain d) then d else parseAmong rest html
  end.

Definition parseBakery : string -> Document := parseAmong [bakeryDocument].

(** The bakery page with the markup of [bakeryDocument] in its editor and
    a third image whose id no element has. *)
Definition strayImage : Image :=
  mkImage "footer-image" "data:image/jpeg;base64,R0hJ" "shop front".

Definition bakeryExportPage : State :=
  set_latestGeneratedImages [heroImage; strayImage; menuImage]
    (set_htmlEditor (serializePlain bakeryDocument) bakeryPage).

(** A network on which every [fetch] answers with the URL it was given. *)
Definition echoNet (url : string) : option string := Some url.

(** Closes a goal that two states have the same fields. *)
Ltac same_history := repeat split; reflexivity.

(* ================================================================== *)
(** * The tab bar *)
(* ================================================================== *)

(** An element of [tabButtons], with what the click listener of [tabs]
    reads and writes of it: [dataset.tab], the attributes [data-selected]
    and [aria-selected], and the class [active]. *)
Record TabButton : Type := mkTabButton {
  tb_tab : option string;
  tb_dataSelected : option string;
  tb_ariaSelected : option string;
  tb_active : bool
}.

(** An element of [tabContents]: its id, the class [active] and the
    property [hidden]. *)
Record TabContent : Type := mkTabContent {
  tc_id : string;
  tc_active : bool;
  tc_hidden : bool
}.

Record TabBar : Type := mkTabBar {
  tabButtons : list TabButton;
  tabContents : list TabContent
}.

(** [e.target]: the element of [tabButtons] at a position, or an element
    without the class [tab-button]. *)
Inductive ClickTarget : Type :=
| TargetTabButton (position : nat)
| TargetOther.

(** [(button === target).toString()] *)
Definition boolText (b : bool) : string := if b then "true" else "false".

(** [tabButtons.forEach(button => ...)], from the button at [position]
    on. *)
Fixpoint selectButtons (position target : nat) (buttons : list TabButton)
  : list TabButton :=
  match buttons with
  | [] => []
  | button :: rest =>
      let isTarget := (position =? target)%nat in
      mkTabButton (tb_tab button) (Some (boolText isTarget))
        (Some (boolText isTarget)) isTarget
      :: selectButtons (S position) target rest
  end.

(** The same loop in the earlier revision, which leaves [data-selected]
    alone. *)
Fixpoint selectButtonsEarlier (position target : nat) (buttons : list TabButton)
  : list TabButton :=
  match buttons with
  | [] => []
  | button :: rest =>
      let isTarget := (position =? target)%nat in
      mkTabButton (tb_tab button) (tb_dataSelected button)
        (Some (boolText isTarget)) isTarget
      :: selectButtonsEarlier (S position) target rest
  end.

(** [tabContents.forEach(content => ...)] *)
Definition showContents (tabName : string) (contents : list TabContent)
  : list TabContent :=
  map (fun content =>
         let isTargetContent := prefix tabName (tc_id content) in
         mkTabContent (tc_id content) isTargetContent (negb isTargetContent))
      contents.

(** The click listener of [tabs]. *)
Definition clickTabs (target : ClickTarget) (bar : TabBar) : TabBar :=
  match target with
  | TargetOther => bar
  | TargetTabButton position =>
      match nth_error (tabButtons bar) position with
      | None => bar
      | Some button =>
          match tb_tab button with
          | None => bar
          | Some tabName =>
              if isEmptyString tabName then bar
              else mkTabBar (selectButtons 0 position (tabButtons bar))
                            (showContents tabName (tabContents bar))
          end
      end
  end.

(** The click listener of [tabs] in the earlier revision. *)
Definition clickTabsEarlier (target : ClickTarget) (bar : TabBar) : TabBar :=
  match target with
  | TargetOther => bar
  | TargetTabButton position =>
      match nth_error (tabButtons bar) position with
      | None => bar
      | Some button =>
          match tb_tab button with
          | None => bar
          | Some tabName =>
              if isEmptyString tabName then bar
              else mkTabBar (selectButtonsEarlier 0 position (tabButtons bar))
                            (showContents tabName (tabContents bar))
          end
      end
  end.

(** The clicked button names a tab. *)
Definition namesTab (target : ClickTarget) (bar : TabBar) (tabName : string) : Prop :=
  exists position button,
    target = TargetTabButton position
    /\ nth_error (tabButtons bar) position = Some button
    /\ tb_tab button = Some tabName
    /\ tabName <> "".

(* ================================================================== *)
(** * Auto-save: the timer *)
(* ================================================================== *)

(** The handle the script keeps in [autoSaveTimeout] and the timers of
    the browser that will run [saveStateToLocalStorage], each with its
    handle and the time it is due. *)
Record AutoSaveTimer : Type := mkAutoSaveTimer {
  autoSaveTimeout : option nat;
  pendingSaves : list (nat * Z)
}.

(** [clearTimeout(handle)]: the timers of that handle are dropped; a
    handle no timer has is ignored. *)
Definition clearTimeout (handle : nat) (pending : list (nat * Z))
  : list (nat * Z) :=
  filter (fun timer => negb (fst timer =? handle)%nat) pending.

(** [triggerAutoSave()], called at time [now]; [handle] is what
    [window.setTimeout] returns.  [if (autoSaveTimeout)] fails on
    [undefined] and on 0. *)
Definition triggerAutoSave (handle : nat) (now : Z) (timer : AutoSaveTimer)
  : AutoSaveTimer :=
  let pending :=
    match autoSaveTimeout timer with
    | Some (S _ as old) => clearTimeout old (pendingSaves timer)
    | _ => pendingSaves timer
    end in
  mkAutoSaveTimer (Some handle) (pending ++ [(handle, (now + 1000)%Z)]).

(** What happens to the timer: a change of an editor or the end of
    [populateUI] calls [triggerAutoSave]; the browser runs the timer of a
    handle, which then is no longer pending. *)
Inductive TimerEvent : Type :=
| SaveTriggered (handle : nat) (now : Z)
| TimerRuns (handle : nat).

Definition timerStep (timer : AutoSaveTimer) (e : TimerEvent) : AutoSaveTimer :=
  match e with
  | SaveTriggered handle now => triggerAutoSave handle now timer
  | TimerRuns handle =>
      mkAutoSaveTimer (autoSaveTimeout timer)
        (clearTimeout handle (pendingSaves timer))
  end.

Definition timerRun (events : list TimerEvent) (timer : AutoSaveTimer)
  : AutoSaveTimer :=
  fold_left timerStep events timer.

(** The handles [window.setTimeout] returns are greater than zero. *)
Definition positiveHandle (e : TimerEvent) : Prop :=
  match e with
  | SaveTriggered handle _ => (0 < handle)%nat
  | TimerRuns _ => True
  end.

(** The timer as the script starts: [let autoSaveTimeout], nothing
    pending. *)
Definition noTimer : AutoSaveTimer := mkAutoSaveTimer None [].

(** At most one save is pending, under the handle the script holds. *)
Definition onePending (timer : AutoSaveTimer) : Prop :=
  pendingSaves timer = []
  \/ exists handle due,
       pendingSaves timer = [(handle, due)]
       /\ autoSaveTimeout timer = Some handle /\ (0 < handle)%nat.

(* ================================================================== *)
(** * The earlier revision of the script *)
(* ================================================================== *)

(** The texts the earlier revision shows with [alert] from its submit
    listener and from [generateWebsite]. *)
Inductive MessageEarlier : Type :=
| AiNotInitializedEarlier       (* AI not initialized. *)
| GenerationFailedEarlier.      (* An error occurred while generating the website. Please try again. *)

Inductive EffectEarlier : Type :=
| AlertEarlier (m : MessageEarlier)
| FocusInputEarlier
| GenerateContentCallEarlier (contents : string)
| GenerateImagesCallEarlier (prompt : string).

Definition isNetworkCallEarlier (e : EffectEarlier) : bool :=
  match e with
  | GenerateContentCallEarlier _ => true
  | GenerateImagesCallEarlier _ => true
  | _ => false
  end.

(** The prompt of lines 103-110 of the earlier revision. *)
Definition detailedPromptEarlier (userPrompt : string) (form : FormInput) : string :=
  "Generate a website based on this core idea: " ++ dquote ++ userPrompt ++ dquote
  ++ "." ++ newline ++ newline
  ++ "**Website Structure Constraints:**" ++ newline
  ++ "- **Page Type:** This should be structured as a " ++ dquote ++ pageType form
  ++ dquote ++ "." ++ newline
  ++ (match selectedSections form with
      | [] => ""
      | _ => "- **Required Sections:** The website MUST include the following sections in a logical order: "
             ++ join ", " (selectedSections form) ++ "." ++ newline
      end)
  ++ "- **Image Count:** Generate exactly " ++ imageCount form
  ++ " unique placeholder images for the site. Ensure the 'imagePrompts' array in your response contains "
  ++ imageCount form ++ " items." ++ newline
  ++ newline
  ++ "Respond with ONLY the JSON object, adhering strictly to the provided schema.".

Definition refinementContentsEarlier (p : ImagePrompt) : string :=
  "Original prompt: " ++ dquote ++ ip_prompt p ++ dquote.

(** One callback of [prompts.map(async (p) => ...)] in the earlier
    [improveImagePrompts]; [index] tells the calls apart. *)
Definition improvePromptEarlier (run : GenerationRun) (index : nat) (p : ImagePrompt)
  : ImagePrompt :=
  match refinementText run index (refinementContentsEarlier p) with
  | Some text => mkImagePrompt (ip_id p) (trim text)
  | None => p
  end.

Fixpoint improveFromEarlier (run : GenerationRun) (index : nat)
    (prompts : list ImagePrompt) : list ImagePrompt :=
  match prompts with
  | [] => []
  | p :: rest =>
      improvePromptEarlier run index p :: improveFromEarlier run (S index) rest
  end.

Definition improveImagePromptsEarlier (run : GenerationRun)
    (prompts : list ImagePrompt) : list ImagePrompt :=
  improveFromEarlier run 0 prompts.

Definition failedImageUrlEarlier : string :=
  "https://via.placeholder.com/1280x720.png?text=Image+Failed+To+Load".

(** One callback of [prompts.map(async (p) => ...)] in the earlier
    [generateImages]. *)
Definition renderImageEarlier (run : GenerationRun) (index : nat) (p : ImagePrompt)
  : Image :=
  match imageBytes run index (ip_prompt p) with
  | Some bytes => mkImage (ip_id p) (dataUrl bytes) (ip_prompt p)
  | None => mkImage (ip_id p) failedImageUrlEarlier (ip_prompt p)
  end.

(** [Promise.all(prompts.map(...))]: the results in the order of the
    prompts, whatever the order the calls end in. *)
Fixpoint renderFromEarlier (run : GenerationRun) (index : nat)
    (prompts : list ImagePrompt) : list Image :=
  match prompts with
  | [] => []
  | p :: rest =>
      renderImageEarlier run index p :: renderFromEarlier run (S index) rest
  end.

Definition generateImagesEarlier (run : GenerationRun) (prompts : list ImagePrompt)
  : list Image :=
  renderFromEarlier run 0 prompts.

(** The elements whose [alt] property writes the [alt] attribute: the
    HTML elements of these names. *)
Definition reflectsAlt (t : Tag) : bool :=
  isHtml t && existsb (String.eqb (localName t)) ["img"; "area"; "input"].

(** [imgElement.src = image.url; imgElement.alt = image.prompt;] *)
Definition assignSrcAlt (url alt : string) (t : Tag) (a : Attrs) : Attrs :=
  let a1 := assignSrc url t a in
  if reflectsAlt t then setAttr "alt" alt a1 else a1.

Definition injectImageEarlier (d : Document) (im : Image) : Document :=
  docUpdate (hasId (img_id im)) (assignSrcAlt (img_url im) (img_prompt im)) d.

(** The tree of the preview the earlier [populateUI] builds: the images,
    then the style block appended to the head. *)
Definition firstPreviewEarlier (images : list Image) (css : string) (d : Document)
  : Document :=
  appendToHead (styleElement css) (fold_left injectImageEarlier images d).

(** The cards of the gallery, which has no favicon in the earlier
    revision. *)
Definition galleryEarlier (images : list Image) : list GalleryItem :=
  map (fun image => GalleryImage (img_id image) (img_url image) (img_prompt image))
      images.

Section ScriptEarlier.

Variable parseFromString : string -> Document.
Variable outerHTML : Document -> string.

(** [populateUI(html, images)] of the earlier revision. *)
Definition populateUIEarlier (html : string) (images : list Image) (s : State)
  : State :=
  let s1 := set_latestGeneratedImages images s in
  let '(cssContent, doc) := separateStyle (parseFromString html) in
  let htmlContent := outerHTML doc in
  let s2 := set_cssEditor cssContent (set_htmlEditor htmlContent s1) in
  let s3 := resetHistory htmlContent cssContent s2 in
  let s4 := set_imageGallery (galleryEarlier images) s3 in
  let previewDoc := parseFromString htmlContent in
  let s5 :=
    set_previewFrame_srcdoc
      (outerHTML (firstPreviewEarlier images cssContent previewDoc)) s4 in
  set_resultContainer_hidden false s5.

(** [generateWebsite(prompt)] of the earlier revision. *)
Definition generateWebsiteEarlier (run : GenerationRun) (prompt : string)
    (s : State) : State * list EffectEarlier :=
  let s0 :=
    set_latestGeneratedImages []
      (set_resultContainer_hidden true
         (set_inputSection_hidden true
            (set_generateBtn_disabled true (setLoadingState true s)))) in
  let sent := [GenerateContentCallEarlier prompt] in
  let failed :=
    (endGeneration (showError s0), sent ++ [AlertEarlier GenerationFailedEarlier]) in
  match structuredOutcome run with
  | StructuredThrows _ => failed
  | StructuredData websiteData =>
      match imagePrompts websiteData with
      | None => failed
      | Some prompts =>
          let improvedPrompts := improveImagePromptsEarlier run prompts in
          let generatedImages := generateImagesEarlier run improvedPrompts in
          let s1 := populateUIEarlier (htmlContent websiteData) generatedImages s0 in
          (endGeneration s1,
           sent
           ++ map (fun p => GenerateContentCallEarlier (refinementContentsEarlier p))
                  prompts
           ++ map (fun p => GenerateImagesCallEarlier (ip_prompt p)) improvedPrompts)
      end
  end.

(** The submit listener of the earlier revision. *)
Definition submitFormEarlier (form : FormInput) (run : GenerationRun) (s : State)
  : State * list EffectEarlier :=
  if negb (aiReady s) then (showError s, [AlertEarlier AiNotInitializedEarlier])
  else
    let userPrompt := trim (inputValue form) in
    if isEmptyString userPrompt then (s, [FocusInputEarlier])
    else generateWebsiteEarlier run (detailedPromptEarlier userPrompt form) s.

End ScriptEarlier.

(* ================================================================== *)
(** * Sequences of events and further predicates *)
(* ================================================================== *)

Section Runs.

Variable parseFromString : string -> Document.
Variable outerHTML : Document -> string.

(** The page after a sequence of events. *)
Definition runEvents (events : list Event) (s : State) : State :=
  fold_left (fun st e => fst (step parseFromString outerHTML e st)) events s.

End Runs.

(** No listener is running: the two buttons a listener disables are
    enabled and the loading indicator is hidden. *)
Definition controlsIdle (s : State) : Prop :=
  generateBtn_disabled s = false
  /\ exportBtn_disabled s = false
  /\ loadingContainer_hidden s = true.

(** The image is the last to be exported under its path: an element of
    [doc] has its id, and no image after it whose id an element of [doc]
    has goes to the same path. *)
Definition lastUnderItsPath (doc : Document) (image : Image) (after : list Image)
  : Prop :=
  docHasId (img_id image) doc = true
  /\ forall other,
       In other after -> docHasId (img_id other) doc = true ->
       imagePath other <> imagePath image.

(** One turn of the loops over the images: [write im] is what the loop
    writes on the first element that has the id of [im]. *)
Definition placeImage (write : Image -> Tag -> Attrs -> Attrs) (d : Document)
    (im : Image) : Document :=
  docUpdate (hasId (img_id im)) (write im) d.

(** The paths of an archive. *)
Definition zipPaths (zip : Archive) : list string := map fst zip.

(** Every character of the string is white space. *)
Definition allWhiteSpace (s : string) : Prop :=
  Forall (fun c => isWhiteSpace c = true) (list_ascii_of_string s).

(** A string of decimal digits. *)
Definition digitsOnly (p : string) : Prop :=
  Forall (fun d => isDigitAscii d = true) (list_ascii_of_string p).

(** The categories [getFriendlyErrorMessage] finds without regard to
    letter case. *)
Definition foundByKeyword (m : FriendlyMessage) : Prop :=
  m = AuthenticationFailed \/ m = LimitReached \/ m = ServiceOverloaded
  \/ m = RequestBlocked \/ m = InvalidResponseFormat.

(* ================================================================== *)
(** * Further values to run the script on *)
(* ================================================================== *)

(** A tab bar of four tabs, the first of them shown. *)
Definition editorTabs : TabBar :=
  mkTabBar
    [mkTabButton (Some "preview") (Some "true") (Some "true") true;
     mkTabButton (Some "html") (Some "false") (Some "false") false;
     mkTabButton (Some "css") (Some "false") (Some "false") false;
     mkTabButton (Some "images") (Some "false") (Some "false") false;
     mkTabButton None None None false]
    [mkTabContent "preview-content" true false;
     mkTabContent "html-content" false true;
     mkTabContent "css-content" false true;
     mkTabContent "images-content" false true].

(** An image whose id gives the file name that [heroImage] has. *)
Definition bannerImage : Image :=
  mkImage "hero_image" "data:image/jpeg;base64,SktM" "shop banner".

(** A document with an element for each of the two. *)
Definition twinDocument : Document :=
  mkDocument [] [] [] []
    [Elem "img" [("id", "hero_image")] [];
     Elem "img" [("id", "hero-image")] []].

Definition parseTwin : string -> Document := parseAmong [twinDocument].

Definition twinPage : State :=
  set_latestGeneratedImages [bannerImage; heroImage]
    (set_latestFavicon None
       (set_htmlEditor (serializePlain twinDocument) bakeryPage)).

(** A network on which no [fetch] is answered. *)
Definition deadNet (url : string) : option string := None.

(** A store that has room for a record without images only. *)
Definition smallStore (data : SavedData) : bool := isEmptyList (sd_images data).

(** Three changes in a row, the timer of the last of them running, and
    one more change. *)
Definition burstOfEdits : list TimerEvent :=
  [SaveTriggered 1 0; SaveTriggered 2 300; SaveTriggered 3 650; TimerRuns 3;
   SaveTriggered 4 5000].

(** The trees two runs of [populateUI] hand over as markup when the first
    starts from [d]: [d] itself, the document of the editor and the
    document of the preview of the first run, the document of the editor
    of the second. *)
Definition resolutionTrees (images : list Image) (fav : option Favicon)
    (metaDesc metaKeywords : string) (d : Document) : list Document :=
  let '(css, doc) := populateDocument fav metaDesc metaKeywords d in
  let preview := previewDocument images fav css doc in
  [d; doc; preview; snd (populateDocument fav metaDesc metaKeywords preview)].

(** Parsers that read these trees back from the markup [serializePlain]
    writes of them, for the bakery and for the inline SVG. *)
Definition parseBakeryRuns : string -> Document :=
  parseAmong
    (resolutionTrees [heroImage; strayImage; menuImage] (Some bakeryIcon)
       "Fresh bread daily" "bread, bakery" bakeryDocument).

Definition parseSvgRuns : string -> Document :=
  parseAmong (resolutionTrees [] (Some bakeryIcon) "" "" svgIconDocument).

(** A parser that also reads the markup [populateUI] puts in the HTML
    editor for [bakeryDocument]. *)
Definition parseBakeryEditor : string -> Document :=
  parseAmong [bakeryDocument; snd (separateStyle bakeryDocument)].

(* ================================================================== *)
(** * Lemmas: strings, attributes, lists *)
(* ================================================================== *)

Lemma isEmptyString_true (s : string) : isEmptyString s = true <-> s = "".
Proof. destruct s; simpl; split; congruence. Qed.

Lemma isEmptyString_false (s : string) : isEmptyString s = false <-> s <> "".
Proof. destruct s; simpl; split; congruence. Qed.

Lemma Node_forest_ind (P : Node -> Prop) (Q : list Node -> Prop) :
  (forall t a cs, Q cs -> P (Elem t a cs)) ->
  (forall s, P (Text s)) -> (forall s, P (Comment s)) ->
  Q [] -> (forall n l, P n -> Q l -> Q (n :: l)) ->
  (forall n, P n) /\ (forall l, Q l).
Proof.
  intros HE HT HC Hnil Hcons.
  assert (HP : forall n, P n) by (apply (Node_rect' P Q); assumption).
  split; [exact HP|].
  induction l; [assumption | apply Hcons; auto].
Qed.


Lemma getAttr_setAttr_same (k v : string) (a : Attrs) :
  getAttr k (setAttr k v a) = Some v.
Proof.
  induction a as [|[k' v'] r IH]; simpl.
  - now rewrite String.eqb_refl.
  - destruct (String.eqb k k') eqn:E; simpl; rewrite E; auto.
Qed.

Lemma getAttr_setAttr_other (k k' v : string) (a : Attrs) :
  k <> k' -> getAttr k' (setAttr k v a) = getAttr k' a.
Proof.
  intros Hne. induction a as [|[k0 v0] r IH]; simpl.
  - destruct (String.eqb k' k) eqn:E; auto.
    apply String.eqb_eq in E. congruence.
  - destruct (String.eqb k k0) eqn:E; simpl.
    + apply String.eqb_eq in E. subst k0.
      destruct (String.eqb k' k) eqn:E'; auto.
      apply String.eqb_eq in E'. congruence.
    + now rewrite IH.
Qed.

Lemma setAttr_setAttr (k v v' : string) (a : Attrs) :
  setAttr k v (setAttr k v' a) = setAttr k v a.
Proof.
  induction a as [|[k0 v0] r IH]; simpl.
  - now rewrite String.eqb_refl.
  - destruct (String.eqb k k0) eqn:E; simpl; rewrite E; auto. now rewrite IH.
Qed.

Lemma setAttr_same (k v : string) (a : Attrs) :
  getAttr k a = Some v -> setAttr k v a = a.
Proof.
  induction a as [|[k0 v0] r IH]; simpl; [discriminate|].
  destruct (String.eqb k k0) eqn:E; intros H.
  - congruence.
  - now rewrite IH.
Qed.

Lemma find_app (A : Type) (P : A -> bool) (l1 l2 : list A) :
  find P (l1 ++ l2) = match find P l1 with Some x => Some x | None => find P l2 end.
Proof. induction l1; simpl; auto. destruct (P a); auto. Qed.

(* ================================================================== *)
(** * Lemmas: updating the first match *)
(* ================================================================== *)

Section UpdateFacts.

Variable p : Tag -> Attrs -> bool.
Variable f : Tag -> Attrs -> Attrs.

Lemma hasMatch_Elem (t : Tag) (a : Attrs) (cs : list Node) :
  hasMatch p (Elem t a cs) = p t a || hasMatchIn p cs.
Proof. reflexivity. Qed.

Lemma hasMatchIn_cons (c : Node) (r : list Node) :
  hasMatchIn p (c :: r) = hasMatch p c || hasMatchIn p r.
Proof. unfold hasMatchIn, hasMatch, elementsIn. simpl. apply existsb_app. Qed.

Lemma hasMatchIn_app (l r : list Node) :
  hasMatchIn p (l ++ r) = hasMatchIn p l || hasMatchIn p r.
Proof.
  unfold hasMatchIn, elementsIn. rewrite flat_map_app. apply existsb_app.
Qed.

Lemma updateFirst_spec :
  (forall n, updateFirst p f n
             = if hasMatch p n then Some (updNode p f n) else None)
  /\ (forall l, updateFirstIn p f l
                = if hasMatchIn p l then Some (updForest p f l) else None).
Proof.
  apply Node_forest_ind.
  - intros t a cs IH. rewrite hasMatch_Elem. unfold updNode. simpl.
    destruct (p t a); simpl; auto.
    fold (updateFirstIn p f cs). rewrite IH.
    destruct (hasMatchIn p cs); auto.
  - reflexivity.
  - reflexivity.
  - reflexivity.
  - intros n l IHn IHl. rewrite hasMatchIn_cons.
    unfold updForest, updateFirstIn in *. simpl. rewrite IHn.
    destruct (hasMatch p n); simpl; auto.
    rewrite IHl. destruct (hasMatchIn p l); auto.
Qed.

Lemma updNode_Elem (t : Tag) (a : Attrs) (cs : list Node) :
  updNode p f (Elem t a cs)
  = if p t a then Elem t (f t a) cs else Elem t a (updForest p f cs).
Proof.
  unfold updNode, updForest. simpl. destruct (p t a); auto.
  fold (updateFirstIn p f cs). destruct (updateFirstIn p f cs); auto.
Qed.

Lemma updForest_nil : updForest p f [] = [].
Proof. reflexivity. Qed.

Lemma updForest_cons (c : Node) (r : list Node) :
  updForest p f (c :: r)
  = if hasMatch p c then updNode p f c :: r else c :: updForest p f r.
Proof.
  unfold updForest at 1. unfold updateFirstIn. simpl.
  rewrite (proj1 updateFirst_spec c).
  destruct (hasMatch p c); auto.
  fold (updateFirstIn p f r). unfold updForest.
  destruct (updateFirstIn p f r); auto.
Qed.

Lemma updNode_no_match (n : Node) : hasMatch p n = false -> updNode p f n = n.
Proof.
  intros H. unfold updNode. rewrite (proj1 updateFirst_spec n), H. reflexivity.
Qed.

Lemma updForest_no_match (l : list Node) :
  hasMatchIn p l = false -> updForest p f l = l.
Proof.
  intros H. unfold updForest. rewrite (proj2 updateFirst_spec l), H. reflexivity.
Qed.

Lemma updList_app (L1 L2 : list (Tag * Attrs)) :
  updList p f (L1 ++ L2)
  = if existsb (matches p) L1 then updList p f L1 ++ L2 else L1 ++ updList p f L2.
Proof.
  induction L1 as [|[t a] r IH]; simpl; auto.
  unfold matches at 1. simpl. destruct (p t a); simpl; auto.
  rewrite IH. destruct (existsb (matches p) r); auto.
Qed.

Lemma updList_no_match (L : list (Tag * Attrs)) :
  existsb (matches p) L = false -> updList p f L = L.
Proof.
  induction L as [|[t a] r IH]; simpl; auto.
  unfold matches at 1. simpl. destruct (p t a); simpl; [discriminate|].
  intros H. now rewrite IH.
Qed.

Lemma elements_upd :
  (forall n, elementsOf (updNode p f n) = updList p f (elementsOf n))
  /\ (forall l, elementsIn (updForest p f l) = updList p f (elementsIn l)).
Proof.
  apply Node_forest_ind.
  - intros t a cs IH. rewrite updNode_Elem. simpl.
    destruct (p t a); simpl; auto.
    fold (elementsIn (updForest p f cs)). fold (elementsIn cs). now rewrite IH.
  - reflexivity.
  - reflexivity.
  - reflexivity.
  - intros n l IHn IHl. rewrite updForest_cons.
    unfold elementsIn in *. simpl. rewrite updList_app.
    fold (hasMatch p n). destruct (hasMatch p n); simpl.
    + now rewrite IHn.
    + now rewrite IHl.
Qed.

End UpdateFacts.

Section UpdateInteraction.

Variables p q : Tag -> Attrs -> bool.
Variables f g : Tag -> Attrs -> Attrs.

(** [g] rewrites attributes that [p] does not look at. *)
Hypothesis p_stable : forall t a, p t (g t a) = p t a.

Lemma existsb_updList (L : list (Tag * Attrs)) :
  existsb (matches p) (updList q g L) = existsb (matches p) L.
Proof.
  induction L as [|[t a] r IH]; simpl; auto.
  destruct (q t a); simpl.
  - unfold matches. simpl. now rewrite p_stable.
  - now rewrite IH.
Qed.

Lemma hasMatch_updNode (n : Node) : hasMatch p (updNode q g n) = hasMatch p n.
Proof.
  unfold hasMatch. rewrite (proj1 (elements_upd q g)). apply existsb_updList.
Qed.

Lemma hasMatchIn_updForest (l : list Node) :
  hasMatchIn p (updForest q g l) = hasMatchIn p l.
Proof.
  unfold hasMatchIn. rewrite (proj2 (elements_upd q g)). apply existsb_updList.
Qed.

End UpdateInteraction.

Section Commute.

Variables p q : Tag -> Attrs -> bool.
Variables f g : Tag -> Attrs -> Attrs.

Hypothesis p_stable : forall t a, p t (g t a) = p t a.
Hypothesis q_stable : forall t a, q t (f t a) = q t a.
Hypothesis fg_comm :
  forall t a, p t a = true -> q t a = true -> f t (g t a) = g t (f t a).

Lemma upd_comm :
  (forall n, updNode p f (updNode q g n) = updNode q g (updNode p f n))
  /\ (forall l, updForest p f (updForest q g l) = updForest q g (updForest p f l)).
Proof.
  apply Node_forest_ind.
  - intros t a cs IH. rewrite (updNode_Elem q g), (updNode_Elem p f).
    destruct (p t a) eqn:Hp, (q t a) eqn:Hq;
      rewrite !updNode_Elem, ?p_stable, ?q_stable, ?Hp, ?Hq.
    + now rewrite fg_comm.
    + reflexivity.
    + reflexivity.
    + now rewrite IH.
  - reflexivity.
  - reflexivity.
  - reflexivity.
  - intros n l IHn IHl. rewrite (updForest_cons q g), (updForest_cons p f).
    destruct (hasMatch p n) eqn:Hp, (hasMatch q n) eqn:Hq;
      rewrite !updForest_cons, ?(hasMatch_updNode p q g p_stable),
        ?(hasMatch_updNode q p f q_stable), ?Hp, ?Hq.
    + now rewrite IHn.
    + reflexivity.
    + reflexivity.
    + now rewrite IHl.
Qed.

End Commute.

Section Absorb.

Variable p : Tag -> Attrs -> bool.
Variables f g : Tag -> Attrs -> Attrs.

Hypothesis p_stable : forall t a, p t (g t a) = p t a.
Hypothesis f_absorbs : forall t a, p t a = true -> f t (g t a) = f t a.

Lemma upd_absorb :
  (forall n, updNode p f (updNode p g n) = updNode p f n)
  /\ (forall l, updForest p f (updForest p g l) = updForest p f l).
Proof.
  apply Node_forest_ind.
  - intros t a cs IH. rewrite (updNode_Elem p g), (updNode_Elem p f).
    destruct (p t a) eqn:Hp; rewrite !updNode_Elem, ?p_stable, ?Hp.
    + now rewrite f_absorbs.
    + now rewrite IH.
  - reflexivity.
  - reflexivity.
  - reflexivity.
  - intros n l IHn IHl. rewrite (updForest_cons p g), (updForest_cons p f).
    destruct (hasMatch p n) eqn:Hp;
      rewrite !updForest_cons, ?(hasMatch_updNode p p g p_stable), ?Hp.
    + now rewrite IHn.
    + now rewrite IHl.
Qed.

End Absorb.

Lemma existsb_find (A : Type) (P : A -> bool) (l : list A) :
  existsb P l = match find P l with Some _ => true | None => false end.
Proof. induction l; simpl; auto. destruct (P a); auto. Qed.

Section Fixed.

Variable p : Tag -> Attrs -> bool.
Variable f : Tag -> Attrs -> Attrs.

(** Rewriting the first match changes nothing when that element already
    has the attributes [f] gives it. *)
Lemma upd_fixed :
  (forall n,
      (forall t a, find (matches p) (elementsOf n) = Some (t, a) -> f t a = a) ->
      updNode p f n = n)
  /\ (forall l,
         (forall t a, find (matches p) (elementsIn l) = Some (t, a) -> f t a = a) ->
         updForest p f l = l).
Proof.
  apply Node_forest_ind.
  - intros t a cs IH H. rewrite updNode_Elem. simpl in H.
    unfold matches at 1 in H. simpl in H.
    destruct (p t a).
    + now rewrite (H t a eq_refl).
    + now rewrite IH.
  - reflexivity.
  - reflexivity.
  - reflexivity.
  - intros n l IHn IHl H. rewrite updForest_cons.
    unfold elementsIn in H. simpl in H. fold (elementsIn l) in H.
    unfold hasMatch. rewrite existsb_find.
    destruct (find (matches p) (elementsOf n)) as [[t a]|] eqn:E.
    + rewrite IHn; auto. intros t' a' H'. apply H.
      rewrite find_app, E. congruence.
    + rewrite IHl; auto. intros t' a' H'. apply H.
      now rewrite find_app, E.
Qed.

End Fixed.

(* ================================================================== *)
(** * Lemmas: the document as one tree *)
(* ================================================================== *)

Lemma docNode_inj (d d' : Document) : docNode d = docNode d' -> d = d'.
Proof. destruct d, d'. unfold docNode. simpl. intros H. now inversion H. Qed.

Lemma docElements_docNode (d : Document) : docElements d = elementsOf (docNode d).
Proof.
  unfold docElements, docNode. simpl. now rewrite app_nil_r.
Qed.

Lemma docUpdateFirst_spec (p : Tag -> Attrs -> bool)
    (f : Tag -> Attrs -> Attrs) (d : Document) :
  docUpdateFirst p f d
  = if existsb (matches p) (docElements d) then Some (docUpdate p f d) else None.
Proof.
  unfold docUpdate.
  destruct (docUpdateFirst p f d) eqn:E.
  - replace (existsb (matches p) (docElements d)) with true; auto.
    symmetry. revert E. unfold docUpdateFirst, docElements. simpl.
    rewrite existsb_app. simpl. unfold matches at 1 2 4. simpl.
    rewrite !(proj2 (updateFirst_spec p f)). unfold hasMatchIn.
    destruct (p "html" (htmlAttrs d)); auto.
    destruct (p "head" (headAttrs d)); auto.
    destruct (existsb (matches p) (elementsIn (headNodes d))); auto.
    destruct (p "body" (bodyAttrs d)); auto.
    destruct (existsb (matches p) (elementsIn (bodyNodes d))); auto.
    discriminate.
  - replace (existsb (matches p) (docElements d)) with false; auto.
    symmetry. revert E. unfold docUpdateFirst, docElements. simpl.
    rewrite existsb_app. simpl. unfold matches at 1 2 4. simpl.
    rewrite !(proj2 (updateFirst_spec p f)). unfold hasMatchIn.
    destruct (p "html" (htmlAttrs d)); [discriminate|].
    destruct (p "head" (headAttrs d)); [discriminate|].
    destruct (existsb (matches p) (elementsIn (headNodes d))); [discriminate|].
    destruct (p "body" (bodyAttrs d)); [discriminate|].
    destruct (existsb (matches p) (elementsIn (bodyNodes d))); [discriminate|].
    reflexivity.
Qed.

Lemma docNode_upd (p : Tag -> Attrs -> bool) (f : Tag -> Attrs -> Attrs)
    (d : Document) :
  updNode p f (docNode d) = docNode (docUpdate p f d).
Proof.
  unfold docUpdate, docUpdateFirst, docNode.
  rewrite updNode_Elem.
  destruct (p "html" (htmlAttrs d)); [reflexivity|].
  rewrite updForest_cons, hasMatch_Elem, updNode_Elem.
  destruct (p "head" (headAttrs d)); [reflexivity|]. simpl.
  rewrite (proj2 (updateFirst_spec p f) (headNodes d)).
  destruct (hasMatchIn p (headNodes d)); [reflexivity|].
  rewrite updForest_cons, hasMatch_Elem, updNode_Elem.
  destruct (p "body" (bodyAttrs d)); [reflexivity|]. simpl.
  rewrite (proj2 (updateFirst_spec p f) (bodyNodes d)).
  destruct (hasMatchIn p (bodyNodes d)); reflexivity.
Qed.

Lemma docElements_upd (p : Tag -> Attrs -> bool) (f : Tag -> Attrs -> Attrs)
    (d : Document) :
  docElements (docUpdate p f d) = updList p f (docElements d).
Proof.
  rewrite !docElements_docNode, <- docNode_upd. apply elements_upd.
Qed.

Lemma docUpdate_comm (p q : Tag -> Attrs -> bool)
    (f g : Tag -> Attrs -> Attrs) (d : Document) :
  (forall t a, p t (g t a) = p t a) ->
  (forall t a, q t (f t a) = q t a) ->
  (forall t a, p t a = true -> q t a = true -> f t (g t a) = g t (f t a)) ->
  docUpdate p f (docUpdate q g d) = docUpdate q g (docUpdate p f d).
Proof.
  intros Hp Hq Hc. apply docNode_inj.
  rewrite <- !docNode_upd. now apply upd_comm.
Qed.

Lemma docUpdate_absorb (p : Tag -> Attrs -> bool)
    (f g : Tag -> Attrs -> Attrs) (d : Document) :
  (forall t a, p t (g t a) = p t a) ->
  (forall t a, p t a = true -> f t (g t a) = f t a) ->
  docUpdate p f (docUpdate p g d) = docUpdate p f d.
Proof.
  intros Hp Ha. apply docNode_inj.
  rewrite <- !docNode_upd. now apply upd_absorb.
Qed.

Lemma docUpdate_fixed (p : Tag -> Attrs -> bool)
    (f : Tag -> Attrs -> Attrs) (d : Document) :
  (forall t a, docQuery p d = Some (t, a) -> f t a = a) ->
  docUpdate p f d = d.
Proof.
  intros H. apply docNode_inj. rewrite <- docNode_upd.
  apply upd_fixed. intros t a E. apply H.
  unfold docQuery. now rewrite docElements_docNode.
Qed.

(* ================================================================== *)
(** * Lemmas: images are injected once *)
(* ================================================================== *)

Section FoldOnce.

Variables (D I K : Type).
Variable op : D -> I -> D.
Variable key : I -> K.
Hypothesis key_dec : forall k k' : K, {k = k'} + {k <> k'}.
Hypothesis op_absorb : forall d i j, key i = key j -> op (op d j) i = op d i.
Hypothesis op_comm : forall d i j, key i <> key j -> op (op d j) i = op (op d i) j.

Lemma fold_absorbs (l : list I) (i : I) (d : D) :
  In (key i) (map key l) -> fold_left op l (op d i) = fold_left op l d.
Proof.
  revert d. induction l as [|j l IH]; simpl; intros d H; [contradiction|].
  destruct (key_dec (key j) (key i)) as [E|E].
  - now rewrite op_absorb.
  - destruct H as [H|H]; [congruence|].
    rewrite op_comm by exact E. now apply IH.
Qed.

Lemma fold_commutes (l : list I) (i : I) (d : D) :
  ~ In (key i) (map key l) -> fold_left op l (op d i) = op (fold_left op l d) i.
Proof.
  revert d. induction l as [|j l IH]; simpl; intros d H; auto.
  rewrite op_comm.
  - apply IH. tauto.
  - intros E. apply H. left. congruence.
Qed.

Lemma fold_once (l : list I) (d : D) :
  fold_left op l (fold_left op l d) = fold_left op l d.
Proof.
  revert d. induction l as [|i l IH]; simpl; intros d; auto.
  destruct (in_dec key_dec (key i) (map key l)) as [H|H].
  - rewrite fold_absorbs by exact H. apply IH.
  - rewrite <- fold_commutes by exact H.
    rewrite op_absorb by reflexivity. apply IH.
Qed.

End FoldOnce.

Lemma fold_left_commutes (D I : Type) (op : D -> I -> D) (h : D -> D) (l : list I) :
  (forall d i, h (op d i) = op (h d) i) ->
  forall d, h (fold_left op l d) = fold_left op l (h d).
Proof.
  intros H. induction l as [|i l IH]; simpl; intros d; auto.
  now rewrite IH, H.
Qed.

Lemma hasId_assignSrc (x u : string) (t : Tag) (a : Attrs) :
  hasId x t (assignSrc u t a) = hasId x t a.
Proof.
  unfold hasId, assignSrc. destruct (reflectsSrc t); auto.
  rewrite getAttr_setAttr_other; [reflexivity | discriminate].
Qed.

Lemma hasId_assignAttr (x k v : string) (t : Tag) (a : Attrs) :
  k <> "id" -> hasId x t (assignAttr k v t a) = hasId x t a.
Proof.
  intros H. unfold hasId, assignAttr. now rewrite getAttr_setAttr_other.
Qed.

Lemma hasId_disjoint (x y : string) (t : Tag) (a : Attrs) :
  x <> y -> hasId x t a = true -> hasId y t a = true -> False.
Proof.
  unfold hasId. intros Hne Hx Hy.
  apply andb_true_iff in Hx, Hy. destruct Hx as [_ Hx], Hy as [_ Hy].
  destruct (getAttr "id" a); [|discriminate].
  apply String.eqb_eq in Hx, Hy. congruence.
Qed.

Lemma assignSrc_assignSrc (u u' : string) (t : Tag) (a : Attrs) :
  assignSrc u t (assignSrc u' t a) = assignSrc u t a.
Proof.
  unfold assignSrc. destruct (reflectsSrc t); auto. apply setAttr_setAttr.
Qed.

Lemma injectImage_absorb (d : Document) (i j : Image) :
  img_id i = img_id j -> injectImage (injectImage d j) i = injectImage d i.
Proof.
  intros E. unfold injectImage. rewrite <- E.
  apply docUpdate_absorb.
  - intros. apply hasId_assignSrc.
  - intros. apply assignSrc_assignSrc.
Qed.

Lemma injectImage_comm (d : Document) (i j : Image) :
  img_id i <> img_id j ->
  injectImage (injectImage d j) i = injectImage (injectImage d i) j.
Proof.
  intros E. unfold injectImage. apply docUpdate_comm.
  - intros. apply hasId_assignSrc.
  - intros. apply hasId_assignSrc.
  - intros t a Hi Hj. exfalso. exact (@hasId_disjoint _ _ _ _ E Hi Hj).
Qed.

Lemma injectImages_once (images : list Image) (d : Document) :
  fold_left injectImage images (fold_left injectImage images d)
  = fold_left injectImage images d.
Proof.
  apply (fold_once injectImage img_id string_dec).
  - intros. now apply injectImage_absorb.
  - intros. now apply injectImage_comm.
Qed.

Lemma isIconLink_tag (t : Tag) (a : Attrs) :
  isIconLink t a = true -> localName t = "link".
Proof.
  unfold isIconLink. intros H. apply andb_true_iff in H.
  now apply String.eqb_eq.
Qed.

Lemma hasId_assignHref (x u : string) (t : Tag) (a : Attrs) :
  hasId x t (assignHref u t a) = hasId x t a.
Proof.
  unfold hasId, assignHref. destruct (reflectsHref t); auto.
  rewrite getAttr_setAttr_other; [reflexivity | discriminate].
Qed.

Lemma isIconLink_assignHref (u : string) (t : Tag) (a : Attrs) :
  isIconLink t (assignHref u t a) = isIconLink t a.
Proof.
  unfold isIconLink, assignHref. destruct (reflectsHref t); auto.
  rewrite getAttr_setAttr_other; [reflexivity | discriminate].
Qed.

Lemma assignHref_assignHref (u u' : string) (t : Tag) (a : Attrs) :
  assignHref u t (assignHref u' t a) = assignHref u t a.
Proof.
  unfold assignHref. destruct (reflectsHref t); auto. apply setAttr_setAttr.
Qed.

Lemma reflectsSrc_not_link (t : Tag) : localName t = "link" -> reflectsSrc t = false.
Proof.
  intros E. unfold reflectsSrc. rewrite E. apply andb_false_r.
Qed.

Lemma isIconLink_assignSrc (u : string) (t : Tag) (a : Attrs) :
  isIconLink t (assignSrc u t a) = isIconLink t a.
Proof.
  unfold isIconLink, assignSrc. destruct (reflectsSrc t); auto.
  rewrite getAttr_setAttr_other; [reflexivity | discriminate].
Qed.

Lemma isIconLink_assignAttr (k v : string) (t : Tag) (a : Attrs) :
  k <> "rel" -> isIconLink t (assignAttr k v t a) = isIconLink t a.
Proof.
  intros H. unfold isIconLink, assignAttr. now rewrite getAttr_setAttr_other.
Qed.

Lemma assignSrc_link (u : string) (t : Tag) (a : Attrs) :
  isIconLink t a = true -> assignSrc u t a = a.
Proof.
  intros H. apply isIconLink_tag in H. unfold assignSrc.
  now rewrite reflectsSrc_not_link.
Qed.

Lemma relinkFavicon_injectImage (fav : option Favicon) (d : Document) (i : Image) :
  relinkFavicon fav (injectImage d i) = injectImage (relinkFavicon fav d) i.
Proof.
  destruct fav as [fv|]; simpl; auto.
  unfold injectImage. apply docUpdate_comm.
  - intros. apply isIconLink_assignSrc.
  - intros. apply hasId_assignHref.
  - intros t a Hl _.
    rewrite (@assignSrc_link _ _ _ Hl). symmetry. apply assignSrc_link.
    now rewrite isIconLink_assignHref.
Qed.

Lemma relinkFavicon_once (fav : option Favicon) (d : Document) :
  relinkFavicon fav (relinkFavicon fav d) = relinkFavicon fav d.
Proof.
  destruct fav as [fv|]; simpl; auto.
  apply docUpdate_absorb.
  - intros. apply isIconLink_assignHref.
  - intros. apply assignHref_assignHref.
Qed.

(** Favicon and images together are injected once. *)
Lemma inject_once (images : list Image) (fav : option Favicon) (d : Document) :
  relinkFavicon fav
    (fold_left injectImage images
       (relinkFavicon fav (fold_left injectImage images d)))
  = relinkFavicon fav (fold_left injectImage images d).
Proof.
  rewrite <- (fold_left_commutes injectImage (relinkFavicon fav) images
                (relinkFavicon_injectImage fav)).
  now rewrite relinkFavicon_once, injectImages_once.
Qed.

(* ================================================================== *)
(** * Lemmas: the style block *)
(* ================================================================== *)

Lemma updForest_app (p : Tag -> Attrs -> bool) (f : Tag -> Attrs -> Attrs)
    (l r : list Node) :
  updForest p f (l ++ r)
  = if hasMatchIn p l then updForest p f l ++ r else l ++ updForest p f r.
Proof.
  induction l as [|n l IH]; simpl; auto.
  rewrite updForest_cons, hasMatchIn_cons.
  destruct (hasMatch p n) eqn:E; simpl.
  - now rewrite updForest_cons, E.
  - rewrite IH, updForest_cons, E. destruct (hasMatchIn p l); reflexivity.
Qed.

Lemma hasMatchIn_single (p : Tag -> Attrs -> bool) (n : Node) :
  hasMatchIn p [n] = hasMatch p n.
Proof. rewrite hasMatchIn_cons. apply orb_false_r. Qed.

Lemma docUpdate_appendToHead (p : Tag -> Attrs -> bool)
    (f : Tag -> Attrs -> Attrs) (n : Node) (d : Document) :
  hasMatch p n = false ->
  docUpdate p f (appendToHead n d) = appendToHead n (docUpdate p f d).
Proof.
  intros H. unfold docUpdate, docUpdateFirst, appendToHead. simpl.
  destruct (p "html" (htmlAttrs d)); auto.
  destruct (p "head" (headAttrs d)); auto.
  rewrite !(proj2 (updateFirst_spec p f)), hasMatchIn_app, hasMatchIn_single, H,
    orb_false_r.
  destruct (hasMatchIn p (headNodes d)) eqn:E; simpl.
  - now rewrite updForest_app, E.
  - destruct (p "body" (bodyAttrs d)); auto.
    destruct (hasMatchIn p (bodyNodes d)); auto.
Qed.

Lemma textNodes_no_match (p : Tag -> Attrs -> bool) (s : string) :
  hasMatchIn p (textNodes s) = false.
Proof. unfold textNodes. destruct (isEmptyString s); reflexivity. Qed.

Lemma styleElement_no_id (x css : string) :
  hasMatch (hasId x) (styleElement css) = false.
Proof.
  unfold styleElement. rewrite hasMatch_Elem, textNodes_no_match.
  unfold hasId. simpl. now rewrite andb_false_r.
Qed.

Lemma styleElement_no_link (css : string) :
  hasMatch isIconLink (styleElement css) = false.
Proof.
  unfold styleElement. now rewrite hasMatch_Elem, textNodes_no_match.
Qed.

Lemma styleElement_no_meta (name css : string) :
  hasMatch (isMetaNamed name) (styleElement css) = false.
Proof.
  unfold styleElement. now rewrite hasMatch_Elem, textNodes_no_match.
Qed.

Lemma prune_styleFree :
  (forall n, hasMatchIn styleSel (pruneStyles n) = false)
  /\ (forall l, hasMatchIn styleSel (flat_map pruneStyles l) = false).
Proof.
  apply Node_forest_ind; try reflexivity.
  - intros t a cs IH. simpl. destruct (isStyleTag t) eqn:E; [reflexivity|].
    rewrite hasMatchIn_single, hasMatch_Elem, IH. unfold styleSel.
    unfold isStyleTag in E. now rewrite E.
  - intros n l IHn IHl. simpl. now rewrite hasMatchIn_app, IHn, IHl.
Qed.

Lemma prune_fixed :
  (forall n, hasMatch styleSel n = false -> pruneStyles n = [n])
  /\ (forall l, hasMatchIn styleSel l = false -> flat_map pruneStyles l = l).
Proof.
  apply Node_forest_ind; try reflexivity.
  - intros t a cs IH H. rewrite hasMatch_Elem in H.
    apply orb_false_iff in H. destruct H as [Ht Hcs]. simpl.
    unfold styleSel in Ht. unfold isStyleTag. rewrite Ht. now rewrite IH.
  - intros n l IHn IHl H. rewrite hasMatchIn_cons in H.
    apply orb_false_iff in H. destruct H as [Hn Hl]. simpl.
    now rewrite IHn, IHl.
Qed.

Lemma takeStyle_none :
  (forall n, hasMatch styleSel n = false -> takeStyle n = None)
  /\ (forall l, hasMatchIn styleSel l = false -> takeFirst takeStyle l = None).
Proof.
  apply Node_forest_ind; try reflexivity.
  - intros t a cs IH H. rewrite hasMatch_Elem in H.
    apply orb_false_iff in H. destruct H as [Ht Hcs]. simpl.
    unfold styleSel in Ht. unfold isStyleTag. rewrite Ht. now rewrite IH.
  - intros n l IHn IHl H. rewrite hasMatchIn_cons in H.
    apply orb_false_iff in H. destruct H as [Hn Hl]. simpl.
    now rewrite IHn, IHl.
Qed.

Lemma takeFirst_app_none (A B : Type) (g : A -> option (B * list A)) (l r : list A) :
  takeFirst g l = None ->
  takeFirst g (l ++ r)
  = match takeFirst g r with
    | Some (b, r') => Some (b, l ++ r')
    | None => None
    end.
Proof.
  induction l as [|x l IH]; simpl; intros H.
  - destruct (takeFirst g r) as [[b r']|]; auto.
  - destruct (g x) as [[b repl]|]; [discriminate|].
    destruct (takeFirst g l) as [[b l']|]; [discriminate|].
    rewrite IH by reflexivity.
    destruct (takeFirst g r) as [[b r']|]; auto.
Qed.

Lemma concat_textNodes (s : string) :
  String.concat "" (map textContent (textNodes s)) = s.
Proof. destruct s; reflexivity. Qed.

Lemma headStyleFree_removeHeadStyles (d : Document) :
  headStyleFree (removeHeadStyles d) = true.
Proof.
  unfold headStyleFree, removeHeadStyles. simpl.
  now rewrite (proj2 prune_styleFree).
Qed.

Lemma removeHeadStyles_fixed (d : Document) :
  headStyleFree d = true -> removeHeadStyles d = d.
Proof.
  unfold headStyleFree, removeHeadStyles. intros H.
  apply negb_true_iff in H. rewrite (proj2 prune_fixed) by exact H.
  now destruct d.
Qed.

Lemma removeHeadStyles_appended (css : string) (d : Document) :
  headStyleFree d = true ->
  removeHeadStyles (appendToHead (styleElement css) d) = d.
Proof.
  unfold headStyleFree, removeHeadStyles, appendToHead. simpl. intros H.
  apply negb_true_iff in H.
  rewrite flat_map_app, (proj2 prune_fixed) by exact H. simpl.
  rewrite app_nil_r. now destruct d.
Qed.

Lemma separateStyle_appended (css : string) (d : Document) :
  headStyleFree d = true ->
  separateStyle (appendToHead (styleElement css) d) = (css, d).
Proof.
  unfold headStyleFree, separateStyle, appendToHead. simpl. intros H.
  apply negb_true_iff in H.
  rewrite takeFirst_app_none by (now apply takeStyle_none). simpl.
  rewrite concat_textNodes, app_nil_r. now destruct d.
Qed.

Lemma headNodes_docUpdate (p : Tag -> Attrs -> bool)
    (f : Tag -> Attrs -> Attrs) (d : Document) :
  headNodes (docUpdate p f d) = headNodes d
  \/ headNodes (docUpdate p f d) = updForest p f (headNodes d).
Proof.
  unfold docUpdate, docUpdateFirst.
  destruct (p "html" (htmlAttrs d)); auto.
  destruct (p "head" (headAttrs d)); auto.
  unfold updForest.
  destruct (updateFirstIn p f (headNodes d)); auto.
  destruct (p "body" (bodyAttrs d)); auto.
  destruct (updateFirstIn p f (bodyNodes d)); auto.
Qed.

Lemma headStyleFree_docUpdate (p : Tag -> Attrs -> bool)
    (f : Tag -> Attrs -> Attrs) (d : Document) :
  headStyleFree (docUpdate p f d) = headStyleFree d.
Proof.
  unfold headStyleFree.
  destruct (headNodes_docUpdate p f d) as [E|E]; rewrite E; auto.
  now rewrite hasMatchIn_updForest.
Qed.

Lemma headStyleFree_injectImages (images : list Image) (d : Document) :
  headStyleFree (fold_left injectImage images d) = headStyleFree d.
Proof.
  revert d. induction images as [|i l IH]; simpl; intros d; auto.
  rewrite IH. apply headStyleFree_docUpdate.
Qed.

Lemma headStyleFree_relinkFavicon (fav : option Favicon) (d : Document) :
  headStyleFree (relinkFavicon fav d) = headStyleFree d.
Proof. destruct fav; simpl; auto. apply headStyleFree_docUpdate. Qed.

Lemma injectImage_appendStyle (css : string) (d : Document) (i : Image) :
  appendToHead (styleElement css) (injectImage d i)
  = injectImage (appendToHead (styleElement css) d) i.
Proof.
  unfold injectImage. symmetry. apply docUpdate_appendToHead.
  apply styleElement_no_id.
Qed.

Lemma relinkFavicon_appendStyle (fav : option Favicon) (css : string) (d : Document) :
  relinkFavicon fav (appendToHead (styleElement css) d)
  = appendToHead (styleElement css) (relinkFavicon fav d).
Proof.
  destruct fav; simpl; auto. apply docUpdate_appendToHead.
  apply styleElement_no_link.
Qed.

(** The preview is the style block appended to a head without styles. *)
Lemma previewDocument_shape (images : list Image) (fav : option Favicon)
    (css : string) (d : Document) :
  previewDocument images fav css d
  = appendToHead (styleElement css)
      (relinkFavicon fav (fold_left injectImage images (removeHeadStyles d))).
Proof.
  unfold previewDocument.
  rewrite <- (fold_left_commutes injectImage (appendToHead (styleElement css))
                images (injectImage_appendStyle css)).
  apply relinkFavicon_appendStyle.
Qed.

Lemma previewDocument_once (images : list Image) (fav : option Favicon)
    (css : string) (d : Document) :
  previewDocument images fav css (previewDocument images fav css d)
  = previewDocument images fav css d.
Proof.
  rewrite (previewDocument_shape images fav css d) at 1.
  unfold previewDocument at 1.
  rewrite removeHeadStyles_appended.
  - rewrite <- previewDocument_shape. unfold previewDocument at 1.
    unfold previewDocument. apply inject_once.
  - now rewrite headStyleFree_relinkFavicon, headStyleFree_injectImages,
      headStyleFree_removeHeadStyles.
Qed.

(* ================================================================== *)
(** * Lemmas: what a query finds after an update *)
(* ================================================================== *)

Lemma matches_pair (p : Tag -> Attrs -> bool) (t : Tag) (a : Attrs) :
  matches p (t, a) = p t a.
Proof. reflexivity. Qed.

Section QueryAfterUpdate.

Variables p q : Tag -> Attrs -> bool.
Variable g : Tag -> Attrs -> Attrs.
Hypothesis p_stable : forall t a, p t (g t a) = p t a.

Lemma find_updList (L : list (Tag * Attrs)) (t : Tag) (a : Attrs) :
  find (matches p) L = Some (t, a) ->
  exists a', find (matches p) (updList q g L) = Some (t, a')
             /\ (a' = a \/ a' = g t a).
Proof.
  induction L as [|[t0 a0] r IH]; simpl; [discriminate|].
  rewrite matches_pair.
  destruct (q t0 a0); simpl; rewrite matches_pair, ?p_stable.
  - destruct (p t0 a0).
    + intros E. inversion E; subst. eauto.
    + intros E. eauto.
  - destruct (p t0 a0).
    + intros E. inversion E; subst. eauto.
    + exact IH.
Qed.

Lemma find_updList_disjoint (L : list (Tag * Attrs)) :
  (forall t a, p t a = true -> q t a = false) ->
  find (matches p) (updList q g L) = find (matches p) L.
Proof.
  intros Hd. induction L as [|[t0 a0] r IH]; simpl; auto.
  rewrite matches_pair.
  destruct (p t0 a0) eqn:Hp.
  - rewrite (Hd _ _ Hp). simpl. now rewrite matches_pair, Hp.
  - destruct (q t0 a0); simpl; rewrite matches_pair, ?p_stable, Hp; auto.
Qed.

End QueryAfterUpdate.

Lemma find_updList_same (p : Tag -> Attrs -> bool) (f : Tag -> Attrs -> Attrs)
    (L : list (Tag * Attrs)) (t : Tag) (a : Attrs) :
  (forall t a, p t (f t a) = p t a) ->
  find (matches p) L = Some (t, a) ->
  find (matches p) (updList p f L) = Some (t, f t a).
Proof.
  intros Hs. induction L as [|[t0 a0] r IH]; simpl; [discriminate|].
  rewrite matches_pair.
  destruct (p t0 a0) eqn:Hp; simpl; rewrite matches_pair.
  - rewrite Hs, Hp. intros E. now inversion E.
  - now rewrite Hp.
Qed.

Lemma dropFirst_app (p : Tag -> Attrs -> bool) (L1 L2 : list (Tag * Attrs)) :
  dropFirst p (L1 ++ L2)
  = if existsb (matches p) L1 then dropFirst p L1 ++ L2 else L1 ++ dropFirst p L2.
Proof.
  induction L1 as [|[t a] r IH]; simpl; auto.
  rewrite matches_pair. destruct (p t a); simpl; auto.
  rewrite IH. destruct (existsb (matches p) r); auto.
Qed.

Lemma find_dropFirst (p q : Tag -> Attrs -> bool) (L : list (Tag * Attrs)) :
  (forall t a, p t a = true -> q t a = false) ->
  find (matches p) (dropFirst q L) = find (matches p) L.
Proof.
  intros Hd. induction L as [|[t a] r IH]; simpl; auto.
  rewrite matches_pair.
  destruct (p t a) eqn:Hp.
  - rewrite (Hd _ _ Hp). simpl. now rewrite matches_pair, Hp.
  - destruct (q t a); simpl; auto. now rewrite matches_pair, Hp.
Qed.

Lemma find_filter (p q : Tag -> Attrs -> bool) (L : list (Tag * Attrs)) :
  (forall t a, p t a = true -> q t a = false) ->
  find (matches p) (filter (fun e => negb (matches q e)) L) = find (matches p) L.
Proof.
  intros Hd. induction L as [|[t a] r IH]; simpl; auto.
  rewrite !matches_pair.
  destruct (p t a) eqn:Hp.
  - rewrite (Hd _ _ Hp). simpl. now rewrite matches_pair, Hp.
  - destruct (q t a); simpl; auto. now rewrite matches_pair, Hp.
Qed.

(* ================================================================== *)
(** * Lemmas: well-formed trees *)
(* ================================================================== *)

Lemma charData_elements (l : list Node) :
  forallb isCharData l = true -> elementsIn l = [].
Proof.
  induction l as [|n l IH]; simpl; auto.
  intros H. apply andb_true_iff in H. destruct H as [Hn Hl].
  unfold elementsIn in *. simpl. rewrite IH by exact Hl.
  destruct n; simpl in *; [discriminate | reflexivity | reflexivity].
Qed.

Lemma elementsIn_cons (n : Node) (l : list Node) :
  elementsIn (n :: l) = elementsOf n ++ elementsIn l.
Proof. reflexivity. Qed.

Lemma elementsIn_app (l r : list Node) :
  elementsIn (l ++ r) = elementsIn l ++ elementsIn r.
Proof. unfold elementsIn. apply flat_map_app. Qed.

Lemma elementsIn_single (n : Node) : elementsIn [n] = elementsOf n.
Proof. unfold elementsIn. simpl. apply app_nil_r. Qed.

Lemma elements_prune :
  (forall n, wfNode n = true ->
             elementsIn (pruneStyles n)
             = filter (fun e => negb (matches styleSel e)) (elementsOf n))
  /\ (forall l, forallb wfNode l = true ->
                elementsIn (flat_map pruneStyles l)
                = filter (fun e => negb (matches styleSel e)) (elementsIn l)).
Proof.
  apply Node_forest_ind; try reflexivity.
  - intros t a cs IH H. simpl in *. rewrite matches_pair.
    unfold styleSel at 1. unfold isStyleTag in *.
    destruct (String.eqb (localName t) "style"); simpl.
    + fold (elementsIn cs). now rewrite (charData_elements cs H).
    + rewrite app_nil_r. f_equal. now apply IH.
  - intros n l IHn IHl H. simpl in H. apply andb_true_iff in H.
    destruct H as [Hn Hl].
    change (flat_map pruneStyles (n :: l))
      with (pruneStyles n ++ flat_map pruneStyles l).
    rewrite elementsIn_app, elementsIn_cons, filter_app.
    now rewrite IHn, IHl.
Qed.

Lemma takeStyle_some :
  (forall n, takeStyle n = None -> hasMatch styleSel n = false)
  /\ (forall l, takeFirst takeStyle l = None -> hasMatchIn styleSel l = false).
Proof.
  apply Node_forest_ind; try reflexivity.
  - intros t a cs IH. simpl. rewrite hasMatch_Elem. unfold styleSel, isStyleTag.
    destruct (String.eqb (localName t) "style"); [discriminate|]. simpl.
    destruct (takeFirst takeStyle cs) as [[s cs']|]; [discriminate|].
    intros _. now apply IH.
  - intros n l IHn IHl. simpl. rewrite hasMatchIn_cons.
    destruct (takeStyle n) as [[s repl]|]; [discriminate|].
    destruct (takeFirst takeStyle l) as [[s l']|]; [discriminate|].
    intros _. now rewrite IHn, IHl.
Qed.

Lemma elements_takeStyle :
  (forall n s repl, wfNode n = true -> takeStyle n = Some (s, repl) ->
                    elementsIn repl = dropFirst styleSel (elementsOf n)
                    /\ forallb wfNode repl = true)
  /\ (forall l s l', forallb wfNode l = true ->
                     takeFirst takeStyle l = Some (s, l') ->
                     elementsIn l' = dropFirst styleSel (elementsIn l)
                     /\ forallb wfNode l' = true).
Proof.
  apply Node_forest_ind; try discriminate.
  - intros t a cs IH s repl Hwf.
    change (elementsOf (Elem t a cs)) with ((t, a) :: elementsIn cs).
    cbn [wfNode takeStyle dropFirst] in *.
    unfold styleSel at 1. unfold isStyleTag in *.
    destruct (String.eqb (localName t) "style") eqn:Et.
    + intros E. inversion E; subst. split; [|reflexivity].
      now rewrite (charData_elements cs Hwf).
    + destruct (takeFirst takeStyle cs) as [[s' cs']|] eqn:Ecs; [|discriminate].
      intros E. inversion E; subst.
      destruct (IH _ _ Hwf eq_refl) as [IH1 IH2].
      rewrite elementsIn_single.
      change (elementsOf (Elem t a cs')) with ((t, a) :: elementsIn cs').
      cbn [forallb wfNode]. unfold isStyleTag. rewrite Et, IH1, IH2.
      split; reflexivity.
  - intros n l IHn IHl s l' Hwf.
    cbn [forallb takeFirst] in *.
    apply andb_true_iff in Hwf. destruct Hwf as [Hn Hl].
    rewrite elementsIn_cons, dropFirst_app. fold (hasMatch styleSel n).
    destruct (takeStyle n) as [[s0 repl]|] eqn:En.
    + intros E. inversion E; subst.
      destruct (IHn _ _ Hn eq_refl) as [IH1 IH2].
      destruct (hasMatch styleSel n) eqn:Hm.
      * rewrite elementsIn_app, IH1. split; auto.
        rewrite forallb_app, IH2. exact Hl.
      * rewrite (proj1 takeStyle_none n Hm) in En. discriminate.
    + rewrite (proj1 takeStyle_some n En).
      destruct (takeFirst takeStyle l) as [[s0 l0]|] eqn:El; [|discriminate].
      intros E. inversion E; subst.
      destruct (IHl _ _ Hl eq_refl) as [IH1 IH2].
      rewrite elementsIn_cons, IH1. split; auto.
      cbn [forallb]. now rewrite Hn, IH2.
Qed.

Lemma charData_updForest (p : Tag -> Attrs -> bool)
    (f : Tag -> Attrs -> Attrs) (l : list Node) :
  forallb isCharData (updForest p f l) = forallb isCharData l.
Proof.
  induction l as [|n l IH]; simpl; auto.
  rewrite updForest_cons. destruct (hasMatch p n); simpl.
  - f_equal. destruct n; auto. rewrite updNode_Elem.
    destruct (p tag attrs); reflexivity.
  - now rewrite IH.
Qed.

Lemma wf_upd (p : Tag -> Attrs -> bool) (f : Tag -> Attrs -> Attrs) :
  (forall n, wfNode (updNode p f n) = wfNode n)
  /\ (forall l, forallb wfNode (updForest p f l) = forallb wfNode l).
Proof.
  apply Node_forest_ind; try reflexivity.
  - intros t a cs IH. rewrite updNode_Elem.
    destruct (p t a); simpl; auto.
    destruct (isStyleTag t); auto. apply charData_updForest.
  - intros n l IHn IHl. rewrite updForest_cons.
    destruct (hasMatch p n); simpl.
    + now rewrite IHn.
    + now rewrite IHl.
Qed.

(* ================================================================== *)
(** * Lemmas: queries over the document *)
(* ================================================================== *)

Lemma docQuery_congr (p : Tag -> Attrs -> bool) (d d' : Document) :
  htmlAttrs d' = htmlAttrs d -> headAttrs d' = headAttrs d ->
  bodyAttrs d' = bodyAttrs d ->
  find (matches p) (elementsIn (headNodes d'))
  = find (matches p) (elementsIn (headNodes d)) ->
  find (matches p) (elementsIn (bodyNodes d'))
  = find (matches p) (elementsIn (bodyNodes d)) ->
  docQuery p d' = docQuery p d.
Proof.
  intros E1 E2 E3 Eh Eb. unfold docQuery, docElements.
  rewrite E1, E2, E3. cbn [find]. rewrite !find_app. cbn [find].
  now rewrite Eh, Eb.
Qed.

Lemma docQuery_exists (p : Tag -> Attrs -> bool) (d : Document) :
  existsb (matches p) (docElements d)
  = match docQuery p d with Some _ => true | None => false end.
Proof. apply existsb_find. Qed.

Lemma docFirstHas_exists (p : Tag -> Attrs -> bool) (k v : string) (d : Document) :
  docFirstHas p k v d -> existsb (matches p) (docElements d) = true.
Proof.
  intros (t & a & E & _). now rewrite docQuery_exists, E.
Qed.

Lemma docFirstHas_congr (p : Tag -> Attrs -> bool) (k v : string)
    (d d' : Document) :
  docQuery p d' = docQuery p d -> docFirstHas p k v d -> docFirstHas p k v d'.
Proof. intros E (t & a & H). exists t, a. now rewrite E. Qed.

Section QueryFacts.

Variable p : Tag -> Attrs -> bool.

(** [p] never selects a [style] element. *)
Hypothesis p_not_style : forall t a, p t a = true -> styleSel t a = false.

Lemma docQuery_removeHeadStyles (d : Document) :
  wfDocument d = true -> docQuery p (removeHeadStyles d) = docQuery p d.
Proof.
  intros H. apply andb_true_iff in H. destruct H as [Hh Hb].
  apply docQuery_congr; try reflexivity.
  cbn [removeHeadStyles headNodes].
  rewrite (proj2 elements_prune _ Hh). now apply find_filter.
Qed.

Lemma separateStyle_query (d : Document) :
  wfDocument d = true ->
  docQuery p (snd (separateStyle d)) = docQuery p d
  /\ wfDocument (snd (separateStyle d)) = true.
Proof.
  intros H. pose proof H as H0. apply andb_true_iff in H.
  destruct H as [Hh Hb]. unfold separateStyle.
  destruct (takeFirst takeStyle (headNodes d)) as [[s h]|] eqn:Eh.
  - destruct (proj2 elements_takeStyle _ _ _ Hh Eh) as [E W]. cbn [snd]. split.
    + apply docQuery_congr; try reflexivity.
      cbn [headNodes]. rewrite E. now apply find_dropFirst.
    + unfold wfDocument. cbn [headNodes bodyNodes]. now rewrite W, Hb.
  - destruct (takeFirst takeStyle (bodyNodes d)) as [[s b]|] eqn:Eb.
    + destruct (proj2 elements_takeStyle _ _ _ Hb Eb) as [E W]. cbn [snd]. split.
      * apply docQuery_congr; try reflexivity.
        cbn [bodyNodes]. rewrite E. now apply find_dropFirst.
      * unfold wfDocument. cbn [headNodes bodyNodes]. now rewrite W, Hh.
    + cbn [snd]. auto.
Qed.

End QueryFacts.

Lemma docQuery_appendToHead (p : Tag -> Attrs -> bool) (n : Node) (d : Document) :
  hasMatch p n = false -> docQuery p (appendToHead n d) = docQuery p d.
Proof.
  intros H. apply docQuery_congr; try reflexivity.
  cbn [appendToHead headNodes]. rewrite elementsIn_app, elementsIn_single, find_app.
  unfold hasMatch in H. rewrite existsb_find in H.
  destruct (find (matches p) (elementsIn (headNodes d))); auto.
  destruct (find (matches p) (elementsOf n)); [discriminate | reflexivity].
Qed.

Lemma docQuery_docUpdate_disjoint (p q : Tag -> Attrs -> bool)
    (g : Tag -> Attrs -> Attrs) (d : Document) :
  (forall t a, p t (g t a) = p t a) ->
  (forall t a, p t a = true -> q t a = false) ->
  docQuery p (docUpdate q g d) = docQuery p d.
Proof.
  intros Hs Hd. unfold docQuery. rewrite docElements_upd.
  now apply find_updList_disjoint.
Qed.

Lemma docFirstHas_docUpdate (p q : Tag -> Attrs -> bool)
    (g : Tag -> Attrs -> Attrs) (k v : string) (d : Document) :
  (forall t a, p t (g t a) = p t a) ->
  (forall t a, getAttr k a = Some v -> getAttr k (g t a) = Some v) ->
  docFirstHas p k v d -> docFirstHas p k v (docUpdate q g d).
Proof.
  intros Hs Hk (t & a & E & A). unfold docFirstHas, docQuery in *.
  rewrite docElements_upd.
  destruct (find_updList p q g Hs _ E) as (a' & E' & [->| ->]).
  - eauto.
  - exists t, (g t a). auto.
Qed.

Lemma docFirstHas_docUpdate_same (p : Tag -> Attrs -> bool) (k v : string)
    (d : Document) :
  (forall t a, p t (assignAttr k v t a) = p t a) ->
  existsb (matches p) (docElements d) = true ->
  docFirstHas p k v (docUpdate p (assignAttr k v) d).
Proof.
  intros Hs Hex. rewrite docQuery_exists in Hex.
  destruct (docQuery p d) as [[t a]|] eqn:E; [|discriminate].
  exists t, (assignAttr k v t a). split.
  - unfold docQuery in *. rewrite docElements_upd.
    now apply find_updList_same.
  - apply getAttr_setAttr_same.
Qed.

Lemma docFirstHas_appended (p : Tag -> Attrs -> bool) (k v : string) (t : Tag)
    (a : Attrs) (d : Document) :
  existsb (matches p) (docElements d) = false ->
  p t a = true -> getAttr k a = Some v ->
  docFirstHas p k v (appendToHead (Elem t a []) d).
Proof.
  intros Hex Hp Hk. exists t, a. split; auto.
  unfold docElements in Hex. cbn [existsb] in Hex.
  rewrite existsb_app in Hex. cbn [existsb] in Hex.
  repeat (apply orb_false_iff in Hex; destruct Hex as [? Hex]).
  rewrite existsb_find in *.
  unfold docQuery, docElements. cbn [appendToHead htmlAttrs headAttrs headNodes
    bodyAttrs bodyNodes find].
  rewrite !matches_pair in *.
  rewrite find_app, elementsIn_app, find_app, elementsIn_single.
  destruct (p "html" (htmlAttrs d)); [discriminate|].
  destruct (p "head" (headAttrs d)); [discriminate|].
  destruct (find (matches p) (elementsIn (headNodes d))); [discriminate|].
  cbn [elementsOf flat_map find]. now rewrite matches_pair, Hp.
Qed.

Lemma wfDocument_docUpdate (p : Tag -> Attrs -> bool)
    (f : Tag -> Attrs -> Attrs) (d : Document) :
  wfDocument (docUpdate p f d) = wfDocument d.
Proof.
  unfold docUpdate, docUpdateFirst, wfDocument.
  destruct (p "html" (htmlAttrs d)); auto.
  destruct (p "head" (headAttrs d)); auto.
  destruct (updateFirstIn p f (headNodes d)) as [h|] eqn:Eh.
  - cbn [headNodes bodyNodes].
    replace h with (updForest p f (headNodes d))
      by (unfold updForest; now rewrite Eh).
    now rewrite (proj2 (wf_upd p f)).
  - destruct (p "body" (bodyAttrs d)); auto.
    destruct (updateFirstIn p f (bodyNodes d)) as [b|] eqn:Eb; auto.
    cbn [headNodes bodyNodes].
    replace b with (updForest p f (bodyNodes d))
      by (unfold updForest; now rewrite Eb).
    now rewrite (proj2 (wf_upd p f)).
Qed.

Lemma wfDocument_appendToHead (n : Node) (d : Document) :
  wfDocument d = true -> wfNode n = true -> wfDocument (appendToHead n d) = true.
Proof.
  unfold wfDocument. cbn [appendToHead headNodes bodyNodes]. intros H Hn.
  apply andb_true_iff in H. destruct H as [Hh Hb].
  rewrite forallb_app, Hh, Hb. cbn [forallb]. now rewrite Hn.
Qed.

(* ================================================================== *)
(** * Lemmas: meta and favicon injection *)
(* ================================================================== *)

Lemma isMetaNamed_assignAttr (name k v : string) (t : Tag) (a : Attrs) :
  k <> "name" -> isMetaNamed name t (assignAttr k v t a) = isMetaNamed name t a.
Proof.
  intros H. unfold isMetaNamed, assignAttr. now rewrite getAttr_setAttr_other.
Qed.

Lemma isMetaNamed_assignSrc (name u : string) (t : Tag) (a : Attrs) :
  isMetaNamed name t (assignSrc u t a) = isMetaNamed name t a.
Proof.
  unfold isMetaNamed, assignSrc. destruct (reflectsSrc t); auto.
  rewrite getAttr_setAttr_other; [reflexivity | discriminate].
Qed.

Lemma isMetaNamed_assignHref (name u : string) (t : Tag) (a : Attrs) :
  isMetaNamed name t (assignHref u t a) = isMetaNamed name t a.
Proof.
  unfold isMetaNamed, assignHref. destruct (reflectsHref t); auto.
  rewrite getAttr_setAttr_other; [reflexivity | discriminate].
Qed.

Lemma isMetaNamed_not_style (name : string) (t : Tag) (a : Attrs) :
  isMetaNamed name t a = true -> styleSel t a = false.
Proof.
  unfold isMetaNamed, styleSel. intros H. apply andb_true_iff in H.
  destruct H as [H _]. apply String.eqb_eq in H. now rewrite H.
Qed.

Lemma isIconLink_not_style (t : Tag) (a : Attrs) :
  isIconLink t a = true -> styleSel t a = false.
Proof. intros H. apply isIconLink_tag in H. unfold styleSel. now rewrite H. Qed.

Lemma isMetaNamed_not_link (name : string) (t : Tag) (a : Attrs) :
  isMetaNamed name t a = true -> isIconLink t a = false.
Proof.
  unfold isMetaNamed, isIconLink. intros H. apply andb_true_iff in H.
  destruct H as [H _]. apply String.eqb_eq in H. now rewrite H.
Qed.

Lemma isMetaNamed_disjoint (name name' : string) (t : Tag) (a : Attrs) :
  name <> name' -> isMetaNamed name t a = true -> isMetaNamed name' t a = false.
Proof.
  unfold isMetaNamed. intros Hne H. apply andb_true_iff in H.
  destruct H as [_ H]. destruct (getAttr "name" a); [|discriminate].
  apply String.eqb_eq in H. subst. apply andb_false_iff. right.
  now apply String.eqb_neq.
Qed.

Lemma isIconLink_not_meta (name : string) (t : Tag) (a : Attrs) :
  isIconLink t a = true -> isMetaNamed name t a = false.
Proof. intros H. apply isIconLink_tag in H. unfold isMetaNamed. now rewrite H. Qed.

Lemma metaElement_matches (name content : string) :
  isMetaNamed name "meta" [("name", name); ("content", content)] = true.
Proof. unfold isMetaNamed. simpl. now rewrite String.eqb_refl. Qed.

Lemma injectMeta_establishes (name c : string) (d : Document) :
  c <> "" -> docFirstHas (isMetaNamed name) "content" c (injectMeta name c d).
Proof.
  intros Hc. unfold injectMeta.
  apply isEmptyString_false in Hc. rewrite Hc.
  rewrite docUpdateFirst_spec.
  destruct (existsb (matches (isMetaNamed name)) (docElements d)) eqn:E.
  - apply docFirstHas_docUpdate_same; auto.
    intros. apply isMetaNamed_assignAttr. discriminate.
  - apply docFirstHas_appended; auto. apply metaElement_matches.
Qed.

Lemma injectMeta_fixed (name c : string) (d : Document) :
  (c <> "" -> docFirstHas (isMetaNamed name) "content" c d) ->
  injectMeta name c d = d.
Proof.
  intros H. unfold injectMeta.
  destruct (isEmptyString c) eqn:Hc; auto.
  apply isEmptyString_false in Hc. specialize (H Hc).
  rewrite docUpdateFirst_spec, (docFirstHas_exists H).
  apply docUpdate_fixed. intros t a E.
  destruct H as (t' & a' & E' & A). rewrite E in E'. inversion E'; subst.
  now apply setAttr_same.
Qed.

Lemma injectMeta_preserves (p : Tag -> Attrs -> bool) (k v name c : string)
    (d : Document) :
  (forall t a, p t a = true -> isMetaNamed name t a = false) ->
  (forall t a, p t (assignAttr "content" c t a) = p t a) ->
  docFirstHas p k v d -> docFirstHas p k v (injectMeta name c d).
Proof.
  intros Hd Hs H. unfold injectMeta.
  destruct (isEmptyString c); auto.
  rewrite docUpdateFirst_spec.
  destruct (existsb (matches (isMetaNamed name)) (docElements d)).
  - eapply docFirstHas_congr; [|exact H].
    now apply docQuery_docUpdate_disjoint.
  - eapply docFirstHas_congr; [|exact H].
    apply docQuery_appendToHead. rewrite hasMatch_Elem. cbn.
    rewrite orb_false_r.
    destruct (p "meta" [("name", name); ("content", c)]) eqn:Hp; auto.
    apply Hd in Hp. now rewrite metaElement_matches in Hp.
Qed.

Lemma injectMeta_wf (name c : string) (d : Document) :
  wfDocument d = true -> wfDocument (injectMeta name c d) = true.
Proof.
  intros H. unfold injectMeta. destruct (isEmptyString c); auto.
  rewrite docUpdateFirst_spec.
  destruct (existsb (matches (isMetaNamed name)) (docElements d)).
  - now rewrite wfDocument_docUpdate.
  - now apply wfDocument_appendToHead.
Qed.

Lemma linkElement_matches (url : string) :
  isIconLink "link" [("rel", "icon"); ("type", "image/jpeg"); ("href", url)] = true.
Proof. reflexivity. Qed.

Lemma getAttr_assignHref_other (k u : string) (t : Tag) (a : Attrs) :
  k <> "href" -> getAttr k (assignHref u t a) = getAttr k a.
Proof.
  intros H. unfold assignHref. destruct (reflectsHref t); auto.
  apply getAttr_setAttr_other. congruence.
Qed.

Lemma docFirstKept_exists (p : Tag -> Attrs -> bool) (f : Tag -> Attrs -> Attrs)
    (d : Document) :
  docFirstKept p f d -> existsb (matches p) (docElements d) = true.
Proof.
  intros (t & a & E & _). now rewrite docQuery_exists, E.
Qed.

Lemma docFirstKept_congr (p : Tag -> Attrs -> bool) (f : Tag -> Attrs -> Attrs)
    (d d' : Document) :
  docQuery p d' = docQuery p d -> docFirstKept p f d -> docFirstKept p f d'.
Proof. intros E (t & a & H). exists t, a. now rewrite E. Qed.

Lemma docQuery_matches (p : Tag -> Attrs -> bool) (d : Document) (t : Tag)
    (a : Attrs) :
  docQuery p d = Some (t, a) -> p t a = true.
Proof. intros E. apply find_some in E. exact (proj2 E). Qed.

(** An update by [g] keeps the first match of [p] as [f] leaves it, when
    [g] leaves alone what [p] looks at and what [f] wrote. *)
Lemma docFirstKept_docUpdate (p q : Tag -> Attrs -> bool)
    (f g : Tag -> Attrs -> Attrs) (d : Document) :
  (forall t a, p t (g t a) = p t a) ->
  (forall t a, p t a = true -> f t a = a -> f t (g t a) = g t a) ->
  docFirstKept p f d -> docFirstKept p f (docUpdate q g d).
Proof.
  intros Hs Hk (t & a & E & A). pose proof (docQuery_matches _ _ E) as Hp.
  unfold docFirstKept, docQuery in *. rewrite docElements_upd.
  destruct (find_updList p q g Hs _ E) as (a' & E' & [->| ->]).
  - eauto.
  - exists t, (g t a). auto.
Qed.

Lemma docFirstKept_docUpdate_same (p : Tag -> Attrs -> bool)
    (f : Tag -> Attrs -> Attrs) (d : Document) :
  (forall t a, p t (f t a) = p t a) ->
  (forall t a, f t (f t a) = f t a) ->
  existsb (matches p) (docElements d) = true ->
  docFirstKept p f (docUpdate p f d).
Proof.
  intros Hs Hi Hex. rewrite docQuery_exists in Hex.
  destruct (docQuery p d) as [[t a]|] eqn:E; [|discriminate].
  exists t, (f t a). split; [|apply Hi].
  unfold docQuery in *. rewrite docElements_upd.
  now apply find_updList_same.
Qed.

Lemma docQuery_appended (p : Tag -> Attrs -> bool) (t : Tag) (a : Attrs)
    (d : Document) :
  existsb (matches p) (docElements d) = false ->
  p t a = true ->
  docQuery p (appendToHead (Elem t a []) d) = Some (t, a).
Proof.
  intros Hex Hp.
  unfold docElements in Hex. cbn [existsb] in Hex.
  rewrite existsb_app in Hex. cbn [existsb] in Hex.
  repeat (apply orb_false_iff in Hex; destruct Hex as [? Hex]).
  rewrite existsb_find in *.
  unfold docQuery, docElements. cbn [appendToHead htmlAttrs headAttrs headNodes
    bodyAttrs bodyNodes find].
  rewrite !matches_pair in *.
  rewrite find_app, elementsIn_app, find_app, elementsIn_single.
  destruct (p "html" (htmlAttrs d)); [discriminate|].
  destruct (p "head" (headAttrs d)); [discriminate|].
  destruct (find (matches p) (elementsIn (headNodes d))); [discriminate|].
  cbn [elementsOf flat_map find]. now rewrite matches_pair, Hp.
Qed.

(** After "Inject Favicon" the first icon link is as [link.href = url]
    leaves it: it holds the URL when it is an HTML element, and is as it
    was when it is not. *)
Lemma injectFavicon_establishes (fv : Favicon) (d : Document) :
  docFirstKept isIconLink (assignHref (fav_url fv)) (injectFavicon (Some fv) d).
Proof.
  unfold injectFavicon. rewrite docUpdateFirst_spec.
  destruct (existsb (matches isIconLink) (docElements d)) eqn:E.
  - apply docFirstKept_docUpdate_same; auto.
    + intros. apply isIconLink_assignHref.
    + intros. apply assignHref_assignHref.
  - eexists _, _. split; [apply docQuery_appended; auto|].
    reflexivity.
Qed.

Lemma injectFavicon_fixed (fav : option Favicon) (d : Document) :
  (forall fv, fav = Some fv ->
              docFirstKept isIconLink (assignHref (fav_url fv)) d) ->
  injectFavicon fav d = d.
Proof.
  intros H. destruct fav as [fv|]; auto. specialize (H fv eq_refl).
  unfold injectFavicon.
  rewrite docUpdateFirst_spec, (docFirstKept_exists H).
  apply docUpdate_fixed. intros t a E.
  destruct H as (t' & a' & E' & A). rewrite E in E'. now inversion E'; subst.
Qed.

Lemma injectFavicon_preserves (p : Tag -> Attrs -> bool) (k v : string)
    (fav : option Favicon) (d : Document) :
  (forall t a, p t a = true -> isIconLink t a = false) ->
  (forall u t a, p t (assignHref u t a) = p t a) ->
  docFirstHas p k v d -> docFirstHas p k v (injectFavicon fav d).
Proof.
  intros Hd Hs H. destruct fav as [fv|]; auto. unfold injectFavicon.
  rewrite docUpdateFirst_spec.
  destruct (existsb (matches isIconLink) (docElements d)).
  - eapply docFirstHas_congr; [|exact H].
    now apply docQuery_docUpdate_disjoint.
  - eapply docFirstHas_congr; [|exact H].
    apply docQuery_appendToHead. rewrite hasMatch_Elem. cbn.
    rewrite orb_false_r.
    destruct (p "link" [("rel", "icon"); ("type", "image/jpeg");
                        ("href", fav_url fv)]) eqn:Hp; auto.
    apply Hd in Hp. now rewrite linkElement_matches in Hp.
Qed.

Lemma injectFavicon_wf (fav : option Favicon) (d : Document) :
  wfDocument d = true -> wfDocument (injectFavicon fav d) = true.
Proof.
  intros H. destruct fav as [fv|]; auto. unfold injectFavicon.
  rewrite docUpdateFirst_spec.
  destruct (existsb (matches isIconLink) (docElements d)).
  - now rewrite wfDocument_docUpdate.
  - now apply wfDocument_appendToHead.
Qed.

(** What a query finds survives [updatePreview]. *)
Lemma previewDocument_preserves (p : Tag -> Attrs -> bool) (k v : string)
    (images : list Image) (fav : option Favicon) (css : string) (d : Document) :
  (forall t a, p t a = true -> styleSel t a = false) ->
  (forall u t a, p t (assignSrc u t a) = p t a) ->
  (forall u t a, p t (assignHref u t a) = p t a) ->
  k <> "src" -> k <> "href" ->
  wfDocument d = true ->
  docFirstHas p k v d -> docFirstHas p k v (previewDocument images fav css d).
Proof.
  intros Hstyle Hsrc Hhref Hk Hk' Hwf H. unfold previewDocument.
  assert (H1 : docFirstHas p k v
                 (appendToHead (styleElement css) (removeHeadStyles d))).
  { eapply docFirstHas_congr; [|exact H].
    rewrite docQuery_appendToHead.
    - now apply docQuery_removeHeadStyles.
    - unfold styleElement. rewrite hasMatch_Elem, textNodes_no_match, orb_false_r.
      destruct (p "style" []) eqn:Hp; auto.
      apply Hstyle in Hp. discriminate. }
  clear H. revert H1.
  generalize (appendToHead (styleElement css) (removeHeadStyles d)).
  intros d0 H0.
  assert (H2 : docFirstHas p k v (fold_left injectImage images d0)).
  { revert d0 H0. induction images as [|i l IH]; simpl; auto.
    intros d0 H0. apply IH. unfold injectImage.
    apply docFirstHas_docUpdate; auto.
    intros t a A. unfold assignSrc. destruct (reflectsSrc t); auto.
    rewrite getAttr_setAttr_other; auto. }
  destruct fav as [fv|]; simpl; auto.
  apply docFirstHas_docUpdate; auto.
  intros t a A. now rewrite getAttr_assignHref_other.
Qed.

(** The icon link [populateUI] left survives [updatePreview] as it is. *)
Lemma previewDocument_keeps_link (images : list Image) (fv : Favicon)
    (css : string) (d : Document) :
  wfDocument d = true ->
  docFirstKept isIconLink (assignHref (fav_url fv)) d ->
  docFirstKept isIconLink (assignHref (fav_url fv))
    (previewDocument images (Some fv) css d).
Proof.
  intros Hwf H. unfold previewDocument.
  assert (H1 : docFirstKept isIconLink (assignHref (fav_url fv))
                 (appendToHead (styleElement css) (removeHeadStyles d))).
  { eapply docFirstKept_congr; [|exact H].
    rewrite docQuery_appendToHead.
    - apply docQuery_removeHeadStyles; [apply isIconLink_not_style|exact Hwf].
    - apply styleElement_no_link. }
  clear H. revert H1.
  generalize (appendToHead (styleElement css) (removeHeadStyles d)).
  intros d0 H0.
  assert (H2 : docFirstKept isIconLink (assignHref (fav_url fv))
                 (fold_left injectImage images d0)).
  { revert d0 H0. induction images as [|i l IH]; simpl; auto.
    intros d0 H0. apply IH. unfold injectImage.
    apply docFirstKept_docUpdate; auto.
    - intros. apply isIconLink_assignSrc.
    - intros t a Hp A. now rewrite (assignSrc_link _ _ _ Hp). }
  cbn [relinkFavicon]. apply docFirstKept_docUpdate; auto.
  - intros. apply isIconLink_assignHref.
  - intros t a _ _. apply assignHref_assignHref.
Qed.

(* ================================================================== *)
(** * Lemmas: resolution runs once *)
(* ================================================================== *)

Lemma previewDocument_of_stripped (images : list Image) (fav : option Favicon)
    (css : string) (d : Document) :
  previewDocument images fav css
    (relinkFavicon fav (fold_left injectImage images (removeHeadStyles d)))
  = previewDocument images fav css d.
Proof.
  unfold previewDocument at 1.
  rewrite removeHeadStyles_fixed
    by now rewrite headStyleFree_relinkFavicon, headStyleFree_injectImages,
         headStyleFree_removeHeadStyles.
  rewrite <- previewDocument_shape. unfold previewDocument. apply inject_once.
Qed.

(** [populateUI] on the tree of its own preview: nothing is injected, the
    style text taken out is the one put in, and the document left is the
    one of the first run with the assets in place and without style
    blocks in its head. *)
Lemma populateDocument_of_preview (images : list Image) (fav : option Favicon)
    (metaDesc metaKeywords : string) (d : Document) :
  wfDocument d = true ->
  populateDocument fav metaDesc metaKeywords
    (previewDocument images fav
       (fst (populateDocument fav metaDesc metaKeywords d))
       (snd (populateDocument fav metaDesc metaKeywords d)))
  = (fst (populateDocument fav metaDesc metaKeywords d),
     relinkFavicon fav
       (fold_left injectImage images
          (removeHeadStyles (snd (populateDocument fav metaDesc metaKeywords d))))).
Proof.
  intros Hwf. unfold populateDocument at 2 3 4 5.
  set (d1 := injectMeta "description" metaDesc d).
  set (d2 := injectMeta "keywords" metaKeywords d1).
  set (d3 := injectFavicon fav d2).
  assert (W1 : wfDocument d1 = true) by now apply injectMeta_wf.
  assert (W2 : wfDocument d2 = true) by now apply injectMeta_wf.
  assert (W3 : wfDocument d3 = true) by now apply injectFavicon_wf.
  assert (Q4 : forall p, (forall t a, p t a = true -> styleSel t a = false) ->
                         docQuery p (snd (separateStyle d3)) = docQuery p d3).
  { intros p Hp. now apply separateStyle_query. }
  assert (W4 : wfDocument (snd (separateStyle d3)) = true).
  { now apply (separateStyle_query (fun _ _ => false)). }
  destruct (separateStyle d3) as [css d4]. cbn [fst snd] in *.
  set (o := previewDocument images fav css d4).
  assert (QD : metaDesc <> "" ->
               docFirstHas (isMetaNamed "description") "content" metaDesc o).
  { intros Hne. apply previewDocument_preserves; auto.
    - apply isMetaNamed_not_style.
    - intros. apply isMetaNamed_assignSrc.
    - intros. apply isMetaNamed_assignHref.
    - discriminate.
    - discriminate.
    - eapply docFirstHas_congr; [apply Q4, isMetaNamed_not_style|].
      apply injectFavicon_preserves.
      + apply isMetaNamed_not_link.
      + intros. apply isMetaNamed_assignHref.
      + apply injectMeta_preserves.
        * intros t a. apply isMetaNamed_disjoint. discriminate.
        * intros. apply isMetaNamed_assignAttr. discriminate.
        * now apply injectMeta_establishes. }
  assert (QK : metaKeywords <> "" ->
               docFirstHas (isMetaNamed "keywords") "content" metaKeywords o).
  { intros Hne. apply previewDocument_preserves; auto.
    - apply isMetaNamed_not_style.
    - intros. apply isMetaNamed_assignSrc.
    - intros. apply isMetaNamed_assignHref.
    - discriminate.
    - discriminate.
    - eapply docFirstHas_congr; [apply Q4, isMetaNamed_not_style|].
      apply injectFavicon_preserves.
      + apply isMetaNamed_not_link.
      + intros. apply isMetaNamed_assignHref.
      + now apply injectMeta_establishes. }
  assert (QF : forall fv, fav = Some fv ->
                          docFirstKept isIconLink (assignHref (fav_url fv)) o).
  { intros fv Hfv. unfold o. rewrite Hfv.
    apply previewDocument_keeps_link; auto.
    eapply docFirstKept_congr; [apply Q4, isIconLink_not_style|].
    unfold d3. rewrite Hfv. apply injectFavicon_establishes. }
  unfold populateDocument.
  rewrite (injectMeta_fixed QD), (injectMeta_fixed QK), (injectFavicon_fixed QF).
  unfold o. rewrite previewDocument_shape.
  apply separateStyle_appended.
  now rewrite headStyleFree_relinkFavicon, headStyleFree_injectImages,
    headStyleFree_removeHeadStyles.
Qed.

(* ================================================================== *)
(** * Lemmas: the history *)
(* ================================================================== *)

Lemma at_index_valid (A : Type) (l : list A) (i : Z) :
  (0 <= i <= Z.of_nat (length l) - 1)%Z -> exists x, at_index l i = Some x.
Proof.
  intros H. unfold at_index.
  destruct (i <? 0)%Z eqn:E; [apply Z.ltb_lt in E; lia|].
  destruct (nth_error l (Z.to_nat i)) as [x|] eqn:En; [eauto|].
  apply nth_error_None in En. lia.
Qed.

Lemma push_history (html css : string) (s : State) :
  history (pushHistoryState html css s)
  = (if (historyIndex s <? lastIndex s)%Z
     then sliceTo (historyIndex s + 1) (history s)
     else history s)
    ++ [mkSnapshot html css].
Proof.
  unfold pushHistoryState.
  destruct (historyIndex s <? lastIndex s)%Z; reflexivity.
Qed.

Lemma push_index (html css : string) (s : State) :
  historyIndex (pushHistoryState html css s)
  = lastIndex (pushHistoryState html css s).
Proof.
  unfold pushHistoryState.
  destruct (historyIndex s <? lastIndex s)%Z; reflexivity.
Qed.

Lemma push_buttons (html css : string) (s : State) :
  buttonsInSync (pushHistoryState html css s).
Proof.
  unfold buttonsInSync, pushHistoryState.
  destruct (historyIndex s <? lastIndex s)%Z; split; reflexivity.
Qed.

Lemma push_valid (html css : string) (s : State) :
  validCursor (pushHistoryState html css s).
Proof.
  unfold validCursor. rewrite push_index. unfold lastIndex.
  rewrite push_history, length_app. simpl. lia.
Qed.

Lemma push_invariant (html css : string) (s : State) :
  historyInvariant (pushHistoryState html css s).
Proof. right. split; [apply push_valid | apply push_buttons]. Qed.

Lemma push_nonempty (html css : string) (s : State) :
  history (pushHistoryState html css s) <> [].
Proof.
  rewrite push_history. intros H. apply app_eq_nil in H. destruct H. discriminate.
Qed.

Lemma push_frame (html css : string) (s : State) :
  sameDocument s (pushHistoryState html css s)
  /\ inputSection_hidden (pushHistoryState html css s) = inputSection_hidden s
  /\ resultContainer_hidden (pushHistoryState html css s) = resultContainer_hidden s.
Proof.
  unfold sameDocument, pushHistoryState.
  destruct (historyIndex s <? lastIndex s)%Z; repeat split; reflexivity.
Qed.

Section HistoryFacts.

Variable parseFromString : string -> Document.
Variable outerHTML : Document -> string.

Local Abbreviation loadStateFromHistory := (loadStateFromHistory parseFromString outerHTML).
Local Abbreviation clickUndo := (clickUndo parseFromString outerHTML).
Local Abbreviation clickRedo := (clickRedo parseFromString outerHTML).
Local Abbreviation applyOp := (applyOp parseFromString outerHTML).
Local Abbreviation applyOps := (applyOps parseFromString outerHTML).

Lemma load_history (s : State) :
  history (loadStateFromHistory s) = history s
  /\ historyIndex (loadStateFromHistory s) = historyIndex s.
Proof.
  unfold loadStateFromHistory.
  destruct (at_index (history s) (historyIndex s)); split; reflexivity.
Qed.

Lemma load_buttons (s : State) :
  validCursor s -> buttonsInSync (loadStateFromHistory s).
Proof.
  intros H. destruct (at_index_valid (history s) H) as [st E].
  unfold loadStateFromHistory, buttonsInSync. rewrite E. split; reflexivity.
Qed.

Lemma set_index_valid (i : Z) (s : State) :
  (0 <= i <= lastIndex s)%Z -> validCursor (set_historyIndex i s).
Proof. intros H. exact H. Qed.

Lemma load_valid (s : State) : validCursor s -> validCursor (loadStateFromHistory s).
Proof.
  unfold validCursor, lastIndex. destruct (load_history s) as [E1 E2].
  now rewrite E1, E2.
Qed.

Lemma clickUndo_valid (s : State) : validCursor s -> validCursor (clickUndo s).
Proof.
  intros H. unfold clickUndo.
  destruct (0 <? historyIndex s)%Z eqn:E; auto.
  apply Z.ltb_lt in E. apply load_valid, set_index_valid.
  unfold validCursor in H. lia.
Qed.

Lemma clickRedo_valid (s : State) : validCursor s -> validCursor (clickRedo s).
Proof.
  intros H. unfold clickRedo.
  destruct (historyIndex s <? lastIndex s)%Z eqn:E; auto.
  apply Z.ltb_lt in E. apply load_valid, set_index_valid.
  unfold validCursor in H. lia.
Qed.

Lemma clickUndo_invariant (s : State) :
  historyInvariant s -> historyInvariant (clickUndo s).
Proof.
  intros H. unfold clickUndo.
  destruct (0 <? historyIndex s)%Z eqn:E; auto.
  apply Z.ltb_lt in E. destruct H as [[_ H]|[H _]]; [lia|].
  assert (V : validCursor (set_historyIndex (historyIndex s - 1)%Z s)).
  { apply set_index_valid. unfold validCursor in H. lia. }
  right. split; [now apply load_valid | now apply load_buttons].
Qed.

Lemma clickRedo_invariant (s : State) :
  historyInvariant s -> historyInvariant (clickRedo s).
Proof.
  intros H. unfold clickRedo.
  destruct (historyIndex s <? lastIndex s)%Z eqn:E; auto.
  apply Z.ltb_lt in E.
  assert (V : validCursor (set_historyIndex (historyIndex s + 1)%Z s)).
  { apply set_index_valid. destruct H as [[H1 H2]|[H _]].
    - unfold lastIndex in E. rewrite H1, H2 in E. simpl in E. lia.
    - unfold validCursor in H. lia. }
  right. split; [now apply load_valid | now apply load_buttons].
Qed.

Lemma clickUndo_at_start (s : State) : historyIndex s = 0%Z -> clickUndo s = s.
Proof. intros H. unfold clickUndo. now rewrite H. Qed.

Lemma clickRedo_at_end (s : State) :
  historyIndex s = lastIndex s -> clickRedo s = s.
Proof. intros H. unfold clickRedo. now rewrite H, Z.ltb_irrefl. Qed.

Lemma applyOp_valid (op : HistoryOp) (s : State) :
  validCursor s -> validCursor (applyOp op s).
Proof.
  intros H. destruct op; simpl.
  - apply push_valid.
  - now apply clickUndo_valid.
  - now apply clickRedo_valid.
  - apply push_valid.
Qed.

Lemma applyOps_valid (ops : list HistoryOp) (s : State) :
  validCursor s -> validCursor (applyOps ops s).
Proof.
  revert s. induction ops as [|op ops IH]; simpl; intros s H; auto.
  apply IH. now apply applyOp_valid.
Qed.

End HistoryFacts.

(* ================================================================== *)
(** * Lemmas: the invariant of the page *)
(* ================================================================== *)

Lemma historyInvariant_frame (s s' : State) :
  sameHistory s s' -> historyInvariant s -> historyInvariant s'.
Proof.
  intros (E1 & E2 & E3 & E4).
  unfold historyInvariant, validCursor, buttonsInSync, lastIndex.
  now rewrite E1, E2, E3, E4.
Qed.

Section PageFacts.

Variable parseFromString : string -> Document.
Variable outerHTML : Document -> string.

Local Abbreviation populateUI := (populateUI parseFromString outerHTML).
Local Abbreviation generateWebsite := (generateWebsite parseFromString outerHTML).
Local Abbreviation submitForm := (submitForm parseFromString outerHTML).
Local Abbreviation exportSite := (exportSite parseFromString outerHTML).
Local Abbreviation clickExport := (clickExport parseFromString outerHTML).
Local Abbreviation loadStateFromLocalStorage :=
  (loadStateFromLocalStorage parseFromString outerHTML).
Local Abbreviation clickUpdatePreview := (clickUpdatePreview parseFromString outerHTML).
Local Abbreviation step := (step parseFromString outerHTML).
Local Abbreviation reachable := (reachable parseFromString outerHTML).

Lemma populateUI_invariant (html : string) (images : list Image)
    (metaDesc metaKeywords : string) (s : State) :
  historyInvariant (populateUI html images metaDesc metaKeywords s).
Proof.
  unfold populateUI.
  destruct (populateDocument _ _ _ _) as [css doc].
  eapply historyInvariant_frame; [|apply push_invariant]. same_history.
Qed.

Lemma generateWebsite_invariant (run : GenerationRun)
    (detailedPrompt coreIdea lang : string) (s : State) :
  historyInvariant s ->
  historyInvariant (fst (generateWebsite run detailedPrompt coreIdea lang s)).
Proof.
  intros H. unfold generateWebsite.
  destruct (structuredOutcome run) as [message|websiteData].
  - eapply historyInvariant_frame; [|exact H]. same_history.
  - destruct (imagePrompts websiteData) as [prompts|].
    + cbn [fst]. eapply historyInvariant_frame; [|apply populateUI_invariant].
      same_history.
    + eapply historyInvariant_frame; [|exact H]. same_history.
Qed.

Lemma submitForm_invariant (form : FormInput) (run : GenerationRun) (s : State) :
  historyInvariant s -> historyInvariant (fst (submitForm form run s)).
Proof.
  intros H. unfold submitForm.
  destruct (negb (aiReady s)).
  { eapply historyInvariant_frame; [|exact H]. same_history. }
  destruct (isEmptyString (trim (inputValue form))).
  { eapply historyInvariant_frame; [|exact H]. same_history. }
  destruct (String.length (trim (inputValue form)) <? MIN_PROMPT_LENGTH)%nat.
  { eapply historyInvariant_frame; [|exact H]. same_history. }
  now apply generateWebsite_invariant.
Qed.

Lemma exportSite_history (net : string -> option string) (images : list Image)
    (s : State) :
  sameHistory s (fst (exportSite net images s)).
Proof.
  unfold exportSite.
  destruct (exportImages net images _ _ _) as [[[doc1 zip1]|] log1];
    [|same_history].
  destruct (exportFavicon net _ doc1 zip1 log1) as [[[doc2 zip2]|] log2];
    same_history.
Qed.

Lemma clickExport_invariant (net : string -> option string) (s : State) :
  historyInvariant s -> historyInvariant (fst (clickExport net s)).
Proof.
  intros H. unfold clickExport.
  destruct (isEmptyString (htmlEditor s) || isEmptyList (latestGeneratedImages s));
    auto.
  eapply historyInvariant_frame; [apply exportSite_history | exact H].
Qed.

Lemma load_invariant (s : State) :
  historyInvariant s -> historyInvariant (loadStateFromLocalStorage s).
Proof.
  intros H. unfold loadStateFromLocalStorage.
  destruct (localStorage s) as [[data|raw]|]; auto.
  destruct (isEmptyString (sd_html data)); auto.
  apply push_invariant.
Qed.

Lemma save_history (now : Z) (accepts : SavedData -> bool) (s : State) :
  sameHistory s (saveStateToLocalStorage now accepts s).
Proof.
  unfold saveStateToLocalStorage.
  destruct (isEmptyString (htmlEditor s) && isEmptyList (latestGeneratedImages s));
    [same_history|].
  destruct (accepts _); [same_history|].
  destruct (accepts _); same_history.
Qed.

Lemma step_invariant (e : Event) (s : State) :
  historyInvariant s -> historyInvariant (fst (step e s)).
Proof.
  intros H. destruct e; cbn [step fst].
  - now apply load_invariant.
  - now apply submitForm_invariant.
  - eapply historyInvariant_frame; [|exact H]. same_history.
  - eapply historyInvariant_frame; [|exact H]. same_history.
  - apply push_invariant.
  - now apply clickUndo_invariant.
  - now apply clickRedo_invariant.
  - now apply clickExport_invariant.
  - eapply historyInvariant_frame; [apply save_history | exact H].
Qed.

Lemma reachable_invariant (s : State) : reachable s -> historyInvariant s.
Proof.
  induction 1 as [s (_ & _ & H1 & H2)|s e _ IH].
  - now left.
  - now apply step_invariant.
Qed.

End PageFacts.

(* ================================================================== *)
(** * Lemmas: the assets of a run *)
(* ================================================================== *)

Lemma generateImagesLoop_spec (run : GenerationRun) (prompts : list ImagePrompt) :
  forall index results,
    generateImagesLoop run index prompts results
    = results ++ renderFrom run index prompts.
Proof.
  induction prompts as [|p rest IH]; simpl; intros index results.
  - now rewrite app_nil_r.
  - now rewrite IH, <- app_assoc.
Qed.

Lemma renderFrom_nth (run : GenerationRun) (prompts : list ImagePrompt) :
  forall index k,
    nth_error (renderFrom run index prompts) k
    = option_map (renderImage run (index + k)) (nth_error prompts k).
Proof.
  induction prompts as [|p rest IH]; intros index [|k]; simpl; auto.
  - now rewrite Nat.add_0_r.
  - now rewrite IH, Nat.add_succ_r.
Qed.

Lemma improveFrom_nth (run : GenerationRun) (prompts : list ImagePrompt) :
  forall index k,
    nth_error (improveFrom run index prompts) k
    = option_map (improvePrompt run (index + k)) (nth_error prompts k).
Proof.
  induction prompts as [|p rest IH]; intros index [|k]; simpl; auto.
  - now rewrite Nat.add_0_r.
  - now rewrite IH, Nat.add_succ_r.
Qed.

Lemma renderFrom_length (run : GenerationRun) (prompts : list ImagePrompt) :
  forall index, length (renderFrom run index prompts) = length prompts.
Proof. induction prompts; simpl; intros; auto. Qed.

Lemma improveFrom_length (run : GenerationRun) (prompts : list ImagePrompt) :
  forall index, length (improveFrom run index prompts) = length prompts.
Proof. induction prompts; simpl; intros; auto. Qed.

Lemma improvePrompt_id (run : GenerationRun) (index : nat) (p : ImagePrompt) :
  ip_id (improvePrompt run index p) = ip_id p.
Proof. unfold improvePrompt. destruct (refinementText _ _ _); reflexivity. Qed.

Lemma renderImage_id (run : GenerationRun) (index : nat) (p : ImagePrompt) :
  img_id (renderImage run index p) = ip_id p.
Proof. unfold renderImage. destruct (imageBytes _ _ _); reflexivity. Qed.

Lemma renderImage_prompt (run : GenerationRun) (index : nat) (p : ImagePrompt) :
  img_prompt (renderImage run index p) = ip_prompt p.
Proof. unfold renderImage. destruct (imageBytes _ _ _); reflexivity. Qed.

Lemma renderFrom_ids (run : GenerationRun) (prompts : list ImagePrompt) :
  forall index, map img_id (renderFrom run index prompts) = map ip_id prompts.
Proof.
  induction prompts; simpl; intros; auto. now rewrite renderImage_id, IHprompts.
Qed.

Lemma improveFrom_ids (run : GenerationRun) (prompts : list ImagePrompt) :
  forall index, map ip_id (improveFrom run index prompts) = map ip_id prompts.
Proof.
  induction prompts; simpl; intros; auto. now rewrite improvePrompt_id, IHprompts.
Qed.

Lemma pipeline_nth (run : GenerationRun) (prompts : list ImagePrompt)
    (coreIdea : string) (i : nat) (p : ImagePrompt) :
  nth_error prompts i = Some p ->
  nth_error (generateImages run (improveImagePrompts run prompts coreIdea)) i
  = Some (assetOf run i p).
Proof.
  intros H. unfold generateImages, improveImagePrompts.
  rewrite generateImagesLoop_spec. simpl.
  now rewrite renderFrom_nth, improveFrom_nth, H.
Qed.

Lemma populateUI_images (parseFromString : string -> Document)
    (outerHTML : Document -> string) (html : string) (images : list Image)
    (metaDesc metaKeywords : string) (s : State) :
  latestGeneratedImages
    (populateUI parseFromString outerHTML html images metaDesc metaKeywords s)
  = images.
Proof.
  unfold populateUI. destruct (populateDocument _ _ _ _) as [css doc].
  reflexivity.
Qed.

Lemma populateUI_favicon (parseFromString : string -> Document)
    (outerHTML : Document -> string) (html : string) (images : list Image)
    (metaDesc metaKeywords : string) (s : State) :
  latestFavicon
    (populateUI parseFromString outerHTML html images metaDesc metaKeywords s)
  = latestFavicon s.
Proof.
  unfold populateUI. destruct (populateDocument _ _ _ _) as [css doc].
  reflexivity.
Qed.

(** The preview [populateUI] shows is the resolved markup. *)
Lemma populateUI_preview (parseFromString : string -> Document)
    (outerHTML : Document -> string) (html : string) (images : list Image)
    (metaDesc metaKeywords : string) (s : State) :
  previewFrame_srcdoc
    (populateUI parseFromString outerHTML html images metaDesc metaKeywords s)
  = resolveMarkup parseFromString outerHTML images (latestFavicon s)
      metaDesc metaKeywords html.
Proof.
  unfold populateUI, resolveMarkup, resolvedDocument.
  cbn [latestFavicon set_latestGeneratedImages].
  destruct (populateDocument _ _ _ _) as [css doc]. reflexivity.
Qed.

Section ResolutionOnce.

Variable parseFromString : string -> Document.
Variable outerHTML : Document -> string.

Local Abbreviation readsBack := (readsBack parseFromString outerHTML).
Local Abbreviation editorDocument := (editorDocument parseFromString).
Local Abbreviation resolvedDocument := (resolvedDocument parseFromString outerHTML).
Local Abbreviation resolveMarkup := (resolveMarkup parseFromString outerHTML).

(** Where the parser reads the document of the editor back, the preview
    is made from that document. *)
Lemma resolvedDocument_read (images : list Image) (fav : option Favicon)
    (metaDesc metaKeywords html : string) :
  readsBack (editorDocument fav metaDesc metaKeywords html) ->
  resolvedDocument images fav metaDesc metaKeywords html
  = previewDocument images fav
      (fst (populateDocument fav metaDesc metaKeywords (parseFromString html)))
      (snd (populateDocument fav metaDesc metaKeywords (parseFromString html))).
Proof.
  unfold readsBack, editorDocument, resolvedDocument.
  destruct (populateDocument _ _ _ _) as [css doc]. cbn [fst snd].
  now intros ->.
Qed.

(** Resolution run on its own result gives that result again. *)
Lemma resolveMarkup_once (images : list Image) (fav : option Favicon)
    (metaDesc metaKeywords html : string) :
  wfDocument (parseFromString html) = true ->
  readsBack (editorDocument fav metaDesc metaKeywords html) ->
  readsBack (resolvedDocument images fav metaDesc metaKeywords html) ->
  readsBack
    (editorDocument fav metaDesc metaKeywords
       (resolveMarkup images fav metaDesc metaKeywords html)) ->
  resolveMarkup images fav metaDesc metaKeywords
    (resolveMarkup images fav metaDesc metaKeywords html)
  = resolveMarkup images fav metaDesc metaKeywords html.
Proof.
  intros Hwf R1 R2 R3.
  pose proof (@resolvedDocument_read images fav metaDesc metaKeywords html R1)
    as E1.
  pose proof (@populateDocument_of_preview images fav metaDesc metaKeywords _ Hwf)
    as E2.
  rewrite <- E1 in E2.
  unfold resolveMarkup at 1. f_equal.
  rewrite (@resolvedDocument_read images fav metaDesc metaKeywords _ R3).
  unfold resolveMarkup in *. unfold readsBack in R2. rewrite R2, E2.
  cbn [fst snd]. rewrite previewDocument_of_stripped. now rewrite E1.
Qed.

End ResolutionOnce.

(* ================================================================== *)
(** * Lemmas: the export loop *)
(* ================================================================== *)

Lemma zipGet_zipPut_same (path : string) (e : ZipEntry) (zip : Archive) :
  zipGet path (zipPut path e zip) = Some e.
Proof.
  induction zip as [|[path' e'] rest IH]; simpl.
  - now rewrite String.eqb_refl.
  - destruct (String.eqb path path') eqn:E; simpl; now rewrite E.
Qed.

Lemma zipGet_zipPut_other (path path' : string) (e : ZipEntry) (zip : Archive) :
  path <> path' -> zipGet path' (zipPut path e zip) = zipGet path' zip.
Proof.
  intros Hne. induction zip as [|[p0 e0] rest IH]; simpl.
  - destruct (String.eqb path' path) eqn:E; auto.
    apply String.eqb_eq in E. congruence.
  - destruct (String.eqb path p0) eqn:E; simpl.
    + apply String.eqb_eq in E. subst p0.
      destruct (String.eqb path' path) eqn:E'; auto.
      apply String.eqb_eq in E'. congruence.
    + now rewrite IH.
Qed.

(** A file of the archive stays a file when another one is put. *)
Lemma zipPut_keeps_file (path path' data data' : string) (zip : Archive) :
  zipGet path' zip = Some (ZipFile data') ->
  exists d, zipGet path' (zipPut path (ZipFile data) zip) = Some (ZipFile d).
Proof.
  intros H. destruct (string_dec path path') as [->|Hne].
  - rewrite zipGet_zipPut_same. eauto.
  - rewrite zipGet_zipPut_other by exact Hne. eauto.
Qed.

Lemma docHasId_docUpdate (x y u : string) (d : Document) :
  docHasId x (docUpdate (hasId y) (assignSrc u) d) = docHasId x d.
Proof.
  unfold docHasId. rewrite docElements_upd.
  apply existsb_updList. intros. apply hasId_assignSrc.
Qed.

Lemma exportImages_skip (net : string -> option string) (im : Image)
    (l2 : list Image) :
  forall l1 doc zip log,
    docHasId (img_id im) doc = false ->
    exportImages net (l1 ++ im :: l2) doc zip log
    = exportImages net (l1 ++ l2) doc zip log.
Proof.
  induction l1 as [|i l1 IH]; intros doc zip log H; simpl.
  - now rewrite H.
  - destruct (docHasId (img_id i) doc); simpl; auto.
    destruct (net (img_url i)); auto.
    apply IH. now rewrite docHasId_docUpdate.
Qed.

Lemma exportImages_files (net : string -> option string) :
  forall images doc zip log doc' zip' log',
    exportImages net images doc zip log = (Some (doc', zip'), log') ->
    (forall im, In im images -> docHasId (img_id im) doc = true ->
                (exists blob, zipGet (imagePath im) zip' = Some (ZipFile blob))
                /\ In (FetchCall (img_url im)) log')
    /\ (forall path data, zipGet path zip = Some (ZipFile data) ->
                          exists d, zipGet path zip' = Some (ZipFile d))
    /\ (forall e, In e log -> In e log').
Proof.
  induction images as [|i rest IH]; intros doc zip log doc' zip' log' E.
  - simpl in E. inversion E; subst. split; [|split].
    + intros im [].
    + intros path data Hp. eauto.
    + auto.
  - simpl in E. destruct (docHasId (img_id i) doc) eqn:Hi; simpl in E.
    + destruct (net (img_url i)) as [blob|] eqn:Hn; [|discriminate].
      destruct (IH _ _ _ _ _ _ E) as (F1 & F2 & F3).
      split; [|split].
      * intros im [->|Hin] Him.
        -- split.
           ++ apply (F2 _ blob). apply zipGet_zipPut_same.
           ++ apply F3, in_or_app. right. now left.
        -- apply F1; auto. now rewrite docHasId_docUpdate.
      * intros path data Hp.
        destruct (zipPut_keeps_file (imagePath i) path blob zip Hp) as [d Hd].
        eapply F2. exact Hd.
      * intros e He. apply F3, in_or_app. now left.
    + destruct (IH _ _ _ _ _ _ E) as (F1 & F2 & F3).
      split; [|split]; auto.
      intros im [->|Hin] Him; [congruence|]. now apply F1.
Qed.

Lemma exportImages_completes (net : string -> option string) :
  forall images doc zip log,
    (forall im, In im images -> net (img_url im) <> None) ->
    exists doc' zip' log',
      exportImages net images doc zip log = (Some (doc', zip'), log').
Proof.
  induction images as [|i rest IH]; intros doc zip log H; simpl.
  - eauto.
  - destruct (docHasId (img_id i) doc); simpl.
    + destruct (net (img_url i)) as [blob|] eqn:Hn.
      * apply IH. intros im Him. apply H. now right.
      * exfalso. apply (H i); auto. now left.
    + apply IH. intros im Him. apply H. now right.
Qed.


(* ================================================================== *)
(** * Lemmas: a history of known shape *)
(* ================================================================== *)


Lemma push_on_empty (html css : string) (s : State) :
  history s = [] ->
  history (pushHistoryState html css s) = [mkSnapshot html css]
  /\ historyIndex (pushHistoryState html css s) = 0%Z.
Proof.
  intros H.
  assert (E : history (pushHistoryState html css s) = [mkSnapshot html css]).
  { rewrite push_history, H. unfold sliceTo.
    destruct (historyIndex s <? lastIndex s)%Z; auto.
    destruct (historyIndex s + 1 <? 0)%Z; now rewrite firstn_nil. }
  split; [exact E|]. rewrite push_index. unfold lastIndex. now rewrite E.
Qed.

Lemma resetHistory_history (html css : string) (s : State) :
  history (resetHistory html css s) = [mkSnapshot html css]
  /\ historyIndex (resetHistory html css s) = 0%Z.
Proof. unfold resetHistory. now apply push_on_empty. Qed.

Lemma push_at_end (html css : string) (s : State) :
  historyIndex s = lastIndex s ->
  history (pushHistoryState html css s) = history s ++ [mkSnapshot html css]
  /\ historyIndex (pushHistoryState html css s) = Z.of_nat (length (history s)).
Proof.
  intros H. rewrite push_index. unfold lastIndex at 1.
  rewrite push_history, H, Z.ltb_irrefl, length_app. simpl. split; [reflexivity|lia].
Qed.

Lemma push_after_rewind (html css : string) (s : State) :
  (0 <= historyIndex s < lastIndex s)%Z ->
  history (pushHistoryState html css s)
  = firstn (Z.to_nat (historyIndex s + 1)) (history s) ++ [mkSnapshot html css].
Proof.
  intros H. rewrite push_history.
  destruct (historyIndex s <? lastIndex s)%Z eqn:E; [|apply Z.ltb_ge in E; lia].
  unfold sliceTo.
  destruct (historyIndex s + 1 <? 0)%Z eqn:E'; [apply Z.ltb_lt in E'; lia|].
  reflexivity.
Qed.

Section ClickFacts.

Variable parseFromString : string -> Document.
Variable outerHTML : Document -> string.

Local Abbreviation clickUndo := (clickUndo parseFromString outerHTML).
Local Abbreviation clickRedo := (clickRedo parseFromString outerHTML).
Local Abbreviation loadStateFromHistory := (loadStateFromHistory parseFromString outerHTML).

Lemma clickUndo_moves (s : State) :
  (0 < historyIndex s)%Z ->
  history (clickUndo s) = history s
  /\ historyIndex (clickUndo s) = (historyIndex s - 1)%Z.
Proof.
  intros H. unfold clickUndo.
  destruct (0 <? historyIndex s)%Z eqn:E; [|apply Z.ltb_ge in E; lia].
  destruct (load_history parseFromString outerHTML
              (set_historyIndex (historyIndex s - 1)%Z s)) as [E1 E2].
  rewrite E1, E2. split; reflexivity.
Qed.

End ClickFacts.

Lemma refinementCalls_no_alert (prompts : list ImagePrompt) :
  existsb isAlert (refinementCalls prompts) = false.
Proof. induction prompts; simpl; auto. Qed.

Lemma imageCalls_no_alert (prompts : list ImagePrompt) :
  existsb isAlert (imageCalls prompts) = false.
Proof. induction prompts; simpl; auto. Qed.

Lemma exportFavicon_total (net : string -> option string) (fav : option Favicon)
    (doc : Document) (zip : Archive) (log : list Effect) :
  (forall url, net url <> None) ->
  exists doc' zip' log',
    exportFavicon net fav doc zip log = (Some (doc', zip'), log')
    /\ (forall path data, zipGet path zip = Some (ZipFile data) ->
                          exists d, zipGet path zip' = Some (ZipFile d))
    /\ (forall e, In e log -> In e log').
Proof.
  intros Hnet. unfold exportFavicon.
  destruct fav as [fv|]; [|do 3 eexists; repeat split; eauto].
  destruct (docUpdateFirst _ _ doc) as [doc'|];
    [|do 3 eexists; repeat split; eauto].
  destruct (net (fav_url fv)) as [blob|] eqn:E; [|now apply Hnet in E].
  do 3 eexists. split; [reflexivity|]. split.
  - intros path data H. eapply zipPut_keeps_file. exact H.
  - intros e H. apply in_or_app. now left.
Qed.

Lemma filter_none (A : Type) (P : A -> bool) (l : list A) :
  existsb P l = false -> filter P l = [].
Proof.
  induction l as [|x l IH]; simpl; auto.
  destruct (P x); simpl; [discriminate | exact IH].
Qed.

Lemma headStyleCount_preview (images : list Image) (fav : option Favicon)
    (css : string) (d : Document) :
  headStyleCount (previewDocument images fav css d) = 1%nat.
Proof.
  rewrite previewDocument_shape. unfold headStyleCount.
  cbn [appendToHead headNodes].
  rewrite elementsIn_app, filter_app, elementsIn_single.
  rewrite filter_none.
  - unfold styleElement. cbn [elementsOf]. fold (elementsIn (textNodes css)).
    cbn [filter]. rewrite matches_pair. cbn [styleSel String.eqb].
    rewrite filter_none; [reflexivity|]. apply textNodes_no_match.
  - fold (hasMatchIn styleSel
            (headNodes (relinkFavicon fav
               (fold_left injectImage images (removeHeadStyles d))))).
    apply negb_true_iff. fold (headStyleFree
            (relinkFavicon fav (fold_left injectImage images (removeHeadStyles d)))).
    now rewrite headStyleFree_relinkFavicon, headStyleFree_injectImages,
      headStyleFree_removeHeadStyles.
Qed.

(* ================================================================== *)
(** * The claims *)
(* ================================================================== *)

Section Claims.

Variable parseFromString : string -> Document.
Variable outerHTML : Document -> string.

Local Abbreviation clickUndo := (clickUndo parseFromString outerHTML).
Local Abbreviation clickRedo := (clickRedo parseFromString outerHTML).
Local Abbreviation applyOps := (applyOps parseFromString outerHTML).
Local Abbreviation generateWebsite := (generateWebsite parseFromString outerHTML).
Local Abbreviation submitForm := (submitForm parseFromString outerHTML).
Local Abbreviation exportSite := (exportSite parseFromString outerHTML).
Local Abbreviation exportSiteEarlier := (exportSiteEarlier parseFromString outerHTML).
Local Abbreviation clickExport := (clickExport parseFromString outerHTML).
Local Abbreviation clickExportEarlier := (clickExportEarlier parseFromString outerHTML).
Local Abbreviation loadStateFromLocalStorage :=
  (loadStateFromLocalStorage parseFromString outerHTML).
Local Abbreviation reachable := (reachable parseFromString outerHTML).
Local Abbreviation updatePreview := (updatePreview parseFromString outerHTML).
Local Abbreviation populateUI := (populateUI parseFromString outerHTML).
Local Abbreviation readsBack := (readsBack parseFromString outerHTML).
Local Abbreviation editorDocument := (editorDocument parseFromString).
Local Abbreviation resolvedDocument := (resolvedDocument parseFromString outerHTML).
Local Abbreviation resolveMarkup := (resolveMarkup parseFromString outerHTML).

(** C4.  From any state, reset(h0,c0); push(h1,c1); push(h2,c2); undo;
    push(h3,c3) leaves the history [(h0,c0); (h1,c1); (h3,c3)] with the
    cursor at index 2 and the redo button disabled, and no number of redo
    clicks changes that state: the snapshot (h2,c2) is gone. *)
Theorem history_branch_is_truncated :
  forall (s : State) (h0 c0 h1 c1 h2 c2 h3 c3 : string),
    let s5 :=
      applyOps [OpReset h0 c0; OpPush h1 c1; OpPush h2 c2; OpUndo; OpPush h3 c3] s in
    history s5 = [mkSnapshot h0 c0; mkSnapshot h1 c1; mkSnapshot h3 c3]
    /\ historyIndex s5 = 2%Z
    /\ redoBtn_disabled s5 = true
    /\ forall n, applyOps (repeat OpRedo n) s5 = s5.
Proof.
  intros s h0 c0 h1 c1 h2 c2 h3 c3.
  unfold applyOps at 1. cbn [fold_left applyOp].
  set (s1 := resetHistory h0 c0 s).
  set (s2 := pushHistoryState h1 c1 s1).
  set (s3 := pushHistoryState h2 c2 s2).
  set (s4 := clickUndo s3).
  set (s5 := pushHistoryState h3 c3 s4).
  destruct (resetHistory_history h0 c0 s) as [H1 I1]. fold s1 in H1, I1.
  destruct (push_at_end h1 c1 s1) as [H2 I2].
  { unfold lastIndex. now rewrite H1, I1. }
  fold s2 in H2, I2. rewrite H1 in H2, I2. cbn [app length] in H2, I2.
  destruct (push_at_end h2 c2 s2) as [H3 I3].
  { unfold lastIndex. rewrite H2, I2. reflexivity. }
  fold s3 in H3, I3. rewrite H2 in H3, I3. cbn [app length] in H3, I3.
  destruct (clickUndo_moves parseFromString outerHTML s3) as [H4 I4].
  { rewrite I3. reflexivity. }
  fold s4 in H4, I4. rewrite H3 in H4. rewrite I3 in I4.
  assert (H5 : history s5 = [mkSnapshot h0 c0; mkSnapshot h1 c1; mkSnapshot h3 c3]).
  { unfold s5. rewrite push_after_rewind.
    - rewrite H4, I4. reflexivity.
    - unfold lastIndex. rewrite H4, I4. cbn [length]. lia. }
  assert (I5 : historyIndex s5 = 2%Z).
  { unfold s5. rewrite push_index. fold s5. unfold lastIndex. rewrite H5.
    reflexivity. }
  assert (E5 : historyIndex s5 = lastIndex s5).
  { unfold lastIndex. rewrite H5, I5. reflexivity. }
  destruct (push_buttons h3 c3 s4) as [_ B]. fold s5 in B.
  clearbody s5. repeat split; auto.
  - rewrite B, E5. apply Z.leb_refl.
  - induction n as [|n IH]; [reflexivity|].
    cbn [repeat]. unfold applyOps. cbn [fold_left applyOp].
    rewrite (clickRedo_at_end parseFromString outerHTML s5 E5). exact IH.
Qed.

(** C5.  In every state the page can reach, the undo click at cursor 0
    and the redo click at the last index change nothing at all (history,
    cursor, editors and the rest of the state), and the button of the move
    that cannot be made is disabled; for redo that holds once the history
    has a snapshot, before that the button is as the page's markup has
    it. *)
Theorem undo_redo_refuse_at_the_ends :
  forall s : State,
    reachable s ->
    (historyIndex s = 0%Z -> clickUndo s = s /\ undoBtn_disabled s = true)
    /\ (historyIndex s = lastIndex s ->
        clickRedo s = s /\ (history s <> [] -> redoBtn_disabled s = true)).
Proof.
  intros s R. apply reachable_invariant in R. split; intros E.
  - split; [now apply clickUndo_at_start|].
    destruct R as [[_ R]|[_ [B _]]]; [congruence|].
    now rewrite B, E.
  - split; [now apply clickRedo_at_end|].
    intros Hne. destruct R as [[R _]|[_ [_ B]]]; [congruence|].
    rewrite B, E. apply Z.leb_refl.
Qed.

(** C8.  A cursor that is a valid index stays one under every sequence of
    push, undo, redo and reset, so the snapshot at the cursor is there to
    be read; a push or a reset makes the cursor valid from any state; and
    in every state the page can reach, a history that is not empty has a
    valid cursor. *)
Theorem cursor_stays_valid :
  (forall (s : State) (ops : list HistoryOp),
      validCursor s ->
      validCursor (applyOps ops s)
      /\ history (applyOps ops s) <> []
      /\ exists snapshot,
           at_index (history (applyOps ops s)) (historyIndex (applyOps ops s))
           = Some snapshot)
  /\ (forall (s : State) (html css : string),
         validCursor (pushHistoryState html css s)
         /\ validCursor (resetHistory html css s))
  /\ (forall s : State,
         reachable s -> history s <> [] ->
         validCursor s
         /\ exists snapshot, at_index (history s) (historyIndex s) = Some snapshot).
Proof.
  split; [|split].
  - intros s ops V.
    pose proof (applyOps_valid parseFromString outerHTML ops V) as V'.
    split; [exact V'|]. split.
    + intros E. unfold validCursor, lastIndex in V'. rewrite E in V'.
      simpl in V'. lia.
    + now apply at_index_valid.
  - intros s html css. split; apply push_valid.
  - intros s R Hne. apply reachable_invariant in R.
    destruct R as [[R _]|[V _]]; [congruence|].
    split; [exact V | now apply at_index_valid].
Qed.

(** C6.  With an empty HTML editor or with no image recorded, the export
    click only shows its message: the state is the one before, no payload
    is fetched and no archive is made.  The earlier revision of the
    listener does the same with its own message. *)
Theorem export_needs_a_generated_site :
  forall (net : string -> option string) (s : State),
    htmlEditor s = "" \/ latestGeneratedImages s = [] ->
    clickExport net s = (s, [Alert MsgGenerateFirst])
    /\ clickExportEarlier net s = (s, [Alert MsgGenerateFirstEarlier]).
Proof.
  intros net s H. unfold clickExport, clickExportEarlier.
  assert (G : isEmptyString (htmlEditor s) || isEmptyList (latestGeneratedImages s)
              = true).
  { destruct H as [H|H]; rewrite H; [reflexivity | apply orb_true_r]. }
  now rewrite G.
Qed.

(** C10.  A prompt that is empty after trimming, or shorter than 15
    characters after trimming, is turned down: the listener makes no
    network call, shows a message, and leaves images, favicon, history,
    cursor, editors, preview and storage as they were.  With the model
    initialised the message is the one for a missing prompt or the one
    for a prompt that is too short. *)
Theorem short_prompt_is_rejected :
  forall (form : FormInput) (run : GenerationRun) (s : State),
    trim (inputValue form) = ""
    \/ (String.length (trim (inputValue form)) < 15)%nat ->
    existsb isNetworkCall (snd (submitForm form run s)) = false
    /\ (exists m, In (Alert m) (snd (submitForm form run s)))
    /\ samePipelineState s (fst (submitForm form run s))
    /\ (aiReady s = true ->
        snd (submitForm form run s)
        = if isEmptyString (trim (inputValue form))
          then [Alert MsgPromptMissing; FocusInput]
          else [Alert (MsgPromptTooShort 15); FocusInput]).
Proof.
  intros form run s H. unfold submitForm.
  destruct (aiReady s); cbn [negb].
  - destruct (isEmptyString (trim (inputValue form))) eqn:E.
    + repeat split; eauto. cbn. eauto.
    + destruct H as [H|H]; [apply isEmptyString_true in H; congruence|].
      unfold MIN_PROMPT_LENGTH.
      apply Nat.ltb_lt in H. rewrite H.
      repeat split; eauto. cbn. eauto.
  - repeat split; eauto; try discriminate. cbn. eauto.
Qed.

(** C1.  When the structured call parses and carries an array of image
    prompts, the run publishes one asset per prompt, in the order of the
    prompts: the asset keeps the prompt's id, its prompt is the refined
    text or the short prompt when refinement threw, and its URL is the
    rendered image or the failure placeholder when rendering threw.  No
    failure of a refinement, favicon or image call changes their number
    or order, the result is shown and no error message is.  The same
    holds from the form, for a prompt of at least 15 characters. *)
Theorem pipeline_keeps_every_placeholder :
  forall (run : GenerationRun) (detailedPrompt coreIdea lang : string) (s : State)
         (websiteData : WebsiteData) (prompts : list ImagePrompt),
    structuredOutcome run = StructuredData websiteData ->
    imagePrompts websiteData = Some prompts ->
    assetsFollowPrompts run prompts
      (latestGeneratedImages
         (fst (generateWebsite run detailedPrompt coreIdea lang s)))
    /\ resultContainer_hidden
         (fst (generateWebsite run detailedPrompt coreIdea lang s)) = false
    /\ existsb isAlert (snd (generateWebsite run detailedPrompt coreIdea lang s))
       = false
    /\ forall form : FormInput,
         aiReady s = true ->
         (MIN_PROMPT_LENGTH <= String.length (trim (inputValue form)))%nat ->
         assetsFollowPrompts run prompts
           (latestGeneratedImages (fst (submitForm form run s))).
Proof.
  intros run detailedPrompt coreIdea lang s websiteData prompts E1 E2.
  assert (A : forall dp ci lg,
             assetsFollowPrompts run prompts
               (latestGeneratedImages (fst (generateWebsite run dp ci lg s)))).
  { intros dp ci lg. unfold generateWebsite. rewrite E1, E2. cbn [fst].
    cbn [endGeneration setLoadingState set_generateBtn_disabled
           set_loadingContainer_hidden latestGeneratedImages].
    rewrite populateUI_images.
    unfold assetsFollowPrompts, generateImages, improveImagePrompts.
    rewrite generateImagesLoop_spec. cbn [app].
    split; [|split].
    - now rewrite renderFrom_length, improveFrom_length.
    - now rewrite renderFrom_ids, improveFrom_ids.
    - intros i p H. exists (assetOf run i p).
      rewrite renderFrom_nth, improveFrom_nth, H. cbn [option_map Nat.add].
      split; [reflexivity|]. unfold assetOf.
      rewrite renderImage_id, improvePrompt_id, renderImage_prompt.
      split; [reflexivity|]. split.
      + unfold improvePrompt. destruct (refinementText _ _ _); reflexivity.
      + unfold renderImage. destruct (imageBytes _ _ _); reflexivity. }
  split; [apply A|]. split; [|split].
  - unfold generateWebsite. rewrite E1, E2. cbn [fst].
    unfold populateUI. destruct (populateDocument _ _ _ _) as [css doc].
    reflexivity.
  - unfold generateWebsite. rewrite E1, E2. cbn [snd].
    rewrite !existsb_app, refinementCalls_no_alert, imageCalls_no_alert.
    reflexivity.
  - intros form Hai Hlen. unfold submitForm. rewrite Hai. cbn [negb].
    destruct (isEmptyString (trim (inputValue form))) eqn:E.
    + apply isEmptyString_true in E. rewrite E in Hlen.
      unfold MIN_PROMPT_LENGTH in Hlen. simpl in Hlen. lia.
    + apply Nat.ltb_ge in Hlen. rewrite Hlen. apply A.
Qed.

(** C2, as the script has it.  When the structured stage fails, the run
    ends with one message and nothing else sent; the editors, the history
    with its cursor and buttons, the preview, the gallery and the stored
    record are what they were, the input form is back and the result
    stays hidden.  The list of images and the favicon are not kept:
    [generateWebsite] clears both before it sends the request. *)
Theorem failed_generation_keeps_the_text :
  forall (run : GenerationRun) (detailedPrompt coreIdea lang : string) (s : State),
    structuredFails run ->
    abortedRun s (fst (generateWebsite run detailedPrompt coreIdea lang s))
    /\ exists m,
         snd (generateWebsite run detailedPrompt coreIdea lang s)
         = [GenerateContentCall detailedPrompt; Alert (MsgGeneration m)].
Proof.
  intros run detailedPrompt coreIdea lang s F.
  unfold structuredFails in F. unfold generateWebsite.
  destruct (structuredOutcome run) as [message|websiteData].
  - split; [repeat split | eexists; reflexivity].
  - rewrite F. split; [repeat split | eexists; reflexivity].
Qed.

(** C7, as the script has it.  For a document whose markup is not empty
    and whose full record the store accepted, loading from that store
    brings back the markup, the CSS, the images and the favicon as they
    were saved, starts the history with that one snapshot at cursor 0,
    hides the input form and shows the result. *)
Theorem load_restores_a_saved_site :
  forall (now : Z) (accepts : SavedData -> bool) (s s0 : State),
    htmlEditor s <> "" ->
    accepts (mkSavedData (htmlEditor s) (cssEditor s) (latestGeneratedImages s)
               (latestFavicon s) now) = true ->
    localStorage s0 = localStorage (saveStateToLocalStorage now accepts s) ->
    restoredFrom s (loadStateFromLocalStorage s0).
Proof.
  intros now accepts s s0 Hne Hacc Hs0.
  unfold saveStateToLocalStorage in Hs0.
  apply isEmptyString_false in Hne. rewrite Hne, Hacc in Hs0. cbn in Hs0.
  unfold loadStateFromLocalStorage. rewrite Hs0. cbn [sd_html]. rewrite Hne.
  cbn [sd_css sd_images sd_favicon].
  match goal with |- restoredFrom s (pushHistoryState ?h ?c ?st) =>
    destruct (push_frame h c st) as ((_ & E1 & E2 & E3 & E4 & _) & E5 & E6);
    destruct (push_on_empty h c st) as [H I]; [reflexivity|];
    unfold restoredFrom; rewrite E1, E2, E3, E4, E5, E6, H, I
  end.
  repeat split.
Qed.


End Claims.

(* ================================================================== *)
(** * The script run on the bakery *)
(* ================================================================== *)

(** The run of the bakery: the first refinement is trimmed and the first
    image failed, the second refinement failed and the second image
    rendered; both placeholders are there, in order. *)
Example bakery_run_assets :
  latestGeneratedImages
    (fst (generateWebsite parsePlainText serializePlain bakeryRun
            (detailedPromptOf "bakery landing page" bakeryForm)
            "bakery landing page" "English" blankPage))
  = [mkImage "hero-image" failedImageUrl "golden loaves on a shelf";
     mkImage "menu-image" "data:image/jpeg;base64,REVG" "pastry counter"].
Proof. vm_compute. reflexivity. Qed.

(** The export of the bakery: two payloads fetched, none for the image
    without an element, and an archive of the folder, two images and the
    page. *)
Example bakery_export_effects :
  exists finalHtml,
    snd (clickExport parseBakery serializePlain echoNet bakeryExportPage)
    = [FetchCall (img_url heroImage); FetchCall (img_url menuImage);
       DownloadZip "ai-generated-website.zip"
         [("images/", ZipFolder);
          ("images/hero_image.jpeg", ZipFile (img_url heroImage));
          ("images/menu_image.jpeg", ZipFile (img_url menuImage));
          ("index.html", ZipFile finalHtml)]].
Proof. eexists. vm_compute. reflexivity. Qed.

(** The markup [populateUI] puts in the editor is not a fixed point of
    the split when the document has two style blocks: each run takes one
    more of them out.  The resolved preview is. *)
Example style_split_takes_one_block_each_time :
  fst (populateDocument None "" "" bakeryDocument) = "body{}"
  /\ fst (populateDocument None "" ""
            (snd (populateDocument None "" "" bakeryDocument))) = "h1{}"
  /\ snd (populateDocument None "" ""
            (snd (populateDocument None "" "" bakeryDocument)))
     <> snd (populateDocument None "" "" bakeryDocument).
Proof. vm_compute. repeat split. discriminate. Qed.

(** [el.src = url] on an element of inline SVG writes no attribute: the
    [script] that has the id of an image is in the preview as it was in
    the markup, while an HTML [img] gets the URL. *)
Example svg_script_gets_no_src :
  docQuery (hasId "hero-image")
    (previewDocument [heroImage] None "" svgScriptDocument)
  = Some (mkTag SVG "script", [("id", "hero-image")])
  /\ docQuery (hasId "hero-image")
       (previewDocument [heroImage] None "" bakeryDocument)
     = Some (htmlTag "img",
             [("id", "hero-image"); ("alt", "bread"); ("src", img_url heroImage)]).
Proof. vm_compute. split; reflexivity. Qed.

Lemma blankPage_startup : startup blankPage.
Proof. repeat split. Qed.

(** C1 at the bakery run. *)
Lemma pipeline_keeps_every_placeholder_witness :
  assetsFollowPrompts bakeryRun bakeryPrompts
    (latestGeneratedImages
       (fst (generateWebsite parsePlainText serializePlain bakeryRun
               "bakery" "bakery landing page" "English" blankPage)))
  /\ assetsFollowPrompts bakeryRun bakeryPrompts
       (latestGeneratedImages
          (fst (submitForm parsePlainText serializePlain bakeryForm bakeryRun
                  blankPage))).
Proof.
  destruct (@pipeline_keeps_every_placeholder parsePlainText serializePlain
              bakeryRun "bakery" "bakery landing page" "English" blankPage
              (mkWebsiteData "Bakery" "Fresh bread daily" "" "wheat ear logo"
                 "Bakery" (Some bakeryPrompts)) bakeryPrompts eq_refl eq_refl)
    as (H1 & _ & _ & H4).
  split; [exact H1|]. apply H4.
  - reflexivity.
  - apply Nat.leb_le. reflexivity.
Defined.

(** C2 as stated fails: after a rejected structured call the images and
    the favicon of the site on the page are gone, and the export that
    worked before the attempt now asks to generate a site first. *)
Lemma failed_generation_drops_the_assets :
  structuredFails offlineRun
  /\ latestGeneratedImages
       (fst (generateWebsite parsePlainText serializePlain offlineRun
               "bakery" "bakery landing page" "English" bakeryPage))
     <> latestGeneratedImages bakeryPage
  /\ latestFavicon
       (fst (generateWebsite parsePlainText serializePlain offlineRun
               "bakery" "bakery landing page" "English" bakeryPage))
     <> latestFavicon bakeryPage
  /\ snd (clickExport parsePlainText serializePlain echoNet
            (fst (generateWebsite parsePlainText serializePlain offlineRun
                    "bakery" "bakery landing page" "English" bakeryPage)))
     = [Alert MsgGenerateFirst]
  /\ snd (clickExport parsePlainText serializePlain echoNet bakeryPage)
     <> [Alert MsgGenerateFirst].
Proof.
  split; [exact I|]. vm_compute. repeat split; discriminate.
Qed.

(** C2, as amended, at the same run. *)
Lemma failed_generation_keeps_the_text_witness :
  abortedRun bakeryPage
    (fst (generateWebsite parsePlainText serializePlain offlineRun
            "bakery" "bakery landing page" "English" bakeryPage))
  /\ exists m,
       snd (generateWebsite parsePlainText serializePlain offlineRun
              "bakery" "bakery landing page" "English" bakeryPage)
       = [GenerateContentCall "bakery"; Alert (MsgGeneration m)].
Proof.
  apply (@failed_generation_keeps_the_text parsePlainText serializePlain offlineRun
           "bakery" "bakery landing page" "English" bakeryPage).
  exact I.
Defined.



(** C5 after one click on the update button: the cursor is both first and
    last. *)
Lemma undo_redo_refuse_at_the_ends_witness :
  reachable parsePlainText serializePlain
    (clickUpdatePreview parsePlainText serializePlain blankPage)
  /\ clickUndo parsePlainText serializePlain
       (clickUpdatePreview parsePlainText serializePlain blankPage)
     = clickUpdatePreview parsePlainText serializePlain blankPage
  /\ undoBtn_disabled (clickUpdatePreview parsePlainText serializePlain blankPage)
     = true
  /\ clickRedo parsePlainText serializePlain
       (clickUpdatePreview parsePlainText serializePlain blankPage)
     = clickUpdatePreview parsePlainText serializePlain blankPage
  /\ redoBtn_disabled (clickUpdatePreview parsePlainText serializePlain blankPage)
     = true.
Proof.
  assert (R : reachable parsePlainText serializePlain
                (clickUpdatePreview parsePlainText serializePlain blankPage)).
  { exact (@reachable_step parsePlainText serializePlain blankPage
             ClickUpdatePreview
             (@reachable_startup parsePlainText serializePlain blankPage
                blankPage_startup)). }
  destruct (@undo_redo_refuse_at_the_ends parsePlainText serializePlain _ R)
    as [U V].
  destruct (U eq_refl) as [U1 U2]. destruct (V eq_refl) as [V1 V2].
  split; [exact R|]. split; [exact U1|]. split; [exact U2|].
  split; [exact V1|]. apply V2. apply push_nonempty.
Defined.

(** C6 at the blank page. *)
Lemma export_needs_a_generated_site_witness :
  clickExport parsePlainText serializePlain echoNet blankPage
  = (blankPage, [Alert MsgGenerateFirst])
  /\ clickExportEarlier parsePlainText serializePlain echoNet blankPage
     = (blankPage, [Alert MsgGenerateFirstEarlier]).
Proof.
  apply (@export_needs_a_generated_site parsePlainText serializePlain echoNet
           blankPage).
  left. reflexivity.
Defined.

(** C7 as stated fails: a site whose HTML editor was emptied is saved,
    and the load that follows restores neither its CSS nor its images. *)
Lemma cleared_site_is_not_restored :
  localStorage (saveStateToLocalStorage 0 (fun _ => true) clearedPage)
  = Some (JsonOf (mkSavedData "" "body{}" [heroImage; menuImage]
                    (Some bakeryIcon) 0))
  /\ cssEditor
       (loadStateFromLocalStorage parsePlainText serializePlain
          (set_localStorage
             (localStorage (saveStateToLocalStorage 0 (fun _ => true) clearedPage))
             blankPage))
     <> cssEditor clearedPage
  /\ latestGeneratedImages
       (loadStateFromLocalStorage parsePlainText serializePlain
          (set_localStorage
             (localStorage (saveStateToLocalStorage 0 (fun _ => true) clearedPage))
             blankPage))
     <> latestGeneratedImages clearedPage.
Proof. vm_compute. repeat split; discriminate. Qed.

(** C7, as amended, at the bakery page. *)
Lemma load_restores_a_saved_site_witness :
  restoredFrom bakeryPage
    (loadStateFromLocalStorage parsePlainText serializePlain
       (set_localStorage
          (localStorage (saveStateToLocalStorage 0 (fun _ => true) bakeryPage))
          blankPage)).
Proof.
  apply (@load_restores_a_saved_site parsePlainText serializePlain 0
           (fun _ => true) bakeryPage).
  - discriminate.
  - reflexivity.
  - reflexivity.
Defined.

Lemma bakeryPage_validCursor : validCursor bakeryPage.
Proof. unfold validCursor. cbn. lia. Qed.

(** C8 on the bakery page: an edit, two undo clicks and a redo click. *)
Lemma cursor_stays_valid_witness :
  validCursor
    (applyOps parsePlainText serializePlain
       [OpPush "Bakery!" "body{}"; OpUndo; OpUndo; OpRedo] bakeryPage)
  /\ history
       (applyOps parsePlainText serializePlain
          [OpPush "Bakery!" "body{}"; OpUndo; OpUndo; OpRedo] bakeryPage) <> []
  /\ exists snapshot,
       at_index
         (history
            (applyOps parsePlainText serializePlain
               [OpPush "Bakery!" "body{}"; OpUndo; OpUndo; OpRedo] bakeryPage))
         (historyIndex
            (applyOps parsePlainText serializePlain
               [OpPush "Bakery!" "body{}"; OpUndo; OpUndo; OpRedo] bakeryPage))
       = Some snapshot.
Proof.
  apply (proj1 (cursor_stays_valid parsePlainText serializePlain)).
  exact bakeryPage_validCursor.
Defined.

(** C10 on a prompt of nine characters. *)
Lemma short_prompt_is_rejected_witness :
  existsb isNetworkCall
    (snd (submitForm parsePlainText serializePlain
            (mkFormInput "  too short  " "Landing Page" "English" "2" [])
            bakeryRun bakeryPage)) = false
  /\ samePipelineState bakeryPage
       (fst (submitForm parsePlainText serializePlain
               (mkFormInput "  too short  " "Landing Page" "English" "2" [])
               bakeryRun bakeryPage)).
Proof.
  destruct (@short_prompt_is_rejected parsePlainText serializePlain
              (mkFormInput "  too short  " "Landing Page" "English" "2" [])
              bakeryRun bakeryPage) as (H1 & _ & H3 & _).
  - right. apply Nat.ltb_lt. reflexivity.
  - split; assumption.
Defined.

(* ================================================================== *)
(** * Further properties of the script *)
(* ================================================================== *)

Lemma renderFrom_urls (run : GenerationRun) (prompts : list ImagePrompt) :
  forall index asset,
    In asset (renderFrom run index prompts) -> img_url asset <> "".
Proof.
  induction prompts as [|p rest IH]; simpl; intros index asset H; [contradiction|].
  destruct H as [<-|H]; [|now apply IH in H].
  unfold renderImage. destruct (imageBytes _ _ _); discriminate.
Qed.

Lemma lowerChar_safe (c : ascii) :
  let c' := lowerChar (if isAlphaNumeric c then c else "_"%char) in
  isLowerAscii c' || isDigitAscii c' || Ascii.eqb c' "_"%char = true.
Proof.
  destruct c as [[] [] [] [] [] [] [] []]; vm_compute; reflexivity.
Qed.

Section Further.

Variable parseFromString : string -> Document.
Variable outerHTML : Document -> string.

Local Abbreviation clickUndo := (clickUndo parseFromString outerHTML).
Local Abbreviation clickRedo := (clickRedo parseFromString outerHTML).
Local Abbreviation loadStateFromHistory := (loadStateFromHistory parseFromString outerHTML).
Local Abbreviation generateWebsite := (generateWebsite parseFromString outerHTML).
Local Abbreviation populateUI := (populateUI parseFromString outerHTML).
Local Abbreviation exportSite := (exportSite parseFromString outerHTML).
Local Abbreviation loadStateFromLocalStorage :=
  (loadStateFromLocalStorage parseFromString outerHTML).

(** X1.  Every asset a successful run publishes has a URL that is not
    empty: the rendered image as a data URL, or the failure placeholder. *)
Theorem published_assets_have_urls :
  forall (run : GenerationRun) (detailedPrompt coreIdea lang : string) (s : State)
         (websiteData : WebsiteData) (prompts : list ImagePrompt) (asset : Image),
    structuredOutcome run = StructuredData websiteData ->
    imagePrompts websiteData = Some prompts ->
    In asset
       (latestGeneratedImages
          (fst (generateWebsite run detailedPrompt coreIdea lang s))) ->
    img_url asset <> "".
Proof.
  intros run detailedPrompt coreIdea lang s websiteData prompts asset E1 E2.
  unfold generateWebsite. rewrite E1, E2. cbn [fst].
  cbn [endGeneration setLoadingState set_generateBtn_disabled
         set_loadingContainer_hidden latestGeneratedImages].
  rewrite populateUI_images. unfold generateImages.
  rewrite generateImagesLoop_spec. cbn [app]. apply renderFrom_urls.
Qed.

(** X2.  A save the store refuses for lack of room is tried again without
    the images and the favicon: when that record is accepted it is what
    the store holds, when it is refused too the state is as before.  A
    save changes nothing but the stored record. *)
Theorem save_degrades_without_images :
  forall (now : Z) (accepts : SavedData -> bool) (s : State),
    accepts (mkSavedData (htmlEditor s) (cssEditor s) (latestGeneratedImages s)
               (latestFavicon s) now) = false ->
    (htmlEditor s <> "" \/ latestGeneratedImages s <> []) ->
    (accepts (mkSavedData (htmlEditor s) (cssEditor s) [] None now) = true ->
     localStorage (saveStateToLocalStorage now accepts s)
     = Some (JsonOf (mkSavedData (htmlEditor s) (cssEditor s) [] None now)))
    /\ (accepts (mkSavedData (htmlEditor s) (cssEditor s) [] None now) = false ->
        saveStateToLocalStorage now accepts s = s)
    /\ set_localStorage (localStorage s) (saveStateToLocalStorage now accepts s)
       = s.
Proof.
  intros now accepts s Hfull Hdoc. unfold saveStateToLocalStorage.
  assert (G : isEmptyString (htmlEditor s) && isEmptyList (latestGeneratedImages s)
              = false).
  { destruct Hdoc as [H|H].
    - apply isEmptyString_false in H. now rewrite H.
    - destruct (latestGeneratedImages s); [congruence|]. apply andb_false_r. }
  rewrite G, Hfull.
  destruct (accepts (mkSavedData (htmlEditor s) (cssEditor s) [] None now));
    repeat split; try discriminate; destruct s; reflexivity.
Qed.

(** X5.  A successful generation leaves a history of one snapshot: the
    markup [populateUI] serialised for the HTML editor and the style text
    it took out of the reply, which are also what the preview was made
    from.  The cursor is on that snapshot and both buttons are
    disabled. *)
Theorem generation_restarts_the_history :
  forall (run : GenerationRun) (detailedPrompt coreIdea lang : string) (s : State)
         (websiteData : WebsiteData) (prompts : list ImagePrompt),
    structuredOutcome run = StructuredData websiteData ->
    imagePrompts websiteData = Some prompts ->
    let s' := fst (generateWebsite run detailedPrompt coreIdea lang s) in
    let parsed :=
      populateDocument (generateFavicon run (faviconPrompt websiteData))
        (metaDescription websiteData) (metaKeywords websiteData)
        (parseFromString (htmlContent websiteData)) in
    history s' = [mkSnapshot (outerHTML (snd parsed)) (fst parsed)]
    /\ historyIndex s' = 0%Z
    /\ undoBtn_disabled s' = true /\ redoBtn_disabled s' = true
    /\ latestFavicon s' = generateFavicon run (faviconPrompt websiteData)
    /\ previewFrame_srcdoc s'
       = outerHTML
           (previewDocument (latestGeneratedImages s') (latestFavicon s')
              (fst parsed) (parseFromString (outerHTML (snd parsed)))).
Proof.
  intros run detailedPrompt coreIdea lang s websiteData prompts E1 E2.
  unfold generateWebsite. rewrite E1, E2. cbn [fst].
  unfold populateUI. cbn [latestFavicon set_latestFavicon set_latestGeneratedImages].
  destruct (populateDocument _ _ _ _) as [css doc]. cbv zeta.
  repeat split; reflexivity.
Qed.

(** X6.  Start-up restores nothing when the store holds no record, a
    record that does not parse, or a record whose markup is empty. *)
Theorem load_tolerates_missing_data :
  forall s : State,
    (localStorage s = None
     \/ (exists raw, localStorage s = Some (NotJson raw))
     \/ (exists data, localStorage s = Some (JsonOf data) /\ sd_html data = "")) ->
    loadStateFromLocalStorage s = s.
Proof.
  intros s [H|[[raw H]|[data [H E]]]]; unfold loadStateFromLocalStorage; rewrite H;
    try reflexivity.
  rewrite E. reflexivity.
Qed.

End Further.

(** X7.  The file name made from an asset id has as many characters as
    the id, each a lower-case letter, a digit or an underscore. *)
Theorem safeId_alphabet :
  forall id : string,
    String.length (safeId id) = String.length id
    /\ Forall (fun c => isLowerAscii c || isDigitAscii c || Ascii.eqb c "_"%char
                       = true)
         (list_ascii_of_string (safeId id)).
Proof.
  induction id as [|c rest [IH1 IH2]]; [split; [reflexivity|constructor]|].
  split.
  - cbn. f_equal. exact IH1.
  - cbn. constructor; [apply lowerChar_safe|exact IH2].
Qed.

(** X1 at the bakery run: the asset of the image that failed. *)
Lemma published_assets_have_urls_witness :
  img_url (mkImage "hero-image" failedImageUrl "golden loaves on a shelf") <> "".
Proof.
  apply (@published_assets_have_urls parsePlainText serializePlain bakeryRun
           "bakery" "bakery landing page" "English" blankPage
           (mkWebsiteData "Bakery" "Fresh bread daily" "" "wheat ear logo"
              "Bakery" (Some bakeryPrompts)) bakeryPrompts
           (mkImage "hero-image" failedImageUrl "golden loaves on a shelf")
           eq_refl eq_refl).
  vm_compute. left. reflexivity.
Defined.

(** X2 on the bakery page, with a store that has room for the text only. *)
Lemma save_degrades_without_images_witness :
  localStorage
    (saveStateToLocalStorage 0 (fun data => isEmptyList (sd_images data)) bakeryPage)
  = Some (JsonOf (mkSavedData (htmlEditor bakeryPage) (cssEditor bakeryPage) []
                    None 0)).
Proof.
  destruct (@save_degrades_without_images 0
              (fun data => isEmptyList (sd_images data)) bakeryPage)
    as (H & _ & _).
  - reflexivity.
  - left. discriminate.
  - apply H. reflexivity.
Defined.

(** X5 at the bakery run. *)
Lemma generation_restarts_the_history_witness :
  length
    (history
       (fst (generateWebsite parsePlainText serializePlain bakeryRun
               "bakery" "bakery landing page" "English" bakeryPage))) = 1%nat
  /\ historyIndex
       (fst (generateWebsite parsePlainText serializePlain bakeryRun
               "bakery" "bakery landing page" "English" bakeryPage)) = 0%Z.
Proof.
  destruct (@generation_restarts_the_history parsePlainText serializePlain
              bakeryRun "bakery" "bakery landing page" "English" bakeryPage
              (mkWebsiteData "Bakery" "Fresh bread daily" "" "wheat ear logo"
                 "Bakery" (Some bakeryPrompts)) bakeryPrompts eq_refl eq_refl)
    as (G & H & _).
  split; [rewrite G; reflexivity|exact H].
Defined.

(** X6 on the blank page, whose store is empty. *)
Lemma load_tolerates_missing_data_witness :
  loadStateFromLocalStorage parsePlainText serializePlain blankPage = blankPage.
Proof.
  apply (@load_tolerates_missing_data parsePlainText serializePlain blankPage).
  left. reflexivity.
Defined.

(* ================================================================== *)
(** * The history under repeated clicks *)
(* ================================================================== *)

Lemma repeat_snoc (A : Type) (x : A) (n : nat) :
  repeat x (S n) = repeat x n ++ [x].
Proof. induction n as [|n IH]; [reflexivity|]. cbn [repeat app] in *. now rewrite <- IH. Qed.

Section RepeatedClicks.

Variable parseFromString : string -> Document.
Variable outerHTML : Document -> string.

Local Abbreviation clickUndo := (clickUndo parseFromString outerHTML).
Local Abbreviation clickRedo := (clickRedo parseFromString outerHTML).
Local Abbreviation loadStateFromHistory := (loadStateFromHistory parseFromString outerHTML).
Local Abbreviation applyOp := (applyOp parseFromString outerHTML).
Local Abbreviation applyOps := (applyOps parseFromString outerHTML).
Local Abbreviation populateUI := (populateUI parseFromString outerHTML).
Local Abbreviation updatePreview := (updatePreview parseFromString outerHTML).
Local Abbreviation clickUpdatePreview := (clickUpdatePreview parseFromString outerHTML).
Local Abbreviation runEvents := (runEvents parseFromString outerHTML).

Lemma applyOps_app (ops1 ops2 : list HistoryOp) (s : State) :
  applyOps (ops1 ++ ops2) s = applyOps ops2 (applyOps ops1 s).
Proof. unfold applyOps. apply fold_left_app. Qed.

Lemma clickRedo_moves (s : State) :
  (historyIndex s < lastIndex s)%Z ->
  history (clickRedo s) = history s
  /\ historyIndex (clickRedo s) = (historyIndex s + 1)%Z.
Proof.
  intros H. unfold clickRedo.
  destruct (historyIndex s <? lastIndex s)%Z eqn:E; [|apply Z.ltb_ge in E; lia].
  destruct (load_history parseFromString outerHTML
              (set_historyIndex (historyIndex s + 1)%Z s)) as [E1 E2].
  rewrite E1, E2. split; reflexivity.
Qed.

(** What [loadStateFromHistory] shows: the snapshot at the cursor in both
    editors, and its preview. *)
Lemma load_shows (s : State) (snapshot : Snapshot) :
  at_index (history s) (historyIndex s) = Some snapshot ->
  htmlEditor (loadStateFromHistory s) = snap_html snapshot
  /\ cssEditor (loadStateFromHistory s) = snap_css snapshot
  /\ previewFrame_srcdoc (loadStateFromHistory s)
     = outerHTML
         (previewDocument (latestGeneratedImages s) (latestFavicon s)
            (snap_css snapshot) (parseFromString (snap_html snapshot))).
Proof.
  intros E. unfold loadStateFromHistory. rewrite E. repeat split.
Qed.

Lemma clickUndo_shows (s : State) (snapshot : Snapshot) :
  (0 < historyIndex s)%Z ->
  at_index (history s) (historyIndex s - 1) = Some snapshot ->
  htmlEditor (clickUndo s) = snap_html snapshot
  /\ cssEditor (clickUndo s) = snap_css snapshot
  /\ previewFrame_srcdoc (clickUndo s)
     = outerHTML
         (previewDocument (latestGeneratedImages s) (latestFavicon s)
            (snap_css snapshot) (parseFromString (snap_html snapshot))).
Proof.
  intros H E. unfold clickUndo.
  destruct (0 <? historyIndex s)%Z eqn:E0; [|apply Z.ltb_ge in E0; lia].
  apply (load_shows (set_historyIndex (historyIndex s - 1) s)). exact E.
Qed.

Lemma clickRedo_shows (s : State) (snapshot : Snapshot) :
  (historyIndex s < lastIndex s)%Z ->
  at_index (history s) (historyIndex s + 1) = Some snapshot ->
  htmlEditor (clickRedo s) = snap_html snapshot
  /\ cssEditor (clickRedo s) = snap_css snapshot
  /\ previewFrame_srcdoc (clickRedo s)
     = outerHTML
         (previewDocument (latestGeneratedImages s) (latestFavicon s)
            (snap_css snapshot) (parseFromString (snap_html snapshot))).
Proof.
  intros H E. unfold clickRedo.
  destruct (historyIndex s <? lastIndex s)%Z eqn:E0; [|apply Z.ltb_ge in E0; lia].
  apply (load_shows (set_historyIndex (historyIndex s + 1) s)). exact E.
Qed.

Lemma undo_times (k : nat) (s : State) :
  (Z.of_nat k <= historyIndex s)%Z ->
  history (applyOps (repeat OpUndo k) s) = history s
  /\ historyIndex (applyOps (repeat OpUndo k) s) = (historyIndex s - Z.of_nat k)%Z.
Proof.
  revert s. induction k as [|k IH]; intros s H.
  - split; [reflexivity|]. cbn. lia.
  - rewrite repeat_snoc, applyOps_app.
    destruct (IH s ltac:(lia)) as [H1 I1].
    set (s1 := applyOps (repeat OpUndo k) s) in *.
    change (applyOps [OpUndo] s1) with (clickUndo s1).
    destruct (clickUndo_moves parseFromString outerHTML s1 ltac:(lia)) as [H2 I2].
    rewrite H2, I2, H1, I1. split; [reflexivity|lia].
Qed.

Lemma redo_times (k : nat) (s : State) :
  (historyIndex s + Z.of_nat k <= lastIndex s)%Z ->
  history (applyOps (repeat OpRedo k) s) = history s
  /\ historyIndex (applyOps (repeat OpRedo k) s) = (historyIndex s + Z.of_nat k)%Z.
Proof.
  revert s. induction k as [|k IH]; intros s H.
  - split; [reflexivity|]. cbn. lia.
  - rewrite repeat_snoc, applyOps_app.
    destruct (IH s ltac:(lia)) as [H1 I1].
    set (s1 := applyOps (repeat OpRedo k) s) in *.
    change (applyOps [OpRedo] s1) with (clickRedo s1).
    assert (L : lastIndex s1 = lastIndex s) by (unfold lastIndex; now rewrite H1).
    destruct (clickRedo_moves s1 ltac:(lia)) as [H2 I2].
    rewrite H2, I2, H1, I1. split; [reflexivity|lia].
Qed.

Lemma populateUI_fields (html : string) (images : list Image)
    (metaDesc metaKeywords : string) (s : State) :
  history (populateUI html images metaDesc metaKeywords s)
  = [mkSnapshot (htmlEditor (populateUI html images metaDesc metaKeywords s))
       (cssEditor (populateUI html images metaDesc metaKeywords s))]
  /\ historyIndex (populateUI html images metaDesc metaKeywords s) = 0%Z
  /\ previewFrame_srcdoc (populateUI html images metaDesc metaKeywords s)
     = outerHTML
         (previewDocument images (latestFavicon s)
            (cssEditor (populateUI html images metaDesc metaKeywords s))
            (parseFromString
               (htmlEditor (populateUI html images metaDesc metaKeywords s)))).
Proof.
  unfold populateUI. destruct (populateDocument _ _ _ _) as [css doc].
  cbv zeta. split; [reflexivity|]. split; reflexivity.
Qed.

Lemma populateUI_editors (html : string) (images : list Image)
    (metaDesc metaKeywords : string) (s : State) :
  htmlEditor (populateUI html images metaDesc metaKeywords s)
  = outerHTML
      (snd (populateDocument (latestFavicon s) metaDesc metaKeywords
              (parseFromString html)))
  /\ cssEditor (populateUI html images metaDesc metaKeywords s)
     = fst (populateDocument (latestFavicon s) metaDesc metaKeywords
              (parseFromString html)).
Proof.
  unfold populateUI. cbn [latestFavicon set_latestGeneratedImages].
  destruct (populateDocument _ _ _ _) as [css doc].
  cbv zeta. split; reflexivity.
Qed.

Lemma load_assets (s : State) :
  latestGeneratedImages (loadStateFromHistory s) = latestGeneratedImages s
  /\ latestFavicon (loadStateFromHistory s) = latestFavicon s.
Proof.
  unfold loadStateFromHistory.
  destruct (at_index (history s) (historyIndex s)); split; reflexivity.
Qed.

Lemma clickUndo_assets (s : State) :
  latestGeneratedImages (clickUndo s) = latestGeneratedImages s
  /\ latestFavicon (clickUndo s) = latestFavicon s.
Proof.
  unfold clickUndo. destruct (0 <? historyIndex s)%Z; [|split; reflexivity].
  apply (load_assets (set_historyIndex (historyIndex s - 1) s)).
Qed.

Lemma clickRedo_assets (s : State) :
  latestGeneratedImages (clickRedo s) = latestGeneratedImages s
  /\ latestFavicon (clickRedo s) = latestFavicon s.
Proof.
  unfold clickRedo. destruct (historyIndex s <? lastIndex s)%Z; [|split; reflexivity].
  apply (load_assets (set_historyIndex (historyIndex s + 1) s)).
Qed.

Lemma undo_times_assets (k : nat) (s : State) :
  latestGeneratedImages (applyOps (repeat OpUndo k) s) = latestGeneratedImages s
  /\ latestFavicon (applyOps (repeat OpUndo k) s) = latestFavicon s.
Proof.
  induction k as [|k [IH1 IH2]]; [split; reflexivity|].
  rewrite repeat_snoc, applyOps_app.
  change (applyOps [OpUndo] ?x) with (clickUndo x).
  destruct (clickUndo_assets (applyOps (repeat OpUndo k) s)) as [A B].
  rewrite A, B. now split.
Qed.

Lemma redo_times_assets (k : nat) (s : State) :
  latestGeneratedImages (applyOps (repeat OpRedo k) s) = latestGeneratedImages s
  /\ latestFavicon (applyOps (repeat OpRedo k) s) = latestFavicon s.
Proof.
  induction k as [|k [IH1 IH2]]; [split; reflexivity|].
  rewrite repeat_snoc, applyOps_app.
  change (applyOps [OpRedo] ?x) with (clickRedo x).
  destruct (clickRedo_assets (applyOps (repeat OpRedo k) s)) as [A B].
  rewrite A, B. now split.
Qed.

(** X4.  Undo and redo are inverse where the cursor can move: from a
    valid cursor, [k] undo clicks followed by [k] redo clicks, for [k] at
    most the cursor, come back to the same history and cursor, and so do
    [k] redo clicks followed by [k] undo clicks when [k] snapshots lie
    after the cursor.  For [k] above zero, the preview then shows the
    snapshot at the cursor, with the images and the favicon of the
    page. *)
Theorem undo_and_redo_are_inverse :
  forall (s : State) (k : nat),
    validCursor s ->
    ((Z.of_nat k <= historyIndex s)%Z ->
     history (applyOps (repeat OpUndo k ++ repeat OpRedo k) s) = history s
     /\ historyIndex (applyOps (repeat OpUndo k ++ repeat OpRedo k) s)
        = historyIndex s
     /\ ((0 < k)%nat ->
         exists snapshot,
           at_index (history s) (historyIndex s) = Some snapshot
           /\ previewFrame_srcdoc
                (applyOps (repeat OpUndo k ++ repeat OpRedo k) s)
              = outerHTML
                  (previewDocument (latestGeneratedImages s) (latestFavicon s)
                     (snap_css snapshot) (parseFromString (snap_html snapshot)))))
    /\ ((historyIndex s + Z.of_nat k <= lastIndex s)%Z ->
        history (applyOps (repeat OpRedo k ++ repeat OpUndo k) s) = history s
        /\ historyIndex (applyOps (repeat OpRedo k ++ repeat OpUndo k) s)
           = historyIndex s
        /\ ((0 < k)%nat ->
            exists snapshot,
              at_index (history s) (historyIndex s) = Some snapshot
              /\ previewFrame_srcdoc
                   (applyOps (repeat OpRedo k ++ repeat OpUndo k) s)
                 = outerHTML
                     (previewDocument (latestGeneratedImages s) (latestFavicon s)
                        (snap_css snapshot)
                        (parseFromString (snap_html snapshot))))).
Proof.
  intros s k V.
  destruct (at_index_valid (history s) V) as [snapshot E].
  assert (V' := V). unfold validCursor in V'.
  split; intros Hk.
  - rewrite applyOps_app.
    destruct (undo_times k s Hk) as [H1 I1].
    destruct (undo_times_assets k s) as [G1 F1].
    set (s1 := applyOps (repeat OpUndo k) s) in *.
    assert (L1 : lastIndex s1 = lastIndex s) by (unfold lastIndex; now rewrite H1).
    destruct (redo_times k s1 ltac:(lia)) as [H2 I2].
    split; [now rewrite H2|]. split; [rewrite I2, I1; lia|].
    intros Hpos. exists snapshot. split; [exact E|].
    destruct k as [|k]; [lia|].
    rewrite repeat_snoc, applyOps_app.
    destruct (redo_times k s1 ltac:(lia)) as [H3 I3].
    destruct (redo_times_assets k s1) as [G3 F3].
    set (s2 := applyOps (repeat OpRedo k) s1) in *.
    change (applyOps [OpRedo] s2) with (clickRedo s2).
    assert (L2 : lastIndex s2 = lastIndex s) by (unfold lastIndex; now rewrite H3, H1).
    destruct (@clickRedo_shows s2 snapshot) as (_ & _ & P).
    + lia.
    + rewrite H3, H1, I3, I1, <- E. f_equal. lia.
    + rewrite P, G3, F3, G1, F1. reflexivity.
  - rewrite applyOps_app.
    destruct (redo_times k s Hk) as [H1 I1].
    destruct (redo_times_assets k s) as [G1 F1].
    set (s1 := applyOps (repeat OpRedo k) s) in *.
    destruct (undo_times k s1 ltac:(lia)) as [H2 I2].
    split; [now rewrite H2|]. split; [rewrite I2, I1; lia|].
    intros Hpos. exists snapshot. split; [exact E|].
    destruct k as [|k]; [lia|].
    rewrite repeat_snoc, applyOps_app.
    destruct (undo_times k s1 ltac:(lia)) as [H3 I3].
    destruct (undo_times_assets k s1) as [G3 F3].
    set (s2 := applyOps (repeat OpUndo k) s1) in *.
    change (applyOps [OpUndo] s2) with (clickUndo s2).
    destruct (@clickUndo_shows s2 snapshot) as (_ & _ & P).
    + lia.
    + rewrite H3, H1, I3, I1, <- E. f_equal. lia.
    + rewrite P, G3, F3, G1, F1. reflexivity.
Qed.

(** X8.  After a generation, an edit of both editors and a click on the
    update button, the history holds two snapshots: the markup and the
    style text [populateUI] made of the reply, and the two texts read
    from the editors at the click.  One undo click shows the generated
    site again (both editors and the preview as [populateUI] left them)
    and keeps the edit in the history, where one redo click finds it. *)
Theorem undo_restores_the_generated_site :
  forall (html : string) (images : list Image) (metaDesc metaKeywords : string)
         (s0 : State) (editedHtml editedCss : string),
    let s1 := populateUI html images metaDesc metaKeywords s0 in
    let s2 :=
      runEvents [EditHtml editedHtml; EditCss editedCss; ClickUpdatePreview] s1 in
    let parsed :=
      populateDocument (latestFavicon s0) metaDesc metaKeywords
        (parseFromString html) in
    history s2
    = [mkSnapshot (outerHTML (snd parsed)) (fst parsed);
       mkSnapshot editedHtml editedCss]
    /\ htmlEditor (clickUndo s2) = htmlEditor s1
    /\ cssEditor (clickUndo s2) = cssEditor s1
    /\ previewFrame_srcdoc (clickUndo s2) = previewFrame_srcdoc s1
    /\ history (clickUndo s2) = history s2
    /\ redoBtn_disabled (clickUndo s2) = false
    /\ htmlEditor (clickRedo (clickUndo s2)) = editedHtml
    /\ cssEditor (clickRedo (clickUndo s2)) = editedCss
    /\ previewFrame_srcdoc (clickRedo (clickUndo s2)) = previewFrame_srcdoc s2.
Proof.
  intros html images metaDesc metaKeywords s0 editedHtml editedCss.
  destruct (populateUI_fields html images metaDesc metaKeywords s0)
    as (H1 & I1 & P1).
  destruct (populateUI_editors html images metaDesc metaKeywords s0)
    as (A1 & B1).
  assert (G1 := populateUI_images parseFromString outerHTML html images
                  metaDesc metaKeywords s0).
  assert (F1 := populateUI_favicon parseFromString outerHTML html images
                  metaDesc metaKeywords s0).
  set (s1 := populateUI html images metaDesc metaKeywords s0) in *.
  clearbody s1. cbv zeta.
  unfold runEvents. cbn [fold_left step fst].
  unfold clickUpdatePreview.
  cbn [htmlEditor cssEditor set_cssEditor set_htmlEditor].
  set (u := updatePreview editedHtml editedCss
              (set_cssEditor editedCss (set_htmlEditor editedHtml s1))).
  assert (Hu : history u = history s1) by reflexivity.
  assert (Iu : historyIndex u = historyIndex s1) by reflexivity.
  assert (Gu : latestGeneratedImages u = latestGeneratedImages s1) by reflexivity.
  assert (Fu : latestFavicon u = latestFavicon s1) by reflexivity.
  assert (Pu : previewFrame_srcdoc u
               = outerHTML (previewDocument (latestGeneratedImages s1)
                              (latestFavicon s1) editedCss
                              (parseFromString editedHtml))) by reflexivity.
  clearbody u.
  destruct (push_at_end editedHtml editedCss u) as [H2 I2].
  { unfold lastIndex. now rewrite Hu, Iu, H1, I1. }
  destruct (push_frame editedHtml editedCss u)
    as ((_ & G2 & F2 & _ & _ & P2 & _) & _).
  assert (V2 := push_invariant editedHtml editedCss u).
  set (s2 := pushHistoryState editedHtml editedCss u) in *.
  rewrite Hu, H1 in H2, I2. cbn [app length] in H2, I2.
  clearbody s2.
  destruct (clickUndo_moves parseFromString outerHTML s2) as [H3 I3];
    [rewrite I2; reflexivity|].
  destruct (@clickUndo_shows s2
              (mkSnapshot (htmlEditor s1) (cssEditor s1)))
    as (A3 & B3 & P3); [rewrite I2; reflexivity|now rewrite H2, I2|].
  cbn [snap_html snap_css] in A3, B3, P3.
  destruct (clickUndo_assets s2) as [G3 F3].
  assert (V3 := clickUndo_invariant parseFromString outerHTML V2).
  set (s3 := clickUndo s2) in *. clearbody s3.
  destruct (@clickRedo_shows s3 (mkSnapshot editedHtml editedCss))
    as (A4 & B4 & P4).
  { unfold lastIndex. rewrite H3, I3, H2, I2. reflexivity. }
  { rewrite H3, I3, H2, I2. reflexivity. }
  cbn [snap_html snap_css] in A4, B4, P4.
  split; [rewrite <- A1, <- B1; exact H2|]. split; [exact A3|]. split; [exact B3|].
  split; [rewrite P3, P1, G2, F2, Gu, Fu, G1, F1; reflexivity|].
  split; [exact H3|]. split.
  { destruct V3 as [[E _]|[_ [_ B]]]; [rewrite H3, H2 in E; discriminate|].
    rewrite B. unfold lastIndex. rewrite H3, I3, H2, I2. reflexivity. }
  split; [exact A4|]. split; [exact B4|].
  rewrite P4, P2, Pu, G3, F3, G2, F2, Gu, Fu. reflexivity.
Qed.

End RepeatedClicks.

(* ================================================================== *)
(** * The export: what is fetched, what the archive holds *)
(* ================================================================== *)

Lemma exportImages_app (net : string -> option string) (l1 l2 : list Image) :
  forall doc zip log,
    exportImages net (l1 ++ l2) doc zip log
    = match exportImages net l1 doc zip log with
      | (Some (doc1, zip1), log1) => exportImages net l2 doc1 zip1 log1
      | (None, log1) => (None, log1)
      end.
Proof.
  induction l1 as [|i l1 IH]; intros doc zip log; [reflexivity|].
  cbn [app exportImages].
  destruct (negb (docHasId (img_id i) doc)); [apply IH|].
  destruct (net (img_url i)); [apply IH|reflexivity].
Qed.

(** The fetches of the loop: each is for the URL of one of the images,
    every one but the last was answered, and the last was answered when
    the loop came to its end. *)
Lemma exportImages_log (net : string -> option string) :
  forall images doc zip log result log',
    exportImages net images doc zip log = (result, log') ->
    exists urls,
      log' = log ++ map FetchCall urls
      /\ incl urls (map img_url images)
      /\ (forall url, In url (removelast urls) -> net url <> None)
      /\ (result <> None -> forall url, In url urls -> net url <> None)
      /\ (result = None -> exists url, last urls url = url /\ urls <> []
                                       /\ net (last urls url) = None).
Proof.
  induction images as [|i rest IH]; intros doc zip log result log' E.
  - cbn in E. inversion E; subst. exists []. rewrite app_nil_r.
    repeat split; try (intros ? []); try easy.
  - cbn [exportImages] in E.
    destruct (negb (docHasId (img_id i) doc)).
    + destruct (IH _ _ _ _ _ E) as (urls & L & I & A & B & C).
      exists urls. repeat split; auto.
      intros u Hu. right. now apply I.
    + destruct (net (img_url i)) as [blob|] eqn:Hn.
      * destruct (IH _ _ _ _ _ E) as (urls & L & I & A & B & C).
        exists (img_url i :: urls). rewrite L, <- app_assoc.
        split; [reflexivity|]. split; [|split; [|split]].
        -- intros u [<-|Hu]; [now left|right; now apply I].
        -- intros u Hu. destruct urls as [|u0 urls]; [destruct Hu|].
           cbn [removelast] in Hu. destruct Hu as [<-|Hu]; [congruence|].
           now apply A.
        -- intros R u [<-|Hu]; [congruence|now apply B].
        -- intros R. destruct (C R) as (u & L1 & N & F).
           destruct urls as [|u0 urls]; [congruence|].
           exists u. cbn [last] in *. repeat split; auto. discriminate.
      * inversion E; subst. exists [img_url i].
        split; [reflexivity|]. split; [|split; [|split]].
        -- intros u [<-|[]]. now left.
        -- intros u [].
        -- congruence.
        -- intros _. exists (img_url i). cbn. repeat split; auto. discriminate.
Qed.

Lemma zipPaths_zipPut (path : string) (e : ZipEntry) (zip : Archive) :
  zipPaths (zipPut path e zip)
  = if existsb (String.eqb path) (zipPaths zip) then zipPaths zip
    else zipPaths zip ++ [path].
Proof.
  unfold zipPaths. induction zip as [|[p0 e0] rest IH]; [reflexivity|].
  cbn [zipPut map fst existsb]. destruct (String.eqb path p0); [reflexivity|].
  cbn [map fst orb]. rewrite IH.
  destruct (existsb (String.eqb path) (map fst rest)); reflexivity.
Qed.

Lemma zipPut_NoDup (path : string) (e : ZipEntry) (zip : Archive) :
  NoDup (zipPaths zip) -> NoDup (zipPaths (zipPut path e zip)).
Proof.
  intros H. rewrite zipPaths_zipPut.
  destruct (existsb (String.eqb path) (zipPaths zip)) eqn:E; [exact H|].
  apply NoDup_app; [exact H|repeat constructor; intros []|].
  intros x Hx [Ex|[]]. subst x.
  assert (existsb (String.eqb path) (zipPaths zip) = true); [|congruence].
  apply existsb_exists. exists path. split; [exact Hx|apply String.eqb_refl].
Qed.

Lemma exportImages_NoDup (net : string -> option string) :
  forall images doc zip log doc' zip' log',
    exportImages net images doc zip log = (Some (doc', zip'), log') ->
    NoDup (zipPaths zip) -> NoDup (zipPaths zip').
Proof.
  induction images as [|i rest IH]; intros doc zip log doc' zip' log' E N.
  - cbn in E. now inversion E; subst.
  - cbn [exportImages] in E.
    destruct (negb (docHasId (img_id i) doc)); [eapply IH; eauto|].
    destruct (net (img_url i)); [|discriminate].
    eapply IH; [exact E|]. now apply zipPut_NoDup.
Qed.

(** The loop leaves the entry of a path alone when no image it exports
    goes to that path. *)
Lemma exportImages_keeps (net : string -> option string) (path : string) :
  forall images doc zip log doc' zip' log',
    (forall other, In other images -> docHasId (img_id other) doc = true ->
                   imagePath other <> path) ->
    exportImages net images doc zip log = (Some (doc', zip'), log') ->
    zipGet path zip' = zipGet path zip.
Proof.
  induction images as [|i rest IH]; intros doc zip log doc' zip' log' H E.
  - cbn in E. now inversion E; subst.
  - cbn [exportImages] in E.
    destruct (docHasId (img_id i) doc) eqn:Hi; cbn [negb] in E.
    + destruct (net (img_url i)); [|discriminate].
      assert (H' : forall other, In other rest ->
                docHasId (img_id other)
                  (docUpdate (hasId (img_id i)) (assignSrc (imagePath i)) doc)
                = true -> imagePath other <> path).
      { intros o Ho Hd. rewrite docHasId_docUpdate in Hd.
        apply H; [now right|exact Hd]. }
      rewrite (IH _ _ _ _ _ _ H' E).
      apply zipGet_zipPut_other. apply H; [now left|exact Hi].
    + eapply IH; [|exact E]. intros o Ho. apply H. now right.
Qed.

Lemma exportImages_ids (net : string -> option string) (x : string) :
  forall images doc zip log doc' zip' log',
    exportImages net images doc zip log = (Some (doc', zip'), log') ->
    docHasId x doc' = docHasId x doc.
Proof.
  induction images as [|i rest IH]; intros doc zip log doc' zip' log' E.
  - cbn in E. now inversion E; subst.
  - cbn [exportImages] in E.
    destruct (negb (docHasId (img_id i) doc)); [eapply IH; eauto|].
    destruct (net (img_url i)); [|discriminate].
    rewrite (IH _ _ _ _ _ _ E). apply docHasId_docUpdate.
Qed.

Lemma imagePath_not_index (image : Image) : imagePath image <> "index.html".
Proof. unfold imagePath. cbn [append]. discriminate. Qed.

Lemma imagePath_not_folder (image : Image) : imagePath image <> "images/".
Proof.
  unfold imagePath, imageFilename. cbn [append]. intros X.
  injection X as X. destruct (safeId (img_id image)); discriminate.
Qed.

Lemma exportFavicon_log (net : string -> option string) (fav : option Favicon)
    (doc : Document) (zip : Archive) (log : list Effect)
    (result : option (Document * Archive)) (log' : list Effect) :
  exportFavicon net fav doc zip log = (result, log') ->
  (log' = log /\ result = Some (doc, zip))
  \/ (exists fv, fav = Some fv /\ log' = log ++ [FetchCall (fav_url fv)]
                 /\ match result with
                    | Some (doc', zip') =>
                        exists blob,
                          net (fav_url fv) = Some blob
                          /\ zip' = zipPut "images/favicon.jpeg" (ZipFile blob) zip
                          /\ doc' = docUpdate isIconLink
                                      (assignHref "images/favicon.jpeg") doc
                          /\ existsb (matches isIconLink) (docElements doc) = true
                    | None => net (fav_url fv) = None
                    end).
Proof.
  unfold exportFavicon. destruct fav as [fv|]; [|intros E; inversion E; auto].
  rewrite docUpdateFirst_spec.
  destruct (existsb (matches isIconLink) (docElements doc)) eqn:X;
    [|intros E; inversion E; auto].
  destruct (net (fav_url fv)) as [blob|] eqn:N; intros E; inversion E; subst;
    right; exists fv; repeat split; eauto.
Qed.

Section ExportFacts.

Variable parseFromString : string -> Document.
Variable outerHTML : Document -> string.

Local Abbreviation exportSite := (exportSite parseFromString outerHTML).
Local Abbreviation clickExport := (clickExport parseFromString outerHTML).
Local Abbreviation loadStateFromLocalStorage :=
  (loadStateFromLocalStorage parseFromString outerHTML).

Lemma removelast_incl (A : Type) (l : list A) (x : A) :
  In x (removelast l) -> In x l.
Proof.
  induction l as [|y l IH]; [intros []|].
  destruct l as [|z l]; [intros []|].
  cbn [removelast]. intros [<-|H]; [now left|right; now apply IH].
Qed.

Lemma removelast_snoc (A : Type) (l : list A) (x : A) : removelast (l ++ [x]) = l.
Proof. apply removelast_last. Qed.

(** The two ways the export ends once it is past its guard. *)
Lemma exportSite_cases (net : string -> option string) (images : list Image)
    (s : State) :
  (exists urls url,
      snd (exportSite net images s)
      = map FetchCall (urls ++ [url]) ++ [Alert MsgExportFailed]
      /\ net url = None
      /\ (forall u, In u urls -> net u <> None)
      /\ fst (exportSite net images s)
         = set_exportBtn_disabled false (showError (set_exportBtn_disabled true s))
      /\ (forall u, In u (urls ++ [url]) ->
            In u (map img_url images)
            \/ exists fv, latestFavicon s = Some fv /\ u = fav_url fv))
  \/ (exists urls zip,
        snd (exportSite net images s)
        = map FetchCall urls ++ [DownloadZip "ai-generated-website.zip" zip]
        /\ (forall u, In u urls -> net u <> None)
        /\ fst (exportSite net images s) = set_exportBtn_disabled false s
        /\ (forall u, In u urls ->
              In u (map img_url images)
              \/ exists fv, latestFavicon s = Some fv /\ u = fav_url fv)).
Proof.
  unfold exportSite.
  destruct (exportImages net images (parseFromString (htmlEditor s))
              [("images/", ZipFolder)] []) as [r1 log1] eqn:E1.
  destruct (exportImages_log _ _ _ _ _ E1) as (urls1 & L1 & I1 & A1 & B1 & C1).
  cbn [app] in L1. subst log1.
  destruct r1 as [[doc1 zip1]|].
  - destruct (exportFavicon net (latestFavicon s) doc1 zip1 (map FetchCall urls1))
      as [r2 log2] eqn:E2.
    destruct (exportFavicon_log _ _ _ _ _ E2)
      as [[L2 R2]|(fv & F & L2 & R2)]; subst log2.
    + subst r2. right. exists urls1. eexists. cbn [fst snd].
      split; [reflexivity|]. split; [apply B1; discriminate|].
      split; [reflexivity|]. intros u Hu. left. now apply I1.
    + destruct r2 as [[doc2 zip2]|].
      * destruct R2 as (blob & N & _). right.
        exists (urls1 ++ [fav_url fv]). eexists. cbn [fst snd].
        rewrite map_app. split; [reflexivity|]. split; [|split; [reflexivity|]].
        -- intros u Hu. apply in_app_or in Hu. destruct Hu as [Hu|[<-|[]]].
           ++ apply B1; [discriminate|exact Hu].
           ++ congruence.
        -- intros u Hu. apply in_app_or in Hu. destruct Hu as [Hu|[<-|[]]].
           ++ left. now apply I1.
           ++ right. eauto.
      * left. exists urls1, (fav_url fv). cbn [fst snd].
        rewrite map_app. split; [reflexivity|]. split; [exact R2|].
        split; [apply B1; discriminate|]. split; [reflexivity|].
        intros u Hu. apply in_app_or in Hu. destruct Hu as [Hu|[<-|[]]].
        -- left. now apply I1.
        -- right. eauto.
  - destruct (C1 eq_refl) as (u & Lu & Ne & Nu).
    left. exists (removelast urls1), (last urls1 u). cbn [fst snd].
    rewrite <- (app_removelast_last u Ne).
    split; [reflexivity|]. split; [exact Nu|]. split; [exact A1|].
    split; [reflexivity|]. intros x Hx. left. now apply I1.
Qed.



(** X11.  In the archive of an export every path occurs once, and the
    file under the path of an image is the payload of the last image
    that was exported under that path: where two image ids give the same
    file name, the earlier payload is overwritten.  That holds for every
    path but the one of the favicon file. *)
Theorem archive_keeps_the_last_payload :
  forall (net : string -> option string) (s : State)
         (before after : list Image) (image : Image) (blob : string)
         (log : list Effect) (zip : Archive),
    latestGeneratedImages s = before ++ image :: after ->
    lastUnderItsPath (parseFromString (htmlEditor s)) image after ->
    imagePath image <> "images/favicon.jpeg" ->
    net (img_url image) = Some blob ->
    snd (clickExport net s) = log ++ [DownloadZip "ai-generated-website.zip" zip] ->
    zipGet (imagePath image) zip = Some (ZipFile blob)
    /\ NoDup (zipPaths zip)
    /\ zipGet "images/" zip = Some ZipFolder
    /\ exists finalHtml, zipGet "index.html" zip = Some (ZipFile finalHtml).
Proof.
  intros net s before after image blob log zip G [Hid Hlast] Hfav Hnet.
  unfold clickExport.
  destruct (isEmptyString (htmlEditor s) || isEmptyList (latestGeneratedImages s)).
  { cbn [snd]. intros E. apply (f_equal (@rev Effect)) in E.
    rewrite rev_app_distr in E. cbn in E. discriminate. }
  unfold exportSite. rewrite G.
  set (doc := parseFromString (htmlEditor s)) in *.
  rewrite exportImages_app.
  destruct (exportImages net before doc [("images/", ZipFolder)] [])
    as [[[doc0 zip0]|] log0] eqn:E0.
  2:{ cbn [snd]. intros E. apply (f_equal (@rev Effect)) in E.
      rewrite !rev_app_distr in E. cbn in E. discriminate. }
  cbn [exportImages].
  rewrite (exportImages_ids _ (img_id image) _ _ _ _ E0), Hid, Hnet. cbn [negb].
  set (doc1 := docUpdate _ _ doc0).
  set (zip1 := zipPut (imagePath image) (ZipFile blob) zip0).
  destruct (exportImages net after doc1 zip1 _) as [[[doc2 zip2]|] log2] eqn:E2.
  2:{ cbn [snd]. intros E. apply (f_equal (@rev Effect)) in E.
      rewrite !rev_app_distr in E. cbn in E. discriminate. }
  assert (N0 : NoDup (zipPaths zip0)).
  { eapply exportImages_NoDup; [exact E0|]. repeat constructor. intros []. }
  assert (N2 : NoDup (zipPaths zip2)).
  { eapply exportImages_NoDup; [exact E2|]. now apply zipPut_NoDup. }
  assert (K0 : zipGet "images/" zip0 = Some ZipFolder).
  { rewrite (exportImages_keeps (path := "images/") net before doc
               [("images/", ZipFolder)] []
               (fun o _ _ => @imagePath_not_folder o) E0).
    reflexivity. }
  assert (K2 : zipGet "images/" zip2 = Some ZipFolder).
  { rewrite (exportImages_keeps (path := "images/") net after doc1 zip1 _
               (fun o _ _ => @imagePath_not_folder o) E2).
    unfold zip1. rewrite zipGet_zipPut_other; [exact K0|].
    apply imagePath_not_folder. }
  assert (P2 : zipGet (imagePath image) zip2 = Some (ZipFile blob)).
  { assert (Hl : forall o, In o after -> docHasId (img_id o) doc1 = true ->
                           imagePath o <> imagePath image).
    { intros o Ho Hd. apply Hlast; [exact Ho|].
      unfold doc1 in Hd. rewrite docHasId_docUpdate in Hd.
      now rewrite (exportImages_ids _ (img_id o) _ _ _ _ E0) in Hd. }
    rewrite (exportImages_keeps net after doc1 zip1 _ Hl E2).
    apply zipGet_zipPut_same. }
  destruct (exportFavicon net (latestFavicon s) doc2 zip2 log2)
    as [r3 log3] eqn:E3.
  destruct (exportFavicon_log _ _ _ _ _ E3) as [[L3 R3]|(fv & F & L3 & R3)].
  - subst r3. cbn [snd]. intros E. apply app_inj_tail in E.
    destruct E as [_ E]. inversion E; subst zip.
    split; [|split; [|split]].
    + rewrite zipGet_zipPut_other; [exact P2|]. apply not_eq_sym, imagePath_not_index.
    + now apply zipPut_NoDup.
    + rewrite zipGet_zipPut_other; [exact K2|discriminate].
    + eexists. apply zipGet_zipPut_same.
  - destruct r3 as [[doc3 zip3]|].
    2:{ cbn [snd]. intros E. apply (f_equal (@rev Effect)) in E.
        rewrite !rev_app_distr in E. cbn in E. discriminate. }
    destruct R3 as (b & Nb & Z3 & _). subst zip3.
    cbn [snd]. intros E. apply app_inj_tail in E.
    destruct E as [_ E]. inversion E; subst zip.
    split; [|split; [|split]].
    + rewrite zipGet_zipPut_other;
        [|apply not_eq_sym, imagePath_not_index].
      rewrite zipGet_zipPut_other; [exact P2|]. now apply not_eq_sym.
    + now apply zipPut_NoDup, zipPut_NoDup.
    + rewrite !zipGet_zipPut_other; [exact K2|discriminate|discriminate].
    + eexists. apply zipGet_zipPut_same.
Qed.

(** X12.  A site whose record the store took only without its images
    comes back with its text and without images or favicon, and the
    export of the restored page refuses with the message to generate a
    site first. *)
Theorem site_saved_without_images_is_not_exportable :
  forall (now : Z) (accepts : SavedData -> bool) (net : string -> option string)
         (s s0 : State),
    htmlEditor s <> "" ->
    accepts (mkSavedData (htmlEditor s) (cssEditor s) (latestGeneratedImages s)
               (latestFavicon s) now) = false ->
    accepts (mkSavedData (htmlEditor s) (cssEditor s) [] None now) = true ->
    localStorage s0 = localStorage (saveStateToLocalStorage now accepts s) ->
    htmlEditor (loadStateFromLocalStorage s0) = htmlEditor s
    /\ cssEditor (loadStateFromLocalStorage s0) = cssEditor s
    /\ latestGeneratedImages (loadStateFromLocalStorage s0) = []
    /\ latestFavicon (loadStateFromLocalStorage s0) = None
    /\ imageGallery (loadStateFromLocalStorage s0) = []
    /\ resultContainer_hidden (loadStateFromLocalStorage s0) = false
    /\ clickExport net (loadStateFromLocalStorage s0)
       = (loadStateFromLocalStorage s0, [Alert MsgGenerateFirst]).
Proof.
  intros now accepts net s s0 Hne Hfull Hbare Hs0.
  unfold saveStateToLocalStorage in Hs0.
  apply isEmptyString_false in Hne. rewrite Hne, Hfull, Hbare in Hs0. cbn in Hs0.
  assert (F : htmlEditor (loadStateFromLocalStorage s0) = htmlEditor s
              /\ cssEditor (loadStateFromLocalStorage s0) = cssEditor s
              /\ latestGeneratedImages (loadStateFromLocalStorage s0) = []
              /\ latestFavicon (loadStateFromLocalStorage s0) = None
              /\ imageGallery (loadStateFromLocalStorage s0) = []
              /\ resultContainer_hidden (loadStateFromLocalStorage s0) = false).
  { unfold loadStateFromLocalStorage. rewrite Hs0. cbn [sd_html]. rewrite Hne.
    cbn [sd_css sd_images sd_favicon].
    match goal with |- context [pushHistoryState ?h ?c ?st] =>
      destruct (push_frame h c st) as ((_ & E1 & E2 & E3 & E4 & _ & E5 & _) & _ & E6);
      rewrite E1, E2, E3, E4, E5, E6
    end.
    repeat split. }
  destruct F as (F1 & F2 & F3 & F4 & F5 & F6).
  repeat (split; [assumption|]).
  unfold clickExport. rewrite F3. cbn [isEmptyList]. now rewrite orb_true_r.
Qed.

End ExportFacts.

(* ================================================================== *)
(** * What resolution establishes *)
(* ================================================================== *)

Lemma find_filter_first (p q : Tag -> Attrs -> bool)
    (L : list (Tag * Attrs)) (e : Tag * Attrs) :
  find (matches p) L = Some e -> matches q e = false ->
  find (matches p) (filter (fun e => negb (matches q e)) L) = Some e.
Proof.
  induction L as [|x r IH]; [discriminate|]. cbn [find filter].
  destruct (matches p x) eqn:Hp.
  - intros E Hq. inversion E; subst. rewrite Hq. cbn [negb find]. now rewrite Hp.
  - intros E Hq. destruct (negb (matches q x)); [cbn [find]; rewrite Hp|]; auto.
Qed.

Lemma docQuery_removeHeadStyles_first (p : Tag -> Attrs -> bool)
    (d : Document) (t : Tag) (a : Attrs) :
  wfDocument d = true -> docQuery p d = Some (t, a) -> styleSel t a = false ->
  docQuery p (removeHeadStyles d) = Some (t, a).
Proof.
  intros Hwf. apply andb_true_iff in Hwf. destruct Hwf as [Hh _].
  unfold docQuery, docElements. cbn [removeHeadStyles htmlAttrs headAttrs
    headNodes bodyAttrs bodyNodes find].
  destruct (matches p (htmlTag "html", htmlAttrs d)); [auto|].
  destruct (matches p (htmlTag "head", headAttrs d)); [auto|].
  rewrite !find_app, (proj2 elements_prune _ Hh).
  destruct (find (matches p) (elementsIn (headNodes d))) as [e|] eqn:E.
  - intros X Hs. inversion X; subst.
    now rewrite (find_filter_first p styleSel _ E Hs).
  - intros X _.
    replace (find (matches p)
               (filter (fun e => negb (matches styleSel e))
                  (elementsIn (headNodes d)))) with (@None (Tag * Attrs));
      [exact X|].
    symmetry. clear X. induction (elementsIn (headNodes d)) as [|x r IH];
      [reflexivity|].
    cbn [find filter] in *. destruct (matches p x) eqn:Hp; [discriminate|].
    destruct (negb (matches styleSel x)); cbn [find]; rewrite ?Hp; auto.
Qed.

Lemma reflectsSrc_not_style (t : Tag) (a : Attrs) :
  reflectsSrc t = true -> styleSel t a = false.
Proof.
  unfold styleSel. destruct (String.eqb (localName t) "style") eqn:E; [|reflexivity].
  apply String.eqb_eq in E. unfold reflectsSrc. rewrite E.
  now rewrite andb_false_r.
Qed.

Section ImagesInPlace.

(** What a loop writes on the element of an image: its [src] in
    [updatePreview] and in the export, its [src] and [alt] in the first
    preview of the earlier revision.  The id stays as it is. *)
Variable write : Image -> Tag -> Attrs -> Attrs.
Hypothesis write_id :
  forall x im t a, hasId x t (write im t a) = hasId x t a.

Lemma placeImage_tag (x : string) (images : list Image) :
  forall d t a,
    docQuery (hasId x) d = Some (t, a) ->
    exists a',
      docQuery (hasId x) (fold_left (placeImage write) images d) = Some (t, a').
Proof.
  induction images as [|i l IH]; intros d t a E; [eauto|].
  cbn [fold_left]. unfold placeImage at 2. unfold docQuery in E.
  destruct (find_updList (hasId x) (hasId (img_id i)) (write i)
              (fun t a => write_id x i t a) _ E)
    as (a' & E' & _).
  rewrite <- docElements_upd in E'. exact (IH _ _ _ E').
Qed.

Lemma placeImage_others (x : string) (images : list Image) :
  forall d,
    (forall other, In other images -> img_id other <> x) ->
    docQuery (hasId x) (fold_left (placeImage write) images d)
    = docQuery (hasId x) d.
Proof.
  induction images as [|i l IH]; intros d H; [reflexivity|].
  cbn [fold_left]. rewrite IH by (intros o Ho; apply H; now right).
  unfold placeImage, docQuery. rewrite docElements_upd.
  apply find_updList_disjoint.
  - intros. apply write_id.
  - intros t a Hx. destruct (hasId (img_id i) t a) eqn:Hi; [|reflexivity].
    exfalso. apply (@hasId_disjoint x (img_id i) t a); auto.
    intros X. apply (H i); [now left|now symmetry].
Qed.

(** After the loop, the first element with the id of an image holds what
    the last image of that id wrote on it. *)
Lemma placeImage_last (before after : list Image) (image : Image)
    (d : Document) (t : Tag) (a : Attrs) :
  docQuery (hasId (img_id image)) d = Some (t, a) ->
  (forall other, In other after -> img_id other <> img_id image) ->
  exists a0,
    docQuery (hasId (img_id image))
      (fold_left (placeImage write) (before ++ image :: after) d)
    = Some (t, write image t a0).
Proof.
  intros E H. rewrite fold_left_app. cbn [fold_left].
  destruct (placeImage_tag (img_id image) before _ E) as (a0 & E0).
  rewrite placeImage_others by exact H.
  exists a0.
  unfold placeImage at 1. unfold docQuery in *. rewrite docElements_upd.
  apply find_updList_same; [|exact E0]. intros. apply write_id.
Qed.

Lemma wfDocument_placeImages (images : list Image) :
  forall d, wfDocument (fold_left (placeImage write) images d) = wfDocument d.
Proof.
  induction images as [|i l IH]; intros d; [reflexivity|].
  cbn [fold_left]. rewrite IH. apply wfDocument_docUpdate.
Qed.

End ImagesInPlace.

Lemma hasId_assignSrcAlt (x u alt : string) (t : Tag) (a : Attrs) :
  hasId x t (assignSrcAlt u alt t a) = hasId x t a.
Proof.
  unfold assignSrcAlt. destruct (reflectsAlt t); [|apply hasId_assignSrc].
  unfold hasId. rewrite getAttr_setAttr_other by discriminate.
  apply hasId_assignSrc.
Qed.

(** The first element with the id of an image has the address the last
    image of that id was given as its [src], when it is an HTML element
    whose [src] property writes the attribute. *)
Lemma placeImage_src (address : Image -> string) (before after : list Image)
    (image : Image) (d : Document) (t : Tag) (a : Attrs) :
  docQuery (hasId (img_id image)) d = Some (t, a) ->
  reflectsSrc t = true ->
  (forall other, In other after -> img_id other <> img_id image) ->
  exists a',
    docQuery (hasId (img_id image))
      (fold_left (placeImage (fun im => assignSrc (address im)))
         (before ++ image :: after) d) = Some (t, a')
    /\ getAttr "src" a' = Some (address image).
Proof.
  intros E R H.
  destruct (placeImage_last (fun im => assignSrc (address im))
              (fun x im t a => hasId_assignSrc x (address im) t a)
              before after image d E H) as (a0 & E0).
  eexists. split; [exact E0|].
  unfold assignSrc. rewrite R. apply getAttr_setAttr_same.
Qed.

Lemma fold_injectImage (images : list Image) (d : Document) :
  fold_left injectImage images d
  = fold_left (placeImage (fun im => assignSrc (img_url im))) images d.
Proof. reflexivity. Qed.

Lemma fold_injectImageEarlier (images : list Image) (d : Document) :
  fold_left injectImageEarlier images d
  = fold_left (placeImage (fun im => assignSrcAlt (img_url im) (img_prompt im)))
      images d.
Proof. reflexivity. Qed.

(** The document the export loop leaves is the one with every image
    placed at its path. *)
Lemma exportImages_doc (net : string -> option string) :
  forall images doc zip log doc' zip' log',
    exportImages net images doc zip log = (Some (doc', zip'), log') ->
    doc' = fold_left (placeImage (fun im => assignSrc (imagePath im))) images doc.
Proof.
  induction images as [|i rest IH]; intros doc zip log doc' zip' log' E.
  - cbn in E. now inversion E.
  - cbn [exportImages] in E. cbn [fold_left].
    destruct (docHasId (img_id i) doc) eqn:Hi; cbn [negb] in E.
    + destruct (net (img_url i)); [|discriminate]. exact (IH _ _ _ _ _ _ E).
    + rewrite (IH _ _ _ _ _ _ E). f_equal. unfold placeImage, docUpdate.
      rewrite docUpdateFirst_spec. unfold docHasId in Hi. now rewrite Hi.
Qed.

Lemma restyle_first (p : Tag -> Attrs -> bool) (css : string) (d : Document)
    (t : Tag) (a : Attrs) :
  wfDocument d = true -> docQuery p d = Some (t, a) -> styleSel t a = false ->
  hasMatch p (styleElement css) = false ->
  docQuery p (restyle css d) = Some (t, a).
Proof.
  intros W E S M. unfold restyle. rewrite docQuery_appendToHead by exact M.
  now apply docQuery_removeHeadStyles_first.
Qed.

Lemma docFirstHas_query (p : Tag -> Attrs -> bool) (k v : string) (d : Document)
    (t : Tag) (a : Attrs) :
  docQuery p d = Some (t, a) -> getAttr k a = Some v -> docFirstHas p k v d.
Proof. intros E A. exists t, a. now split. Qed.

Lemma injectMeta_query (p : Tag -> Attrs -> bool) (name c : string)
    (d : Document) :
  (forall t a, p t a = true -> isMetaNamed name t a = false) ->
  (forall t a, p t (assignAttr "content" c t a) = p t a) ->
  docQuery p (injectMeta name c d) = docQuery p d.
Proof.
  intros Hd Hs. unfold injectMeta.
  destruct (isEmptyString c); auto.
  rewrite docUpdateFirst_spec.
  destruct (existsb (matches (isMetaNamed name)) (docElements d)).
  - now apply docQuery_docUpdate_disjoint.
  - apply docQuery_appendToHead. rewrite hasMatch_Elem. cbn.
    rewrite orb_false_r.
    destruct (p "meta" [("name", name); ("content", c)]) eqn:Hp; auto.
    apply Hd in Hp. now rewrite metaElement_matches in Hp.
Qed.

(** An HTML icon link that [link.href = url] leaves as it is holds the
    URL. *)
Lemma iconLink_kept_href (u : string) (t : Tag) (a : Attrs) :
  isIconLink t a = true -> isHtml t = true -> assignHref u t a = a ->
  getAttr "href" a = Some u.
Proof.
  intros L Hh K. apply isIconLink_tag in L.
  unfold assignHref, reflectsHref in K. rewrite Hh, L in K. cbn in K.
  rewrite <- K. apply getAttr_setAttr_same.
Qed.

Section ResolutionFacts.

Variable parseFromString : string -> Document.
Variable outerHTML : Document -> string.

Local Abbreviation updatePreview := (updatePreview parseFromString outerHTML).
Local Abbreviation clickExport := (clickExport parseFromString outerHTML).
Local Abbreviation exportSite := (exportSite parseFromString outerHTML).

(** X13.  The preview shows each image in its placeholder: when the
    first element with the id of an image is an HTML element whose [src]
    property writes the attribute (an [img], say), that element of the
    preview has the URL of the last image recorded under that id as its
    [src]; the head of the preview holds one style block, its last node,
    with the CSS given.  The markup is one in which no [style] element
    holds an element. *)
Theorem preview_shows_each_image :
  forall (s : State) (html css : string) (before after : list Image)
         (image : Image) (t : Tag) (a : Attrs),
    latestGeneratedImages s = before ++ image :: after ->
    (forall other, In other after -> img_id other <> img_id image) ->
    wfDocument (parseFromString html) = true ->
    docQuery (hasId (img_id image)) (parseFromString html) = Some (t, a) ->
    reflectsSrc t = true ->
    previewFrame_srcdoc (updatePreview html css s)
    = outerHTML
        (previewDocument (before ++ image :: after) (latestFavicon s) css
           (parseFromString html))
    /\ docFirstHas (hasId (img_id image)) "src" (img_url image)
         (previewDocument (before ++ image :: after) (latestFavicon s) css
            (parseFromString html))
    /\ headStyleCount
         (previewDocument (before ++ image :: after) (latestFavicon s) css
            (parseFromString html)) = 1%nat
    /\ exists rest,
         headNodes
           (previewDocument (before ++ image :: after) (latestFavicon s) css
              (parseFromString html))
         = rest ++ [styleElement css].
Proof.
  intros s html css before after image t a G H W E R.
  split; [unfold updatePreview; now rewrite G|].
  split; [|split; [apply headStyleCount_preview|
                   rewrite previewDocument_shape; eexists; reflexivity]].
  unfold previewDocument. rewrite fold_injectImage.
  assert (E1 : docQuery (hasId (img_id image))
                 (appendToHead (styleElement css)
                    (removeHeadStyles (parseFromString html))) = Some (t, a)).
  { apply (restyle_first _ css _ W E).
    - now apply reflectsSrc_not_style.
    - apply styleElement_no_id. }
  destruct (placeImage_src img_url before after image _ E1 R H)
    as (a' & E2 & A2).
  assert (F : docFirstHas (hasId (img_id image)) "src" (img_url image)
                (fold_left (placeImage (fun im => assignSrc (img_url im)))
                   (before ++ image :: after)
                   (appendToHead (styleElement css)
                      (removeHeadStyles (parseFromString html)))))
    by exact (docFirstHas_query _ _ _ E2 A2).
  destruct (latestFavicon s) as [fv|]; [|exact F].
  cbn [relinkFavicon]. apply docFirstHas_docUpdate; [| |exact F].
  - intros. apply hasId_assignHref.
  - intros t0 a0 A0. rewrite getAttr_assignHref_other; [exact A0|discriminate].
Qed.

(** X14.  [populateUI] puts the meta values and the favicon in place and
    [updatePreview] keeps them.  In the document that goes to the HTML
    editor the first [meta] element named [description] holds the
    description and the first one named [keywords] the keywords, each
    when the value is not empty; with a favicon the document has an icon
    link, the first one holds the URL of the favicon as its [href] when
    it is an HTML element, and it is the HTML [link] the script made
    when the markup had none.  In the tree [updatePreview] builds from a
    parsed document, the first [meta] element of a name holds what it
    held in the parsed one, and the first icon link of the parsed
    document, when it is an HTML element, holds the URL of the favicon.
    The documents are ones in which no [style] element holds an
    element. *)
Theorem resolution_sets_meta_and_icon :
  forall (images : list Image) (fav : option Favicon)
         (metaDesc metaKeywords css : string) (d : Document),
    wfDocument d = true ->
    (metaDesc <> "" ->
     docFirstHas (isMetaNamed "description") "content" metaDesc
       (snd (populateDocument fav metaDesc metaKeywords d)))
    /\ (metaKeywords <> "" ->
        docFirstHas (isMetaNamed "keywords") "content" metaKeywords
          (snd (populateDocument fav metaDesc metaKeywords d)))
    /\ (forall fv,
          fav = Some fv ->
          (exists t a,
              docQuery isIconLink (snd (populateDocument fav metaDesc metaKeywords d))
              = Some (t, a)
              /\ (isHtml t = true -> getAttr "href" a = Some (fav_url fv)))
          /\ (docQuery isIconLink d = None ->
              docQuery isIconLink (snd (populateDocument fav metaDesc metaKeywords d))
              = Some (htmlTag "link",
                      [("rel", "icon"); ("type", "image/jpeg");
                       ("href", fav_url fv)])))
    /\ (forall parsed : Document,
          wfDocument parsed = true ->
          (forall name content,
              docFirstHas (isMetaNamed name) "content" content parsed ->
              docFirstHas (isMetaNamed name) "content" content
                (previewDocument images fav css parsed))
          /\ (forall fv t a,
                fav = Some fv ->
                docQuery isIconLink parsed = Some (t, a) ->
                isHtml t = true ->
                docFirstHas isIconLink "href" (fav_url fv)
                  (previewDocument images fav css parsed))).
Proof.
  intros images fav metaDesc metaKeywords css d Hwf.
  unfold populateDocument.
  set (d1 := injectMeta "description" metaDesc d).
  set (d2 := injectMeta "keywords" metaKeywords d1).
  set (d3 := injectFavicon fav d2).
  assert (W1 : wfDocument d1 = true) by now apply injectMeta_wf.
  assert (W2 : wfDocument d2 = true) by now apply injectMeta_wf.
  assert (W3 : wfDocument d3 = true) by now apply injectFavicon_wf.
  assert (Q4 : forall p, (forall t a, p t a = true -> styleSel t a = false) ->
                         docQuery p (snd (separateStyle d3)) = docQuery p d3).
  { intros p Hp. now apply separateStyle_query. }
  destruct (separateStyle d3) as [css0 d4]. cbn [snd] in Q4 |- *.
  split; [|split; [|split]].
  - intros Hne.
    eapply docFirstHas_congr; [apply Q4, isMetaNamed_not_style|].
    apply injectFavicon_preserves.
    + apply isMetaNamed_not_link.
    + intros. apply isMetaNamed_assignHref.
    + apply injectMeta_preserves.
      * intros t a. apply isMetaNamed_disjoint. discriminate.
      * intros. apply isMetaNamed_assignAttr. discriminate.
      * now apply injectMeta_establishes.
  - intros Hne.
    eapply docFirstHas_congr; [apply Q4, isMetaNamed_not_style|].
    apply injectFavicon_preserves.
    + apply isMetaNamed_not_link.
    + intros. apply isMetaNamed_assignHref.
    + now apply injectMeta_establishes.
  - intros fv Hfv. rewrite (Q4 _ isIconLink_not_style). split.
    + unfold d3. rewrite Hfv.
      destruct (injectFavicon_establishes fv d2) as (t & a & E & K).
      exists t, a. split; [exact E|]. intros Hh.
      exact (@iconLink_kept_href _ _ _ (docQuery_matches _ _ E) Hh K).
    + intros Hnone.
      assert (N2 : docQuery isIconLink d2 = None).
      { unfold d2, d1. rewrite !injectMeta_query; auto.
        - intros t a. apply isIconLink_not_meta.
        - intros. apply isIconLink_assignAttr. discriminate.
        - intros t a. apply isIconLink_not_meta.
        - intros. apply isIconLink_assignAttr. discriminate. }
      unfold d3. rewrite Hfv. unfold injectFavicon.
      rewrite docUpdateFirst_spec, docQuery_exists, N2.
      apply docQuery_appended; [now rewrite docQuery_exists, N2|reflexivity].
  - intros parsed Wp. split.
    + intros name content H. apply previewDocument_preserves; auto.
      * apply isMetaNamed_not_style.
      * intros. apply isMetaNamed_assignSrc.
      * intros. apply isMetaNamed_assignHref.
      * discriminate.
      * discriminate.
    + intros fv t a Hfv E Hh. rewrite Hfv.
      pose proof (docQuery_matches _ _ E) as L.
      unfold previewDocument. rewrite fold_injectImage.
      assert (E1 : docQuery isIconLink
                     (appendToHead (styleElement css) (removeHeadStyles parsed))
                   = Some (t, a)).
      { apply (restyle_first _ css _ Wp E).
        - now apply isIconLink_not_style.
        - apply styleElement_no_link. }
      assert (E2 : docQuery isIconLink
                     (fold_left (placeImage (fun im => assignSrc (img_url im)))
                        images
                        (appendToHead (styleElement css)
                           (removeHeadStyles parsed)))
                   = Some (t, a)).
      { revert E1.
        generalize (appendToHead (styleElement css) (removeHeadStyles parsed)).
        induction images as [|i l IH]; intros d0 E0; [exact E0|].
        cbn [fold_left]. apply IH. unfold placeImage, docQuery in *.
        rewrite docElements_upd.
        destruct (find_updList isIconLink (hasId (img_id i))
                    (assignSrc (img_url i))
                    (fun t a => isIconLink_assignSrc (img_url i) t a) _ E0)
          as (a' & E' & [->| ->]); [exact E'|].
        now rewrite (assignSrc_link _ _ _ L) in E'. }
      cbn [relinkFavicon].
      apply (@docFirstHas_query _ _ _ _ t (assignHref (fav_url fv) t a)).
      * unfold docQuery in *. rewrite docElements_upd.
        apply find_updList_same; [|exact E2].
        intros. apply isIconLink_assignHref.
      * apply isIconLink_tag in L. unfold assignHref, reflectsHref.
        rewrite Hh, L. apply getAttr_setAttr_same.
Qed.

(** X15.  The page in the archive points to the files beside it: when
    the export offers its archive, [index.html] is the markup of a
    document with one style block in its head, the last node of the
    head, holding the text of the CSS editor, and the first element
    with the id of an image has the path of the file of the last image
    recorded under that id as its [src], when it is an HTML element whose
    [src] property writes the attribute.  The markup in the editor is
    one in which no [style] element holds an element. *)
Theorem exported_page_points_to_its_files :
  forall (net : string -> option string) (s : State)
         (before after : list Image) (image : Image) (t : Tag) (a : Attrs)
         (log : list Effect) (zip : Archive),
    latestGeneratedImages s = before ++ image :: after ->
    (forall other, In other after -> img_id other <> img_id image) ->
    wfDocument (parseFromString (htmlEditor s)) = true ->
    docQuery (hasId (img_id image)) (parseFromString (htmlEditor s)) = Some (t, a) ->
    reflectsSrc t = true ->
    snd (clickExport net s) = log ++ [DownloadZip "ai-generated-website.zip" zip] ->
    exists page,
      zipGet "index.html" zip = Some (ZipFile (outerHTML page))
      /\ docFirstHas (hasId (img_id image)) "src" (imagePath image) page
      /\ headStyleCount page = 1%nat
      /\ exists rest, headNodes page = rest ++ [styleElement (cssEditor s)].
Proof.
  intros net s before after image t a log zip G H W E R.
  unfold clickExport.
  destruct (isEmptyString (htmlEditor s) || isEmptyList (latestGeneratedImages s)).
  { cbn [snd]. intros X. apply (f_equal (@rev Effect)) in X.
    rewrite rev_app_distr in X. cbn in X. discriminate. }
  unfold exportSite.
  set (doc := parseFromString (htmlEditor s)) in *.
  destruct (exportImages net (latestGeneratedImages s) doc
              [("images/", ZipFolder)] []) as [[[doc1 zip1]|] log1] eqn:E1.
  2:{ cbn [snd]. intros X. apply (f_equal (@rev Effect)) in X.
      rewrite !rev_app_distr in X. cbn in X. discriminate. }
  assert (D1 := exportImages_doc _ _ _ _ _ E1). rewrite G in D1.
  destruct (placeImage_src imagePath before after image _ E R H)
    as (a1 & Q1 & A1).
  rewrite <- D1 in Q1.
  assert (W1 : wfDocument doc1 = true).
  { rewrite D1, wfDocument_placeImages. exact W. }
  destruct (exportFavicon net (latestFavicon s) doc1 zip1 log1)
    as [r2 log2] eqn:E2.
  assert (F : forall doc2 zip2, r2 = Some (doc2, zip2) ->
                wfDocument doc2 = true
                /\ exists a2, docQuery (hasId (img_id image)) doc2 = Some (t, a2)
                              /\ getAttr "src" a2 = Some (imagePath image)).
  { intros doc2 zip2 ->.
    destruct (exportFavicon_log _ _ _ _ _ E2) as [[_ X]|(fv & _ & _ & X)].
    - inversion X; subst. split; [exact W1|]. eauto.
    - destruct X as (b & _ & _ & -> & _).
      split; [now rewrite wfDocument_docUpdate|].
      unfold docQuery in *. rewrite docElements_upd.
      destruct (find_updList (hasId (img_id image)) isIconLink
                  (assignHref "images/favicon.jpeg")
                  (fun t a => hasId_assignHref (img_id image)
                                "images/favicon.jpeg" t a)
                  _ Q1) as (a2 & Q2 & [->| ->]); [eauto|].
      exists (assignHref "images/favicon.jpeg" t a1). split; [exact Q2|].
      rewrite getAttr_assignHref_other; [exact A1|discriminate]. }
  destruct r2 as [[doc2 zip2]|].
  2:{ cbn [snd]. intros X. apply (f_equal (@rev Effect)) in X.
      rewrite !rev_app_distr in X. cbn in X. discriminate. }
  destruct (F doc2 zip2 eq_refl) as (W2 & a2 & Q2 & A2).
  cbn [snd]. intros X. apply app_inj_tail in X. destruct X as [_ X].
  inversion X; subst zip.
  exists (restyle (cssEditor s) doc2). split; [apply zipGet_zipPut_same|].
  split.
  - apply (@docFirstHas_query _ _ _ _ t a2); [|exact A2].
    apply restyle_first; auto.
    + now apply reflectsSrc_not_style.
    + apply styleElement_no_id.
  - split; [apply (headStyleCount_preview [] None)|].
    eexists. reflexivity.
Qed.

End ResolutionFacts.

(* ================================================================== *)
(** * The export: images without an element, images with one *)
(* ================================================================== *)

(** The loop exports an image whose id an element has: it fetches the
    payload, and files it under the path of the image, where it stays
    unless a later image goes to the same path. *)
Lemma exportImages_exports (net : string -> option string)
    (before after : list Image) (im : Image) :
  forall doc zip log doc' zip' log',
    exportImages net (before ++ im :: after) doc zip log
    = (Some (doc', zip'), log') ->
    docHasId (img_id im) doc = true ->
    exists blob,
      net (img_url im) = Some blob
      /\ In (FetchCall (img_url im)) log'
      /\ (exists data, zipGet (imagePath im) zip' = Some (ZipFile data))
      /\ ((forall other, In other after -> docHasId (img_id other) doc = true ->
                         imagePath other <> imagePath im) ->
          zipGet (imagePath im) zip' = Some (ZipFile blob)).
Proof.
  intros doc zip log doc' zip' log' E Hid.
  rewrite exportImages_app in E.
  destruct (exportImages net before doc zip log) as [[[doc0 zip0]|] log0] eqn:E0;
    [|discriminate].
  cbn [exportImages] in E.
  rewrite (exportImages_ids _ (img_id im) _ _ _ _ E0), Hid in E. cbn [negb] in E.
  destruct (net (img_url im)) as [blob|] eqn:Hn; [|discriminate].
  exists blob. split; [reflexivity|].
  destruct (exportImages_files _ _ _ _ _ E) as (_ & F2 & F3).
  split; [|split].
  - apply F3, in_or_app. right. now left.
  - apply (F2 _ blob). apply zipGet_zipPut_same.
  - intros Hlast.
    rewrite (exportImages_keeps (path := imagePath im) net after _ _ _) with
      (1 := fun o Ho Hd =>
              Hlast o Ho
                (eq_trans
                   (eq_sym
                      (eq_trans (docHasId_docUpdate _ _ _ _)
                         (exportImages_ids _ (img_id o) _ _ _ _ E0)))
                   Hd))
      (2 := E).
    apply zipGet_zipPut_same.
Qed.

(** The loop writes the path of an image on the first element with its
    id, when that element is an HTML element whose [src] property writes
    the attribute and no later image has the same id. *)
Lemma exportImages_src (net : string -> option string)
    (before after : list Image) (im : Image) :
  forall doc zip log doc' zip' log' t a,
    exportImages net (before ++ im :: after) doc zip log
    = (Some (doc', zip'), log') ->
    (forall other, In other after -> img_id other <> img_id im) ->
    docQuery (hasId (img_id im)) doc = Some (t, a) ->
    reflectsSrc t = true ->
    wfDocument doc' = wfDocument doc
    /\ exists a',
         docQuery (hasId (img_id im)) doc' = Some (t, a')
         /\ getAttr "src" a' = Some (imagePath im).
Proof.
  intros doc zip log doc' zip' log' t a E H Q R.
  rewrite (exportImages_doc _ _ _ _ _ E). split.
  - apply wfDocument_placeImages.
  - exact (placeImage_src imagePath before after im _ Q R H).
Qed.

(** "Handle Favicon" leaves the [src] of the elements as the loop wrote
    it. *)
Lemma exportFavicon_src (net : string -> option string) (fav : option Favicon)
    (doc : Document) (zip : Archive) (log : list Effect)
    (doc' : Document) (zip' : Archive) (log' : list Effect)
    (x v : string) (t : Tag) (a : Attrs) :
  exportFavicon net fav doc zip log = (Some (doc', zip'), log') ->
  docQuery (hasId x) doc = Some (t, a) -> getAttr "src" a = Some v ->
  wfDocument doc' = wfDocument doc
  /\ exists a',
       docQuery (hasId x) doc' = Some (t, a') /\ getAttr "src" a' = Some v.
Proof.
  intros E Q A.
  destruct (exportFavicon_log _ _ _ _ _ E) as [[_ X]|(fv & _ & _ & X)].
  - inversion X; subst. split; [reflexivity|]. eauto.
  - destruct X as (b & _ & _ & -> & _).
    split; [apply wfDocument_docUpdate|].
    unfold docQuery in *. rewrite docElements_upd.
    destruct (find_updList (hasId x) isIconLink
                (assignHref "images/favicon.jpeg")
                (fun t a => hasId_assignHref x "images/favicon.jpeg" t a)
                _ Q) as (a2 & Q2 & [->| ->]); [eauto|].
    exists (assignHref "images/favicon.jpeg" t a). split; [exact Q2|].
    rewrite getAttr_assignHref_other; [exact A|discriminate].
Qed.

(** "Handle Favicon" adds its fetch after those made and changes no file
    but its own. *)
Lemma exportFavicon_files (net : string -> option string) (fav : option Favicon)
    (doc : Document) (zip : Archive) (log : list Effect)
    (doc' : Document) (zip' : Archive) (log' : list Effect) :
  exportFavicon net fav doc zip log = (Some (doc', zip'), log') ->
  (forall e, In e log -> In e log')
  /\ (forall path data, zipGet path zip = Some (ZipFile data) ->
                        exists d, zipGet path zip' = Some (ZipFile d))
  /\ (forall path, path <> "images/favicon.jpeg" ->
                   zipGet path zip' = zipGet path zip).
Proof.
  intros E.
  destruct (exportFavicon_log _ _ _ _ _ E) as [[L X]|(fv & _ & L & X)].
  - inversion X; subst. repeat split; eauto.
  - destruct X as (b & _ & -> & _). subst log'. split; [|split].
    + intros e He. apply in_or_app. now left.
    + intros path data H. eapply zipPut_keeps_file. exact H.
    + intros path H. apply zipGet_zipPut_other. congruence.
Qed.

Lemma download_is_last (log log' : list Effect) (m : Message) (name : string)
    (zip : Archive) :
  log' ++ [Alert m] <> log ++ [DownloadZip name zip].
Proof.
  intros X. apply app_inj_tail in X. destruct X as [_ X]. discriminate.
Qed.

Section ExportClaim.

Variable parseFromString : string -> Document.
Variable outerHTML : Document -> string.

Local Abbreviation exportSite := (exportSite parseFromString outerHTML).
Local Abbreviation exportSiteEarlier := (exportSiteEarlier parseFromString outerHTML).
Local Abbreviation clickExport := (clickExport parseFromString outerHTML).
Local Abbreviation clickExportEarlier := (clickExportEarlier parseFromString outerHTML).

(** C9.  An image whose id no element of the markup has is passed over by
    the export: the listener does with the list that holds it exactly what
    it does with the list without it (the same fetches, the same archive,
    the same messages, the same state), in this revision and in the
    earlier one.  When every fetch answers, the archive is offered for
    download.  Whenever it is, every image whose id an element has was
    exported: its payload was fetched, a file is under its path, and the
    file is that payload unless a later image with an element went to the
    same path or, in this revision, the path is the one of the favicon
    file; [index.html] is the markup of a page whose first element with
    that id has the path as its [src], when that element is an HTML
    element whose [src] property writes the attribute, no later image
    has the same id and no [style] element of the markup holds an
    element. *)
Theorem export_skips_unmatched_images :
  forall (net : string -> option string) (s : State) (l1 l2 : list Image)
         (image : Image),
    docHasId (img_id image) (parseFromString (htmlEditor s)) = false ->
    exportSite net (l1 ++ image :: l2) s = exportSite net (l1 ++ l2) s
    /\ exportSiteEarlier net (l1 ++ image :: l2) s
       = exportSiteEarlier net (l1 ++ l2) s
    /\ (latestGeneratedImages s = l1 ++ image :: l2 -> htmlEditor s <> "" ->
        clickExport net s = exportSite net (l1 ++ l2) s
        /\ clickExportEarlier net s = exportSiteEarlier net (l1 ++ l2) s)
    /\ ((forall url, net url <> None) ->
        forall images, exists zip log,
          snd (exportSite net images s)
          = log ++ [DownloadZip "ai-generated-website.zip" zip])
    /\ (forall (before after : list Image) (im : Image) (log : list Effect)
               (zip : Archive),
          snd (exportSite net (before ++ im :: after) s)
          = log ++ [DownloadZip "ai-generated-website.zip" zip] ->
          docHasId (img_id im) (parseFromString (htmlEditor s)) = true ->
          exists blob page,
            net (img_url im) = Some blob
            /\ In (FetchCall (img_url im)) log
            /\ (exists data, zipGet (imagePath im) zip = Some (ZipFile data))
            /\ ((forall other,
                    In other after ->
                    docHasId (img_id other) (parseFromString (htmlEditor s)) = true ->
                    imagePath other <> imagePath im) ->
                imagePath im <> "images/favicon.jpeg" ->
                zipGet (imagePath im) zip = Some (ZipFile blob))
            /\ zipGet "index.html" zip = Some (ZipFile (outerHTML page))
            /\ (forall t a,
                  wfDocument (parseFromString (htmlEditor s)) = true ->
                  (forall other, In other after -> img_id other <> img_id im) ->
                  docQuery (hasId (img_id im)) (parseFromString (htmlEditor s))
                  = Some (t, a) ->
                  reflectsSrc t = true ->
                  docFirstHas (hasId (img_id im)) "src" (imagePath im) page))
    /\ (forall (before after : list Image) (im : Image) (log : list Effect)
               (zip : Archive),
          snd (exportSiteEarlier net (before ++ im :: after) s)
          = log ++ [DownloadZip "ai-generated-website.zip" zip] ->
          docHasId (img_id im) (parseFromString (htmlEditor s)) = true ->
          exists blob page,
            net (img_url im) = Some blob
            /\ In (FetchCall (img_url im)) log
            /\ (exists data, zipGet (imagePath im) zip = Some (ZipFile data))
            /\ ((forall other,
                    In other after ->
                    docHasId (img_id other) (parseFromString (htmlEditor s)) = true ->
                    imagePath other <> imagePath im) ->
                zipGet (imagePath im) zip = Some (ZipFile blob))
            /\ zipGet "index.html" zip = Some (ZipFile (outerHTML page))
            /\ (forall t a,
                  wfDocument (parseFromString (htmlEditor s)) = true ->
                  (forall other, In other after -> img_id other <> img_id im) ->
                  docQuery (hasId (img_id im)) (parseFromString (htmlEditor s))
                  = Some (t, a) ->
                  reflectsSrc t = true ->
                  docFirstHas (hasId (img_id im)) "src" (imagePath im) page)).
Proof.
  intros net s l1 l2 image H.
  assert (E1 : exportSite net (l1 ++ image :: l2) s = exportSite net (l1 ++ l2) s).
  { unfold exportSite. now rewrite exportImages_skip. }
  assert (E2 : exportSiteEarlier net (l1 ++ image :: l2) s
               = exportSiteEarlier net (l1 ++ l2) s).
  { unfold exportSiteEarlier. now rewrite exportImages_skip. }
  split; [exact E1|]. split; [exact E2|]. split; [|split; [|split]].
  - intros Hl Hne. unfold clickExport, clickExportEarlier.
    apply isEmptyString_false in Hne. rewrite Hne, Hl.
    replace (isEmptyList (l1 ++ image :: l2)) with false
      by (destruct l1; reflexivity).
    cbn [orb]. now rewrite E1, E2.
  - intros Hnet images. unfold exportSite.
    destruct (exportImages_completes net images (parseFromString (htmlEditor s))
                [("images/", ZipFolder)] [] (fun im _ => Hnet (img_url im)))
      as (doc1 & zip1 & log1 & L1).
    rewrite L1.
    destruct (@exportFavicon_total net (latestFavicon s) doc1 zip1 log1 Hnet)
      as (doc2 & zip2 & log2 & L2 & _).
    rewrite L2. cbn [snd]. do 2 eexists. reflexivity.
  - intros before after im log zip. unfold exportSite.
    set (doc := parseFromString (htmlEditor s)).
    destruct (exportImages net (before ++ im :: after) doc
                [("images/", ZipFolder)] []) as [[[doc1 zip1]|] log1] eqn:L1.
    2:{ cbn [snd]. intros X. now apply download_is_last in X. }
    destruct (exportFavicon net (latestFavicon s) doc1 zip1 log1)
      as [[[doc2 zip2]|] log2] eqn:L2.
    2:{ cbn [snd]. intros X. now apply download_is_last in X. }
    cbn [snd]. intros X Hid. apply app_inj_tail in X. destruct X as [<- X].
    inversion X; subst zip. clear X.
    destruct (@exportImages_exports _ _ _ _ _ _ _ _ _ _ L1 Hid) as (blob & N & F & D & P).
    destruct (@exportFavicon_files _ _ _ _ _ _ _ _ L2) as (G1 & G2 & G3).
    exists blob, (restyle (cssEditor s) doc2).
    split; [exact N|]. split; [now apply G1|]. split; [|split; [|split]].
    + destruct D as [data D]. destruct (G2 _ _ D) as [d Hd].
      eapply zipPut_keeps_file. exact Hd.
    + intros Hlast Hfav.
      rewrite zipGet_zipPut_other by (apply not_eq_sym, imagePath_not_index).
      rewrite G3 by exact Hfav. now apply P.
    + apply zipGet_zipPut_same.
    + intros t a W Hids Q R.
      destruct (@exportImages_src _ _ _ _ _ _ _ _ _ _ _ _ L1 Hids Q R) as (W1 & a1 & Q1 & A1).
      destruct (@exportFavicon_src _ _ _ _ _ _ _ _ _ _ _ _ L2 Q1 A1) as (W2 & a2 & Q2 & A2).
      apply (@docFirstHas_query _ _ _ _ t a2); [|exact A2].
      apply restyle_first; auto.
      * now rewrite W2, W1.
      * now apply reflectsSrc_not_style.
      * apply styleElement_no_id.
  - intros before after im log zip. unfold exportSiteEarlier.
    set (doc := parseFromString (htmlEditor s)).
    destruct (exportImages net (before ++ im :: after) doc
                [("images/", ZipFolder)] []) as [[[doc1 zip1]|] log1] eqn:L1.
    2:{ cbn [snd]. intros X. now apply download_is_last in X. }
    cbn [snd]. intros X Hid. apply app_inj_tail in X. destruct X as [<- X].
    inversion X; subst zip. clear X.
    destruct (@exportImages_exports _ _ _ _ _ _ _ _ _ _ L1 Hid) as (blob & N & F & D & P).
    exists blob, (restyle (cssEditor s) doc1).
    split; [exact N|]. split; [exact F|]. split; [|split; [|split]].
    + destruct D as [data D]. eapply zipPut_keeps_file. exact D.
    + intros Hlast.
      rewrite zipGet_zipPut_other by (apply not_eq_sym, imagePath_not_index).
      now apply P.
    + apply zipGet_zipPut_same.
    + intros t a W Hids Q R.
      destruct (@exportImages_src _ _ _ _ _ _ _ _ _ _ _ _ L1 Hids Q R) as (W1 & a1 & Q1 & A1).
      apply (@docFirstHas_query _ _ _ _ t a1); [|exact A1].
      apply restyle_first; auto.
      * now rewrite W1.
      * now apply reflectsSrc_not_style.
      * apply styleElement_no_id.
Qed.

End ExportClaim.

(** Why the file of an image is its payload only when no later image
    goes to the same path: two images whose ids give one file name are
    both fetched, and the archive holds one file for the two, the payload
    of the second. *)
Example images_of_one_file_name_share_a_file :
  docHasId (img_id bannerImage) (parseTwin (htmlEditor twinPage)) = true
  /\ docHasId (img_id heroImage) (parseTwin (htmlEditor twinPage)) = true
  /\ img_url bannerImage <> img_url heroImage
  /\ exists zip,
       snd (clickExport parseTwin serializePlain echoNet twinPage)
       = [FetchCall (img_url bannerImage); FetchCall (img_url heroImage);
          DownloadZip "ai-generated-website.zip" zip]
       /\ zipPaths zip = ["images/"; "images/hero_image.jpeg"; "index.html"]
       /\ zipGet (imagePath bannerImage) zip = Some (ZipFile (img_url heroImage)).
Proof.
  split; [reflexivity|]. split; [reflexivity|]. split; [discriminate|].
  eexists. vm_compute. repeat split.
Qed.

(** C9 on the bakery export: the image without an element, between the
    two that have one; the file of the second is its payload and the page
    points to it. *)
Lemma export_skips_unmatched_images_witness :
  docHasId (img_id strayImage) (parseBakery (htmlEditor bakeryExportPage)) = false
  /\ clickExport parseBakery serializePlain echoNet bakeryExportPage
     = exportSite parseBakery serializePlain echoNet [heroImage; menuImage]
         bakeryExportPage
  /\ exists zip page,
       zipGet "images/menu_image.jpeg" zip = Some (ZipFile (img_url menuImage))
       /\ zipGet "index.html" zip = Some (ZipFile (serializePlain page))
       /\ docFirstHas (hasId "menu-image") "src" "images/menu_image.jpeg" page.
Proof.
  destruct (@export_skips_unmatched_images parseBakery serializePlain echoNet
              bakeryExportPage [heroImage] [menuImage] strayImage eq_refl)
    as (_ & _ & A & _ & B & _).
  split; [reflexivity|]. split.
  - apply A; [reflexivity|discriminate].
  - edestruct (B [heroImage; strayImage] [] menuImage
                 [FetchCall (img_url heroImage); FetchCall (img_url menuImage)])
      as (blob & page & N & _ & _ & P & I & S).
    + vm_compute. reflexivity.
    + reflexivity.
    + inversion N; subst blob. eexists _, page.
      split; [apply P; [intros other []|discriminate]|].
      split; [exact I|].
      apply (S (htmlTag "img") [("id", "menu-image")]);
        [reflexivity|intros other []|reflexivity|reflexivity].
Defined.

(* ================================================================== *)
(** * Strings: trimming, searching, lower case *)
(* ================================================================== *)

Lemma trimEnd_cons (c : ascii) (r : string) :
  trimEnd (String c r)
  = match trimEnd r with
    | EmptyString => if isWhiteSpace c then EmptyString else String c EmptyString
    | r' => String c r'
    end.
Proof. reflexivity. Qed.

Lemma trimEnd_trimEnd (s : string) : trimEnd (trimEnd s) = trimEnd s.
Proof.
  induction s as [|c r IH]; [reflexivity|]. rewrite trimEnd_cons.
  destruct (trimEnd r) as [|c' r'] eqn:E.
  - destruct (isWhiteSpace c) eqn:W; [reflexivity|].
    rewrite trimEnd_cons. cbn [trimEnd]. now rewrite W.
  - rewrite trimEnd_cons, IH. reflexivity.
Qed.

(** A string that starts with a character that is no white space keeps
    it under [trimEnd]. *)
Lemma trimEnd_head (c : ascii) (r : string) :
  isWhiteSpace c = false -> exists r', trimEnd (String c r) = String c r'.
Proof.
  intros W. rewrite trimEnd_cons. destruct (trimEnd r); [rewrite W|]; eauto.
Qed.

Lemma trimStart_head (s : string) :
  trimStart s = ""
  \/ exists c r, trimStart s = String c r /\ isWhiteSpace c = false.
Proof.
  induction s as [|c r IH]; [now left|]. cbn [trimStart].
  destruct (isWhiteSpace c) eqn:W; [exact IH|]. right. eauto.
Qed.

Lemma trim_trim (s : string) : trim (trim s) = trim s.
Proof.
  unfold trim. destruct (trimStart_head s) as [E|(c & r & E & W)]; rewrite E.
  - reflexivity.
  - destruct (@trimEnd_head c r W) as (r' & E'). rewrite E'.
    cbn [trimStart]. rewrite W, <- E'. apply trimEnd_trimEnd.
Qed.

Lemma trim_allWhiteSpace (s : string) : allWhiteSpace s -> trim s = "".
Proof.
  unfold allWhiteSpace, trim. induction s as [|c r IH]; [reflexivity|].
  cbn [list_ascii_of_string trimStart]. intros H. inversion H; subst.
  rewrite H2. now apply IH.
Qed.

Lemma prefix_append (u b : string) : prefix u (u ++ b) = true.
Proof.
  induction u as [|c u IH]; [destruct b; reflexivity|].
  cbn [append prefix]. destruct (ascii_dec c c); [exact IH|congruence].
Qed.

Lemma index_empty (s : string) : index 0 "" s = Some 0%nat.
Proof. destruct s; reflexivity. Qed.

Lemma includes_here (u b : string) : includes (u ++ b) u = true.
Proof.
  unfold includes. destruct u as [|c u]; [now rewrite index_empty|].
  cbn [append index].
  change (String c (u ++ b)) with (String c u ++ b)%string.
  now rewrite prefix_append.
Qed.

Lemma includes_later (a s u : string) :
  includes s u = true -> includes (a ++ s) u = true.
Proof.
  unfold includes. induction a as [|c a IH]; [auto|].
  intros H. cbn [append index].
  destruct (prefix u (String c (a ++ s))); [reflexivity|].
  specialize (IH H). destruct (index 0 u (a ++ s)); [reflexivity|discriminate].
Qed.

Lemma substring0_length (n : nat) (s : string) :
  String.length (substring 0 n s) = Nat.min n (String.length s).
Proof.
  revert s. induction n as [|n IH]; intros s; [destruct s; reflexivity|].
  destruct s as [|c s]; [reflexivity|]. cbn [substring String.length Nat.min].
  now rewrite IH.
Qed.

Lemma substring0_prefix (n : nat) (s : string) : prefix (substring 0 n s) s = true.
Proof.
  revert s. induction n as [|n IH]; intros s; [destruct s; reflexivity|].
  destruct s as [|c s]; [reflexivity|]. cbn [substring prefix].
  destruct (ascii_dec c c); [apply IH|congruence].
Qed.

(** Lower-casing neither makes nor unmakes a digit. *)
Lemma lowerChar_digit (c : ascii) :
  (isDigitAscii (lowerChar c) = true -> lowerChar c = c)
  /\ (isDigitAscii c = true -> lowerChar c = c).
Proof.
  destruct c as [[] [] [] [] [] [] [] []]; vm_compute; split;
    intros; try reflexivity; discriminate.
Qed.

Lemma prefix_lower_digits (p m : string) :
  digitsOnly p -> prefix p (toLowerCase m) = prefix p m.
Proof.
  unfold digitsOnly, toLowerCase. revert m.
  induction p as [|d p IH]; intros m H; [destruct m; reflexivity|].
  cbn [list_ascii_of_string] in H. inversion H; subst.
  destruct m as [|c m]; [reflexivity|]. cbn [mapString prefix].
  destruct (ascii_dec d (lowerChar c)) as [E|N], (ascii_dec d c) as [E'|N'];
    [now apply IH| | |reflexivity].
  - exfalso. apply N'. rewrite E. apply (proj1 (lowerChar_digit c)).
    now rewrite <- E.
  - exfalso. apply N. subst c. symmetry. now apply (proj2 (lowerChar_digit d)).
Qed.

Lemma includes_lower_digits (p m : string) :
  digitsOnly p -> includes (toLowerCase m) p = includes m p.
Proof.
  intros H. unfold includes.
  assert (X : forall n, index n p (toLowerCase m) = index n p m); [|now rewrite X].
  induction m as [|c m IH]; intros n; [reflexivity|].
  change (toLowerCase (String c m)) with (String (lowerChar c) (toLowerCase m)).
  cbn [index]. destruct n as [|n]; [|now rewrite IH].
  change (String (lowerChar c) (toLowerCase m)) with (toLowerCase (String c m)).
  rewrite (prefix_lower_digits _ H), IH. reflexivity.
Qed.

(* ================================================================== *)
(** * The form, the requests and the messages *)
(* ================================================================== *)

Section RequestFacts.

Variable parseFromString : string -> Document.
Variable outerHTML : Document -> string.

Local Abbreviation generateWebsite := (generateWebsite parseFromString outerHTML).
Local Abbreviation submitForm := (submitForm parseFromString outerHTML).
Local Abbreviation populateUI := (populateUI parseFromString outerHTML).
Local Abbreviation clickExport := (clickExport parseFromString outerHTML).
Local Abbreviation exportSite := (exportSite parseFromString outerHTML).
Local Abbreviation step := (step parseFromString outerHTML).
Local Abbreviation runEvents := (runEvents parseFromString outerHTML).
Local Abbreviation loadStateFromHistory :=
  (loadStateFromHistory parseFromString outerHTML).
Local Abbreviation loadStateFromLocalStorage :=
  (loadStateFromLocalStorage parseFromString outerHTML).

(** X16.  The submit listener reads the prompt through [trim] only: it
    does for a prompt what it does for the trimmed prompt, and with the
    model initialised a prompt of white space alone is turned down as a
    missing one. *)
Theorem submit_reads_the_trimmed_prompt :
  forall (form : FormInput) (run : GenerationRun) (s : State),
    submitForm form run s
    = submitForm
        (mkFormInput (trim (inputValue form)) (pageType form) (language form)
           (imageCount form) (selectedSections form)) run s
    /\ (allWhiteSpace (inputValue form) -> aiReady s = true ->
        submitForm form run s
        = (showError s, [Alert MsgPromptMissing; FocusInput])).
Proof.
  intros form run s. split.
  - unfold submitForm. cbn [inputValue language]. rewrite trim_trim. reflexivity.
  - intros W A. unfold submitForm. rewrite A, (trim_allWhiteSpace W). reflexivity.
Qed.

(** X17.  The category of an error message does not depend on letter
    case when it is one of the five found by keyword (authentication,
    limit, overload, blocked request, response format): a message with
    the same lower-case form gets the same category. *)
Theorem error_category_ignores_letter_case :
  forall m1 m2 : string,
    toLowerCase m1 = toLowerCase m2 ->
    foundByKeyword (getFriendlyErrorMessage m1) ->
    getFriendlyErrorMessage m2 = getFriendlyErrorMessage m1.
Proof.
  intros m1 m2 H. unfold getFriendlyErrorMessage. cbv zeta.
  assert (D : forall p, digitsOnly p -> includes m2 p = includes m1 p).
  { intros p Hp. now rewrite <- (includes_lower_digits m2 Hp),
                             <- (includes_lower_digits m1 Hp), H. }
  rewrite (D "401"), (D "403"), (D "429"), (D "503"), <- H
    by (repeat constructor).
  destruct (includes m1 "401" || includes m1 "403"
            || includes (toLowerCase m1) "api key"); [reflexivity|].
  destruct (includes m1 "429" || includes (toLowerCase m1) "quota"
            || includes (toLowerCase m1) "resource exhausted"); [reflexivity|].
  destruct (includes m1 "503" || includes (toLowerCase m1) "overloaded"
            || includes (toLowerCase m1) "unavailable"); [reflexivity|].
  destruct (includes (toLowerCase m1) "safety"
            || includes (toLowerCase m1) "blocked"
            || includes (toLowerCase m1) "harmful"); [reflexivity|].
  destruct (includes (toLowerCase m1) "json"
            || includes (toLowerCase m1) "syntax"); [reflexivity|].
  unfold foundByKeyword.
  destruct (includes m1 "Failed to fetch");
    intros [X|[X|[X|[X|X]]]]; discriminate.
Qed.

(** X18.  When no keyword is found, the text shown carries the start of
    the raw message and never more than 150 characters of it. *)
Theorem unexpected_error_detail_is_bounded :
  forall (message detail : string),
    getFriendlyErrorMessage message = Unexpected detail ->
    prefix detail message = true
    /\ String.length detail = Nat.min 150 (String.length message)
    /\ (String.length detail <= 150)%nat.
Proof.
  intros message detail. unfold getFriendlyErrorMessage. cbv zeta.
  repeat match goal with
         | |- (if ?c then _ else _) = _ -> _ => destruct c; [discriminate|]
         end.
  intros E. inversion E; subst. unfold substring0.
  split; [apply substring0_prefix|]. rewrite substring0_length.
  split; [reflexivity|apply Nat.le_min_l].
Qed.

(** X19.  The requests carry the words they are made from verbatim: the
    structured request holds the prompt it was given, the language, the
    page type, the image count and the selected sections joined by a
    comma and a space; the refinement request holds the short prompt and
    the favicon request the favicon prompt. *)
Theorem requests_quote_their_inputs :
  forall (userPrompt : string) (form : FormInput) (p : ImagePrompt)
         (prompt : string),
    includes (detailedPromptOf userPrompt form) userPrompt = true
    /\ includes (detailedPromptOf userPrompt form) (language form) = true
    /\ includes (detailedPromptOf userPrompt form) (pageType form) = true
    /\ includes (detailedPromptOf userPrompt form) (imageCount form) = true
    /\ includes (detailedPromptOf userPrompt form)
         (join ", " (selectedSections form)) = true
    /\ includes (refinementContents p) (ip_prompt p) = true
    /\ includes (faviconRequest prompt) prompt = true.
Proof.
  intros userPrompt form p prompt.
  unfold detailedPromptOf, refinementContents, faviconRequest.
  repeat split;
    repeat first [apply includes_here | apply includes_later].
Qed.

Lemma filter_network_refinements (prompts : list ImagePrompt) :
  filter isNetworkCall (refinementCalls prompts) = refinementCalls prompts.
Proof.
  unfold refinementCalls. induction prompts as [|p l IH]; [reflexivity|].
  cbn [map filter isNetworkCall]. now rewrite IH.
Qed.

Lemma filter_network_images (prompts : list ImagePrompt) :
  filter isNetworkCall (imageCalls prompts) = imageCalls prompts.
Proof.
  unfold imageCalls. induction prompts as [|p l IH]; [reflexivity|].
  cbn [map filter isNetworkCall]. now rewrite IH.
Qed.

Lemma renderFrom_prompts (run : GenerationRun) (prompts : list ImagePrompt) :
  forall index,
    map img_prompt (renderFrom run index prompts) = map ip_prompt prompts.
Proof.
  induction prompts as [|p l IH]; intros index; [reflexivity|].
  cbn [renderFrom map]. now rewrite renderImage_prompt, IH.
Qed.

(** X20.  A generation whose structured reply carries [n] image prompts
    makes 2n + 2 requests and no other: the structured request, one
    refinement request per prompt, the favicon request, and one image
    request per prompt, each for the prompt the published asset at that
    position records.  A generation whose structured stage fails makes
    the structured request alone. *)
Theorem generation_makes_two_calls_per_image :
  forall (run : GenerationRun) (detailedPrompt coreIdea lang : string) (s : State),
    (forall websiteData prompts,
        structuredOutcome run = StructuredData websiteData ->
        imagePrompts websiteData = Some prompts ->
        snd (generateWebsite run detailedPrompt coreIdea lang s)
        = [GenerateContentCall detailedPrompt]
          ++ map (fun p => GenerateContentCall (refinementContents p)) prompts
          ++ [GenerateImagesCall (faviconRequest (faviconPrompt websiteData))]
          ++ map (fun asset => GenerateImagesCall (img_prompt asset))
               (latestGeneratedImages
                  (fst (generateWebsite run detailedPrompt coreIdea lang s)))
        /\ length
             (filter isNetworkCall
                (snd (generateWebsite run detailedPrompt coreIdea lang s)))
           = (2 * length prompts + 2)%nat)
    /\ (structuredFails run ->
        filter isNetworkCall
          (snd (generateWebsite run detailedPrompt coreIdea lang s))
        = [GenerateContentCall detailedPrompt]).
Proof.
  intros run detailedPrompt coreIdea lang s. split.
  - intros websiteData prompts E1 E2.
    assert (A : latestGeneratedImages
                  (fst (generateWebsite run detailedPrompt coreIdea lang s))
                = renderFrom run 0 (improveFrom run 0 prompts)).
    { unfold generateWebsite. rewrite E1, E2. cbn [fst].
      cbn [endGeneration setLoadingState set_generateBtn_disabled
             set_loadingContainer_hidden latestGeneratedImages].
      rewrite populateUI_images. unfold generateImages.
      now rewrite generateImagesLoop_spec. }
    rewrite A. unfold generateWebsite. rewrite E1, E2. cbn [snd].
    unfold improveImagePrompts, refinementCalls, imageCalls.
    split.
    + do 3 f_equal. rewrite <- (map_map img_prompt GenerateImagesCall),
        renderFrom_prompts, map_map. reflexivity.
    + rewrite !filter_app. cbn [filter isNetworkCall].
      fold (refinementCalls prompts).
      fold (imageCalls (improveFrom run 0 prompts)).
      rewrite filter_network_refinements, filter_network_images.
      unfold refinementCalls, imageCalls.
      rewrite !length_app, !length_map, improveFrom_length. cbn [length]. lia.
  - unfold structuredFails, generateWebsite.
    destruct (structuredOutcome run) as [m|w]; [reflexivity|].
    intros ->. reflexivity.
Qed.

Lemma push_controls (html css : string) (s : State) :
  generateBtn_disabled (pushHistoryState html css s) = generateBtn_disabled s
  /\ exportBtn_disabled (pushHistoryState html css s) = exportBtn_disabled s
  /\ loadingContainer_hidden (pushHistoryState html css s)
     = loadingContainer_hidden s.
Proof.
  unfold pushHistoryState. destruct (historyIndex s <? lastIndex s)%Z;
    repeat split.
Qed.

Lemma load_controls (s : State) :
  generateBtn_disabled (loadStateFromHistory s) = generateBtn_disabled s
  /\ exportBtn_disabled (loadStateFromHistory s) = exportBtn_disabled s
  /\ loadingContainer_hidden (loadStateFromHistory s) = loadingContainer_hidden s.
Proof.
  unfold loadStateFromHistory.
  destruct (at_index (history s) (historyIndex s)); repeat split.
Qed.

Lemma populateUI_controls (html : string) (images : list Image)
    (metaDesc metaKeywords : string) (s : State) :
  generateBtn_disabled (populateUI html images metaDesc metaKeywords s)
  = generateBtn_disabled s
  /\ exportBtn_disabled (populateUI html images metaDesc metaKeywords s)
     = exportBtn_disabled s
  /\ loadingContainer_hidden (populateUI html images metaDesc metaKeywords s)
     = loadingContainer_hidden s.
Proof.
  unfold populateUI. destruct (populateDocument _ _ _ _) as [css doc].
  cbv zeta. unfold resetHistory.
  cbn [generateBtn_disabled exportBtn_disabled loadingContainer_hidden
       set_resultContainer_hidden updatePreview set_previewFrame_srcdoc
       set_imageGallery].
  match goal with |- context [pushHistoryState ?h ?c ?st] =>
    destruct (push_controls h c st) as (A & B & C); rewrite A, B, C
  end.
  repeat split.
Qed.

Lemma generateWebsite_controls (run : GenerationRun)
    (detailedPrompt coreIdea lang : string) (s : State) :
  generateBtn_disabled (fst (generateWebsite run detailedPrompt coreIdea lang s))
  = false
  /\ exportBtn_disabled (fst (generateWebsite run detailedPrompt coreIdea lang s))
     = exportBtn_disabled s
  /\ loadingContainer_hidden
       (fst (generateWebsite run detailedPrompt coreIdea lang s)) = true.
Proof.
  unfold generateWebsite.
  destruct (structuredOutcome run) as [m|w]; [repeat split|].
  destruct (imagePrompts w) as [prompts|]; [|repeat split].
  cbn [fst endGeneration setLoadingState negb].
  cbn [generateBtn_disabled exportBtn_disabled loadingContainer_hidden
       set_generateBtn_disabled set_loadingContainer_hidden].
  split; [reflexivity|]. split; [|reflexivity].
  match goal with |- context [populateUI ?h ?i ?m ?k ?st] =>
    destruct (populateUI_controls h i m k st) as (_ & B & _)
  end.
  change (exportBtn_disabled (endGeneration ?x)) with (exportBtn_disabled x).
  rewrite B. reflexivity.
Qed.

Lemma step_controls (e : Event) (s : State) :
  controlsIdle s -> controlsIdle (fst (step e s)).
Proof.
  intros (G & X & L). unfold controlsIdle.
  destruct e as [|form run|text|text| | | |net|now accepts]; cbn [step fst].
  - unfold loadStateFromLocalStorage.
    destruct (localStorage s) as [[data|raw]|]; [|now repeat split..].
    destruct (isEmptyString (sd_html data)); [now repeat split|].
    match goal with |- context [pushHistoryState ?h ?c ?st] =>
      destruct (push_controls h c st) as (A & B & C); rewrite A, B, C
    end.
    now repeat split.
  - unfold submitForm.
    destruct (negb (aiReady s)); [now repeat split|].
    destruct (isEmptyString (trim (inputValue form))); [now repeat split|].
    destruct (String.length (trim (inputValue form)) <? MIN_PROMPT_LENGTH)%nat;
      [now repeat split|].
    match goal with |- context [generateWebsite ?r ?d ?c ?l ?st] =>
      destruct (generateWebsite_controls r d c l st) as (A & B & C);
      rewrite A, B, C
    end.
    now repeat split.
  - now repeat split.
  - now repeat split.
  - unfold clickUpdatePreview.
    match goal with |- context [pushHistoryState ?h ?c ?st] =>
      destruct (push_controls h c st) as (A & B & C); rewrite A, B, C
    end.
    now repeat split.
  - unfold clickUndo. destruct (0 <? historyIndex s)%Z; [|now repeat split].
    destruct (load_controls (set_historyIndex (historyIndex s - 1) s))
      as (A & B & C).
    rewrite A, B, C. now repeat split.
  - unfold clickRedo.
    destruct (historyIndex s <? lastIndex s)%Z; [|now repeat split].
    destruct (load_controls (set_historyIndex (historyIndex s + 1) s))
      as (A & B & C).
    rewrite A, B, C. now repeat split.
  - unfold clickExport.
    destruct (isEmptyString (htmlEditor s) || isEmptyList (latestGeneratedImages s));
      [now repeat split|].
    destruct (exportSite_cases parseFromString outerHTML net
                (latestGeneratedImages s) s)
      as [(urls & url & _ & _ & _ & S & _)|(urls & zip & _ & _ & S & _)];
      rewrite S; now repeat split.
  - unfold saveStateToLocalStorage.
    destruct (isEmptyString (htmlEditor s) && isEmptyList (latestGeneratedImages s));
      [now repeat split|].
    destruct (accepts _); [now repeat split|].
    destruct (accepts _); now repeat split.
Qed.

(** X3.  No listener leaves the page busy.  From any state, a run of
    [generateWebsite] ends with the generate button enabled and the
    loading indicator hidden, and an export that went past its guard
    ends with the export button enabled, whatever their calls did.  So a
    page on which the two buttons are enabled and the indicator is
    hidden is so again after every sequence of events. *)
Theorem no_listener_leaves_the_page_busy :
  (forall (run : GenerationRun) (detailedPrompt coreIdea lang : string)
          (net : string -> option string) (images : list Image) (s : State),
      generateBtn_disabled
        (fst (generateWebsite run detailedPrompt coreIdea lang s)) = false
      /\ loadingContainer_hidden
           (fst (generateWebsite run detailedPrompt coreIdea lang s)) = true
      /\ exportBtn_disabled (fst (exportSite net images s)) = false)
  /\ (forall (events : list Event) (s : State),
         controlsIdle s -> controlsIdle (runEvents events s)).
Proof.
  split.
  - intros run detailedPrompt coreIdea lang net images s.
    destruct (generateWebsite_controls run detailedPrompt coreIdea lang s)
      as (A & _ & C).
    split; [exact A|]. split; [exact C|].
    destruct (exportSite_cases parseFromString outerHTML net images s)
      as [(urls & url & _ & _ & _ & S & _)|(urls & zip & _ & _ & S & _)];
      rewrite S; reflexivity.
  - intros events. unfold runEvents.
    induction events as [|e l IH]; intros s H; [exact H|].
    cbn [fold_left]. apply IH. now apply step_controls.
Qed.

End RequestFacts.

(* ================================================================== *)
(** * The tab bar *)
(* ================================================================== *)

Lemma selectButtons_nth (target : nat) (buttons : list TabButton) :
  forall position j,
    nth_error (selectButtons position target buttons) j
    = match nth_error buttons j with
      | Some button =>
          Some (mkTabButton (tb_tab button)
                  (Some (boolText (position + j =? target)%nat))
                  (Some (boolText (position + j =? target)%nat))
                  (position + j =? target)%nat)
      | None => None
      end.
Proof.
  induction buttons as [|b l IH]; intros position j; [destruct j; reflexivity|].
  destruct j as [|j]; cbn [selectButtons nth_error].
  - now rewrite Nat.add_0_r.
  - rewrite IH. now rewrite Nat.add_succ_r.
Qed.

Lemma selectButtonsEarlier_nth (target : nat) (buttons : list TabButton) :
  forall position j,
    nth_error (selectButtonsEarlier position target buttons) j
    = match nth_error buttons j with
      | Some button =>
          Some (mkTabButton (tb_tab button) (tb_dataSelected button)
                  (Some (boolText (position + j =? target)%nat))
                  (position + j =? target)%nat)
      | None => None
      end.
Proof.
  induction buttons as [|b l IH]; intros position j; [destruct j; reflexivity|].
  destruct j as [|j]; cbn [selectButtonsEarlier nth_error].
  - now rewrite Nat.add_0_r.
  - rewrite IH. now rewrite Nat.add_succ_r.
Qed.

Lemma selectButtons_active (target : nat) (buttons : list TabButton) :
  forall position,
    length (filter tb_active (selectButtons position target buttons))
    = if (position <=? target)%nat && (target <? position + length buttons)%nat
      then 1%nat else 0%nat.
Proof.
  induction buttons as [|b l IH]; intros position.
  - cbn [selectButtons filter length]. rewrite Nat.add_0_r.
    destruct (position <=? target)%nat eqn:A; [|reflexivity].
    destruct (target <? position)%nat eqn:B; [|reflexivity].
    apply Nat.leb_le in A. apply Nat.ltb_lt in B. lia.
  - cbn [selectButtons filter tb_active length].
    destruct (position =? target)%nat eqn:E.
    + apply Nat.eqb_eq in E. subst target. cbn [length]. rewrite IH.
      replace (S position <=? position)%nat with false
        by (symmetry; apply Nat.leb_gt; lia).
      replace (position <=? position)%nat with true
        by (symmetry; apply Nat.leb_le; lia).
      replace (position <? position + S (length l))%nat with true
        by (symmetry; apply Nat.ltb_lt; lia).
      reflexivity.
    + apply Nat.eqb_neq in E. rewrite IH.
      destruct (S position <=? target)%nat eqn:A,
               (position <=? target)%nat eqn:A',
               (target <? S position + length l)%nat eqn:B,
               (target <? position + S (length l))%nat eqn:B';
        try reflexivity;
        repeat match goal with
               | H : (_ <=? _)%nat = true |- _ => apply Nat.leb_le in H
               | H : (_ <=? _)%nat = false |- _ => apply Nat.leb_gt in H
               | H : (_ <? _)%nat = true |- _ => apply Nat.ltb_lt in H
               | H : (_ <? _)%nat = false |- _ => apply Nat.ltb_ge in H
               end; lia.
Qed.

Lemma selectButtons_tabs (target : nat) (buttons : list TabButton) :
  forall position,
    map tb_tab (selectButtons position target buttons) = map tb_tab buttons.
Proof.
  induction buttons as [|b l IH]; intros position; [reflexivity|].
  cbn [selectButtons map tb_tab]. now rewrite IH.
Qed.

Lemma selectButtons_ext (target : nat) (l l' : list TabButton) :
  map tb_tab l = map tb_tab l' ->
  forall position,
    selectButtons position target l = selectButtons position target l'.
Proof.
  revert l'. induction l as [|b l IH]; intros [|b' l'] H position;
    try discriminate; [reflexivity|].
  cbn [map] in H. injection H as H1 H2.
  cbn [selectButtons]. rewrite H1. f_equal. now apply IH.
Qed.

Lemma showContents_ids (tabName : string) (contents : list TabContent) :
  map tc_id (showContents tabName contents) = map tc_id contents.
Proof.
  unfold showContents. rewrite map_map. reflexivity.
Qed.

Lemma showContents_ext (tabName : string) (l l' : list TabContent) :
  map tc_id l = map tc_id l' -> showContents tabName l = showContents tabName l'.
Proof.
  unfold showContents. revert l'.
  induction l as [|c l IH]; intros [|c' l'] H; try discriminate; [reflexivity|].
  cbn [map] in *. injection H as H1 H2. rewrite H1. f_equal. now apply IH.
Qed.

Lemma clickTabs_tabs (target : ClickTarget) (bar : TabBar) :
  map tb_tab (tabButtons (clickTabs target bar)) = map tb_tab (tabButtons bar)
  /\ map tc_id (tabContents (clickTabs target bar)) = map tc_id (tabContents bar).
Proof.
  unfold clickTabs. destruct target as [position|]; [|now split].
  destruct (nth_error (tabButtons bar) position) as [b|]; [|now split].
  destruct (tb_tab b) as [name|]; [|now split].
  destruct (isEmptyString name); [now split|].
  cbn [tabButtons tabContents]. split.
  - apply selectButtons_tabs.
  - apply showContents_ids.
Qed.

Lemma nth_error_map_eq (A B : Type) (f : A -> B) (l l' : list A) (n : nat) :
  map f l = map f l' ->
  option_map f (nth_error l n) = option_map f (nth_error l' n).
Proof. intros H. now rewrite <- !nth_error_map, H. Qed.

(** X21.  A click on a tab button that names a tab leaves that button,
    and no other, active and marked as selected, and shows the panels
    whose id starts with the name of the tab and no other panel.  In
    the earlier revision likewise, [data-selected] apart. *)
Theorem tab_click_selects_one_tab :
  forall (position : nat) (button : TabButton) (tabName : string) (bar : TabBar),
    nth_error (tabButtons bar) position = Some button ->
    tb_tab button = Some tabName ->
    tabName <> "" ->
    (forall j, nth_error (tabButtons (clickTabs (TargetTabButton position) bar)) j
               = match nth_error (tabButtons bar) j with
                 | Some b =>
                     Some (mkTabButton (tb_tab b)
                             (Some (boolText (j =? position)%nat))
                             (Some (boolText (j =? position)%nat))
                             (j =? position)%nat)
                 | None => None
                 end)
    /\ length (filter tb_active
                 (tabButtons (clickTabs (TargetTabButton position) bar))) = 1%nat
    /\ tabContents (clickTabs (TargetTabButton position) bar)
       = map (fun content =>
                mkTabContent (tc_id content) (prefix tabName (tc_id content))
                  (negb (prefix tabName (tc_id content))))
           (tabContents bar)
    /\ (forall j,
          nth_error (tabButtons (clickTabsEarlier (TargetTabButton position) bar)) j
          = match nth_error (tabButtons bar) j with
            | Some b =>
                Some (mkTabButton (tb_tab b) (tb_dataSelected b)
                        (Some (boolText (j =? position)%nat))
                        (j =? position)%nat)
            | None => None
            end)
    /\ tabContents (clickTabsEarlier (TargetTabButton position) bar)
       = tabContents (clickTabs (TargetTabButton position) bar).
Proof.
  intros position button tabName bar N T E.
  apply isEmptyString_false in E.
  unfold clickTabs, clickTabsEarlier. rewrite N, T, E.
  cbn [tabButtons tabContents].
  split; [intros j; apply (selectButtons_nth position (tabButtons bar) 0 j)|].
  split.
  - rewrite selectButtons_active. cbn [Nat.leb andb Nat.add].
    replace (position <? length (tabButtons bar))%nat with true; [reflexivity|].
    symmetry. apply Nat.ltb_lt. apply nth_error_Some. congruence.
  - split; [reflexivity|]. split; [|reflexivity].
    intros j. apply (selectButtonsEarlier_nth position (tabButtons bar) 0 j).
Qed.

(** X22.  Of two clicks on the tab bar it is the later that counts: a
    click on a button that names a tab gives the same bar whatever click
    came before it, a click repeated changes nothing, and a click on
    anything else (an element that is no tab button, a button without a
    tab name) leaves the bar as it is. *)
Theorem last_tab_click_wins :
  forall (first second : ClickTarget) (bar : TabBar),
    ((exists tabName, namesTab second bar tabName) ->
     clickTabs second (clickTabs first bar) = clickTabs second bar)
    /\ clickTabs second (clickTabs second bar) = clickTabs second bar
    /\ ((forall tabName, ~ namesTab second bar tabName) ->
        clickTabs second bar = bar).
Proof.
  assert (L : forall first second bar,
             (exists tabName, namesTab second bar tabName) ->
             clickTabs second (clickTabs first bar) = clickTabs second bar).
  { intros first second bar (tabName & position & button & -> & N & T & E).
    destruct (clickTabs_tabs first bar) as [B C].
    assert (N' := nth_error_map_eq tb_tab _ _ position B).
    rewrite N in N'. cbn [option_map] in N'.
    unfold clickTabs at 1 3. rewrite N.
    destruct (nth_error (tabButtons (clickTabs first bar)) position)
      as [button'|]; [|discriminate].
    cbn [option_map] in N'. injection N' as N'. rewrite N', T.
    destruct (isEmptyString tabName) eqn:X; [|f_equal].
    - apply isEmptyString_true in X. contradiction.
    - now apply selectButtons_ext.
    - now apply showContents_ext. }
  assert (I : forall second bar,
             (forall tabName, ~ namesTab second bar tabName) ->
             clickTabs second bar = bar).
  { intros second bar H. unfold clickTabs.
    destruct second as [position|]; [|reflexivity].
    destruct (nth_error (tabButtons bar) position) as [button|] eqn:N;
      [|reflexivity].
    destruct (tb_tab button) as [tabName|] eqn:T; [|reflexivity].
    destruct (isEmptyString tabName) eqn:E; [reflexivity|].
    exfalso. apply (H tabName). exists position, button.
    repeat split; auto. now apply isEmptyString_false. }
  intros first second bar. split; [apply L|]. split; [|apply I].
  destruct second as [position|]; [|reflexivity].
  destruct (nth_error (tabButtons bar) position) as [button|] eqn:N.
  - destruct (tb_tab button) as [tabName|] eqn:T.
    + destruct (isEmptyString tabName) eqn:E.
      * unfold clickTabs at 2. now rewrite N, T, E.
      * apply L. exists tabName, position, button. repeat split; auto.
        now apply isEmptyString_false.
    + unfold clickTabs at 2. now rewrite N, T.
  - unfold clickTabs at 2. now rewrite N.
Qed.

(* ================================================================== *)
(** * Auto-save *)
(* ================================================================== *)

Lemma clearTimeout_single (handle other : nat) (due : Z) :
  clearTimeout handle [(other, due)]
  = if (other =? handle)%nat then [] else [(other, due)].
Proof. unfold clearTimeout. cbn. destruct (other =? handle)%nat; reflexivity. Qed.

Lemma timerStep_onePending (timer : AutoSaveTimer) (e : TimerEvent) :
  positiveHandle e -> onePending timer -> onePending (timerStep timer e).
Proof.
  intros P [E|(h & due & E & A & Hh)]; destruct e as [handle now|handle];
    cbn [timerStep positiveHandle] in *.
  - right. exists handle, (now + 1000)%Z. unfold triggerAutoSave. rewrite E.
    cbn [autoSaveTimeout pendingSaves].
    destruct (autoSaveTimeout timer) as [[|old]|]; cbn; auto.
  - left. cbn [pendingSaves]. now rewrite E.
  - right. exists handle, (now + 1000)%Z. unfold triggerAutoSave. rewrite E, A.
    destruct h as [|h]; [lia|]. rewrite clearTimeout_single, Nat.eqb_refl.
    cbn. auto.
  - cbn [pendingSaves autoSaveTimeout]. rewrite E, clearTimeout_single.
    destruct (h =? handle)%nat; [now left|].
    right. exists h, due. auto.
Qed.

Lemma timerRun_onePending (events : list TimerEvent) :
  forall timer,
    Forall positiveHandle events -> onePending timer ->
    onePending (timerRun events timer).
Proof.
  unfold timerRun. induction events as [|e l IH]; intros timer F H; [exact H|].
  inversion F; subst. cbn [fold_left]. apply IH; [assumption|].
  now apply timerStep_onePending.
Qed.

(** X23.  Saving is debounced.  With the handles [window.setTimeout]
    gives (greater than zero), at most one save is pending at any time,
    under the handle the script holds; after a call of
    [triggerAutoSave] the one pending save is due one second after that
    call, whatever was pending before; and a timer that runs leaves none
    pending. *)
Theorem autosave_is_debounced :
  forall events : list TimerEvent,
    Forall positiveHandle events ->
    (length (pendingSaves (timerRun events noTimer)) <= 1)%nat
    /\ (forall handle due,
          In (handle, due) (pendingSaves (timerRun events noTimer)) ->
          autoSaveTimeout (timerRun events noTimer) = Some handle)
    /\ (forall handle now,
          (0 < handle)%nat ->
          pendingSaves (timerRun (events ++ [SaveTriggered handle now]) noTimer)
          = [(handle, (now + 1000)%Z)])
    /\ (forall handle due,
          In (handle, due) (pendingSaves (timerRun events noTimer)) ->
          pendingSaves (timerRun (events ++ [TimerRuns handle]) noTimer) = []).
Proof.
  intros events F.
  assert (I : onePending (timerRun events noTimer)).
  { apply timerRun_onePending; [exact F|]. now left. }
  split; [|split; [|split]].
  - destruct I as [E|(h & due & E & _)]; rewrite E; cbn; lia.
  - intros handle due Hin. destruct I as [E|(h & d & E & A & _)];
      rewrite E in Hin; [destruct Hin|].
    destruct Hin as [X|[]]. inversion X; subst. exact A.
  - intros handle now Hpos. unfold timerRun. rewrite fold_left_app.
    cbn [fold_left timerStep]. fold (timerRun events noTimer).
    unfold triggerAutoSave. cbn [pendingSaves].
    destruct I as [E|(h & d & E & A & Hh)]; rewrite E.
    + destruct (autoSaveTimeout (timerRun events noTimer)) as [[|old]|];
        reflexivity.
    + rewrite A. destruct h as [|h]; [lia|].
      rewrite clearTimeout_single, Nat.eqb_refl. reflexivity.
  - intros handle due Hin. unfold timerRun. rewrite fold_left_app.
    cbn [fold_left timerStep pendingSaves]. fold (timerRun events noTimer).
    destruct I as [E|(h & d & E & _)]; rewrite E in *; [destruct Hin|].
    destruct Hin as [X|[]]. inversion X; subst.
    now rewrite clearTimeout_single, Nat.eqb_refl.
Qed.

(* ================================================================== *)
(** * The earlier revision *)
(* ================================================================== *)

Lemma renderFromEarlier_nth (run : GenerationRun) (prompts : list ImagePrompt) :
  forall index i,
    nth_error (renderFromEarlier run index prompts) i
    = option_map (renderImageEarlier run (index + i)) (nth_error prompts i).
Proof.
  induction prompts as [|p l IH]; intros index i; [destruct i; reflexivity|].
  destruct i as [|i]; cbn [renderFromEarlier nth_error option_map].
  - now rewrite Nat.add_0_r.
  - rewrite IH. now rewrite Nat.add_succ_r.
Qed.

Lemma improveFromEarlier_nth (run : GenerationRun) (prompts : list ImagePrompt) :
  forall index i,
    nth_error (improveFromEarlier run index prompts) i
    = option_map (improvePromptEarlier run (index + i)) (nth_error prompts i).
Proof.
  induction prompts as [|p l IH]; intros index i; [destruct i; reflexivity|].
  destruct i as [|i]; cbn [improveFromEarlier nth_error option_map].
  - now rewrite Nat.add_0_r.
  - rewrite IH. now rewrite Nat.add_succ_r.
Qed.

Lemma renderFromEarlier_length (run : GenerationRun) (prompts : list ImagePrompt) :
  forall index, length (renderFromEarlier run index prompts) = length prompts.
Proof. induction prompts; simpl; intros; auto. Qed.

Lemma improveFromEarlier_length (run : GenerationRun) (prompts : list ImagePrompt) :
  forall index, length (improveFromEarlier run index prompts) = length prompts.
Proof. induction prompts; simpl; intros; auto. Qed.

Lemma renderFromEarlier_ids (run : GenerationRun) (prompts : list ImagePrompt) :
  forall index, map img_id (renderFromEarlier run index prompts) = map ip_id prompts.
Proof.
  induction prompts as [|p l IH]; intros index; [reflexivity|].
  cbn [renderFromEarlier map]. rewrite IH. f_equal.
  unfold renderImageEarlier. destruct (imageBytes _ _ _); reflexivity.
Qed.

Lemma improveFromEarlier_ids (run : GenerationRun) (prompts : list ImagePrompt) :
  forall index, map ip_id (improveFromEarlier run index prompts) = map ip_id prompts.
Proof.
  induction prompts as [|p l IH]; intros index; [reflexivity|].
  cbn [improveFromEarlier map]. rewrite IH. f_equal.
  unfold improvePromptEarlier. destruct (refinementText _ _ _); reflexivity.
Qed.

Section EarlierFacts.

Variable parseFromString : string -> Document.
Variable outerHTML : Document -> string.

Local Abbreviation populateUIEarlier := (populateUIEarlier parseFromString outerHTML).
Local Abbreviation generateWebsiteEarlier :=
  (generateWebsiteEarlier parseFromString outerHTML).
Local Abbreviation submitFormEarlier := (submitFormEarlier parseFromString outerHTML).
Local Abbreviation submitForm := (submitForm parseFromString outerHTML).

Lemma populateUIEarlier_fields (html : string) (images : list Image) (s : State) :
  latestGeneratedImages (populateUIEarlier html images s) = images
  /\ resultContainer_hidden (populateUIEarlier html images s) = false
  /\ latestFavicon (populateUIEarlier html images s) = latestFavicon s
  /\ imageGallery (populateUIEarlier html images s) = galleryEarlier images
  /\ history (populateUIEarlier html images s)
     = [mkSnapshot (htmlEditor (populateUIEarlier html images s))
          (cssEditor (populateUIEarlier html images s))]
  /\ historyIndex (populateUIEarlier html images s) = 0%Z.
Proof.
  unfold populateUIEarlier. destruct (separateStyle _) as [css doc].
  cbv zeta. repeat split.
Qed.

(** X24.  The earlier revision keeps every placeholder too: when its
    structured call parses and carries an array of image prompts, the
    run publishes one asset per prompt in the order of the prompts, with
    the prompt's id, the refined text or the short prompt when
    refinement threw, and the rendered image or the failure placeholder
    of that revision when rendering threw; the result is shown with a
    history of one snapshot, and no message is. *)
Theorem earlier_revision_keeps_every_asset :
  forall (run : GenerationRun) (prompt : string) (s : State)
         (websiteData : WebsiteData) (prompts : list ImagePrompt),
    structuredOutcome run = StructuredData websiteData ->
    imagePrompts websiteData = Some prompts ->
    length (latestGeneratedImages (fst (generateWebsiteEarlier run prompt s)))
    = length prompts
    /\ map img_id (latestGeneratedImages (fst (generateWebsiteEarlier run prompt s)))
       = map ip_id prompts
    /\ (forall i p,
          nth_error prompts i = Some p ->
          exists asset,
            nth_error
              (latestGeneratedImages (fst (generateWebsiteEarlier run prompt s))) i
            = Some asset
            /\ img_id asset = ip_id p
            /\ img_prompt asset
               = match refinementText run i (refinementContentsEarlier p) with
                 | Some text => trim text
                 | None => ip_prompt p
                 end
            /\ img_url asset
               = match imageBytes run i (img_prompt asset) with
                 | Some bytes => dataUrl bytes
                 | None => failedImageUrlEarlier
                 end)
    /\ resultContainer_hidden (fst (generateWebsiteEarlier run prompt s)) = false
    /\ historyIndex (fst (generateWebsiteEarlier run prompt s)) = 0%Z
    /\ length (history (fst (generateWebsiteEarlier run prompt s))) = 1%nat
    /\ (forall m, ~ In (AlertEarlier m) (snd (generateWebsiteEarlier run prompt s)))
    /\ length (filter isNetworkCallEarlier
                 (snd (generateWebsiteEarlier run prompt s)))
       = (2 * length prompts + 1)%nat.
Proof.
  intros run prompt s websiteData prompts E1 E2.
  unfold generateWebsiteEarlier. rewrite E1, E2. cbn [fst snd].
  match goal with |- context [populateUIEarlier ?h ?i ?st] =>
    destruct (populateUIEarlier_fields h i st) as (A & B & _ & _ & H & I);
    set (s1 := populateUIEarlier h i st) in *
  end.
  change (latestGeneratedImages (endGeneration s1)) with (latestGeneratedImages s1).
  change (resultContainer_hidden (endGeneration s1))
    with (resultContainer_hidden s1).
  change (historyIndex (endGeneration s1)) with (historyIndex s1).
  change (history (endGeneration s1)) with (history s1).
  rewrite A, B, H, I. clearbody s1.
  unfold generateImagesEarlier, improveImagePromptsEarlier.
  split; [now rewrite renderFromEarlier_length, improveFromEarlier_length|].
  split; [now rewrite renderFromEarlier_ids, improveFromEarlier_ids|].
  split.
  { intros i p Hp.
    rewrite renderFromEarlier_nth, improveFromEarlier_nth, Hp.
    cbn [option_map Nat.add]. eexists. split; [reflexivity|].
    unfold renderImageEarlier, improvePromptEarlier.
    destruct (refinementText run i (refinementContentsEarlier p)) as [text|];
      cbn [ip_prompt ip_id];
      match goal with |- context [imageBytes run i ?x] =>
        destruct (imageBytes run i x) eqn:Eb
      end; cbn [img_id img_prompt img_url]; rewrite ?Eb; repeat split. }
  split; [reflexivity|]. split; [reflexivity|]. split; [reflexivity|].
  split.
  - intros m Hin. cbn [app] in Hin. destruct Hin as [X|Hin]; [discriminate|].
    apply in_app_or in Hin. destruct Hin as [Hin|Hin];
      apply in_map_iff in Hin; destruct Hin as (x & X & _); discriminate.
  - cbn [app filter isNetworkCallEarlier length]. rewrite filter_app, length_app.
    assert (F1 : forall l : list ImagePrompt,
               filter isNetworkCallEarlier
                 (map (fun p => GenerateContentCallEarlier
                                  (refinementContentsEarlier p)) l)
               = map (fun p => GenerateContentCallEarlier
                                 (refinementContentsEarlier p)) l).
    { induction l as [|x l IH]; [reflexivity|].
      cbn [map filter isNetworkCallEarlier]. now rewrite IH. }
    assert (F2 : forall l : list ImagePrompt,
               filter isNetworkCallEarlier
                 (map (fun p => GenerateImagesCallEarlier (ip_prompt p)) l)
               = map (fun p => GenerateImagesCallEarlier (ip_prompt p)) l).
    { induction l as [|x l IH]; [reflexivity|].
      cbn [map filter isNetworkCallEarlier]. now rewrite IH. }
    rewrite F1, F2, !length_map, improveFromEarlier_length. lia.
Qed.

(** X25.  The earlier revision asks for no minimum length.  With the
    model initialised, a prompt that is empty after trimming is refused
    without a word (the input takes the focus, nothing is shown and the
    state is as it was), and every other prompt is sent, however short:
    the first effect is the structured request for the trimmed prompt.
    A prompt of fewer than 15 characters that this revision turns down
    is one the earlier revision sent. *)
Theorem earlier_submit_asks_no_minimum_length :
  forall (form : FormInput) (run : GenerationRun) (s : State),
    aiReady s = true ->
    (trim (inputValue form) = "" ->
     submitFormEarlier form run s = (s, [FocusInputEarlier]))
    /\ (trim (inputValue form) <> "" ->
        exists rest,
          snd (submitFormEarlier form run s)
          = GenerateContentCallEarlier
              (detailedPromptEarlier (trim (inputValue form)) form) :: rest)
    /\ (trim (inputValue form) <> "" ->
        (String.length (trim (inputValue form)) < MIN_PROMPT_LENGTH)%nat ->
        existsb isNetworkCall (snd (submitForm form run s)) = false
        /\ existsb isNetworkCallEarlier (snd (submitFormEarlier form run s)) = true).
Proof.
  intros form run s A.
  assert (G : trim (inputValue form) <> "" ->
              exists rest,
                snd (submitFormEarlier form run s)
                = GenerateContentCallEarlier
                    (detailedPromptEarlier (trim (inputValue form)) form) :: rest).
  { intros H. unfold submitFormEarlier. rewrite A. cbn [negb].
    apply isEmptyString_false in H. rewrite H.
    unfold generateWebsiteEarlier.
    destruct (structuredOutcome run) as [m|w]; [cbn; eauto|].
    destruct (imagePrompts w); cbn; eauto. }
  split; [|split; [exact G|]].
  - intros H. unfold submitFormEarlier. rewrite A, H. reflexivity.
  - intros H L. split.
    + unfold submitForm. rewrite A. cbn [negb].
      apply isEmptyString_false in H. rewrite H.
      apply Nat.ltb_lt in L. rewrite L. reflexivity.
    + destruct (G H) as (rest & ->). reflexivity.
Qed.

(** X26.  When the structured stage fails, the earlier revision shows
    one message, the same whatever the error was, after the one request;
    it has emptied the list of images before, and leaves the editors,
    the history, the preview, the gallery and the stored record as they
    were, with the input form back and the result hidden. *)
Theorem earlier_failure_shows_one_message :
  forall (run : GenerationRun) (prompt : string) (s : State),
    structuredFails run ->
    snd (generateWebsiteEarlier run prompt s)
    = [GenerateContentCallEarlier prompt; AlertEarlier GenerationFailedEarlier]
    /\ latestGeneratedImages (fst (generateWebsiteEarlier run prompt s)) = []
    /\ htmlEditor (fst (generateWebsiteEarlier run prompt s)) = htmlEditor s
    /\ cssEditor (fst (generateWebsiteEarlier run prompt s)) = cssEditor s
    /\ sameHistory s (fst (generateWebsiteEarlier run prompt s))
    /\ previewFrame_srcdoc (fst (generateWebsiteEarlier run prompt s))
       = previewFrame_srcdoc s
    /\ imageGallery (fst (generateWebsiteEarlier run prompt s)) = imageGallery s
    /\ localStorage (fst (generateWebsiteEarlier run prompt s)) = localStorage s
    /\ inputSection_hidden (fst (generateWebsiteEarlier run prompt s)) = false
    /\ resultContainer_hidden (fst (generateWebsiteEarlier run prompt s)) = true
    /\ loadingContainer_hidden (fst (generateWebsiteEarlier run prompt s)) = true
    /\ generateBtn_disabled (fst (generateWebsiteEarlier run prompt s)) = false.
Proof.
  intros run prompt s F. unfold structuredFails in F.
  unfold generateWebsiteEarlier.
  destruct (structuredOutcome run) as [m|w]; [|rewrite F]; repeat split.
Qed.

End EarlierFacts.

(* ================================================================== *)
(** * A push after undo clicks; the first preview of the earlier revision *)
(* ================================================================== *)

Lemma styleCount_updList (p : Tag -> Attrs -> bool)
    (f : Tag -> Attrs -> Attrs) (L : list (Tag * Attrs)) :
  length (filter (matches styleSel) (updList p f L))
  = length (filter (matches styleSel) L).
Proof.
  induction L as [|[t a] r IH]; [reflexivity|]. cbn [updList].
  destruct (p t a); cbn [filter]; rewrite !matches_pair; unfold styleSel;
    destruct (String.eqb (localName t) "style"); cbn [length]; auto.
Qed.

Lemma headStyleCount_docUpdate (p : Tag -> Attrs -> bool)
    (f : Tag -> Attrs -> Attrs) (d : Document) :
  headStyleCount (docUpdate p f d) = headStyleCount d.
Proof.
  unfold headStyleCount.
  destruct (headNodes_docUpdate p f d) as [E|E]; rewrite E; [reflexivity|].
  rewrite (proj2 (elements_upd p f)). apply styleCount_updList.
Qed.

Section TruncationFacts.

Variable parseFromString : string -> Document.
Variable outerHTML : Document -> string.

Local Abbreviation applyOps := (applyOps parseFromString outerHTML).
Local Abbreviation clickRedo := (clickRedo parseFromString outerHTML).
Local Abbreviation populateUIEarlier := (populateUIEarlier parseFromString outerHTML).

(** X27.  A push after [k] undo clicks drops the snapshots after the
    cursor and no other: from a valid cursor [i] and for [k] at most
    [i], the history is then its first [i - k + 1] snapshots followed by
    the new one, the cursor is on the new one, redo is disabled and a
    redo click changes nothing. *)
Theorem push_after_undo_drops_the_redo_branch :
  forall (s : State) (k : nat) (html css : string),
    validCursor s ->
    (Z.of_nat k <= historyIndex s)%Z ->
    history (pushHistoryState html css (applyOps (repeat OpUndo k) s))
    = firstn (Z.to_nat (historyIndex s - Z.of_nat k + 1)) (history s)
      ++ [mkSnapshot html css]
    /\ historyIndex (pushHistoryState html css (applyOps (repeat OpUndo k) s))
       = (historyIndex s - Z.of_nat k + 1)%Z
    /\ redoBtn_disabled (pushHistoryState html css (applyOps (repeat OpUndo k) s))
       = true
    /\ clickRedo (pushHistoryState html css (applyOps (repeat OpUndo k) s))
       = pushHistoryState html css (applyOps (repeat OpUndo k) s).
Proof.
  intros s k html css V Hk.
  destruct (undo_times parseFromString outerHTML k s Hk) as [H1 I1].
  set (s1 := applyOps (repeat OpUndo k) s) in *.
  assert (V' := V). unfold validCursor, lastIndex in V'.
  assert (H2 : history (pushHistoryState html css s1)
               = firstn (Z.to_nat (historyIndex s - Z.of_nat k + 1)) (history s)
                 ++ [mkSnapshot html css]).
  { destruct (Z.eq_dec (historyIndex s1) (lastIndex s1)) as [E|N].
    - destruct (push_at_end html css s1 E) as [H _]. rewrite H, H1.
      f_equal. symmetry. apply firstn_all2.
      unfold lastIndex in E. rewrite H1, I1 in E. lia.
    - rewrite push_after_rewind.
      + now rewrite H1, I1.
      + unfold lastIndex in *. rewrite H1, I1 in *. lia. }
  assert (I2 : historyIndex (pushHistoryState html css s1)
               = (historyIndex s - Z.of_nat k + 1)%Z).
  { rewrite push_index. unfold lastIndex. rewrite H2, length_app, length_firstn.
    cbn [length]. lia. }
  assert (E2 : historyIndex (pushHistoryState html css s1)
               = lastIndex (pushHistoryState html css s1)) by apply push_index.
  split; [exact H2|]. split; [exact I2|]. split.
  - destruct (push_buttons html css s1) as [_ B]. rewrite B, E2.
    apply Z.leb_refl.
  - now apply clickRedo_at_end.
Qed.

(** X28.  The first preview of the earlier revision keeps the style
    blocks of the markup it is made from and adds its own: the head of
    that preview holds one style block more than the head of the
    markup in the HTML editor, where the preview [updatePreview] makes
    holds exactly one. *)
Theorem earlier_first_preview_keeps_the_style_blocks :
  forall (html : string) (images : list Image) (fav : option Favicon) (s : State),
    let s' := populateUIEarlier html images s in
    previewFrame_srcdoc s'
    = outerHTML
        (firstPreviewEarlier images (cssEditor s') (parseFromString (htmlEditor s')))
    /\ headStyleCount
         (firstPreviewEarlier images (cssEditor s')
            (parseFromString (htmlEditor s')))
       = S (headStyleCount (parseFromString (htmlEditor s')))
    /\ headStyleCount
         (previewDocument images fav (cssEditor s')
            (parseFromString (htmlEditor s')))
       = 1%nat.
Proof.
  intros html images fav s. unfold populateUIEarlier.
  destruct (separateStyle (parseFromString html)) as [css doc]. cbv zeta.
  change (htmlEditor _) with (outerHTML doc). change (cssEditor _) with css.
  split; [reflexivity|]. split; [|apply headStyleCount_preview].
  generalize (parseFromString (outerHTML doc)). intros d.
  unfold firstPreviewEarlier.
  assert (F : forall l d0,
             headStyleCount (fold_left injectImageEarlier l d0)
             = headStyleCount d0).
  { induction l as [|i l IH]; intros d0; [reflexivity|].
    cbn [fold_left]. rewrite IH. apply headStyleCount_docUpdate. }
  unfold headStyleCount at 1. cbn [appendToHead headNodes].
  rewrite elementsIn_app, filter_app, length_app, elementsIn_single.
  fold (headStyleCount (fold_left injectImageEarlier images d)). rewrite F.
  unfold styleElement. cbn [elementsOf]. fold (elementsIn (textNodes css)).
  cbn [filter]. rewrite matches_pair.
  change (styleSel "style" []) with true. cbv iota.
  rewrite filter_none by apply textNodes_no_match. cbn [length]. lia.
Qed.

(** X29.  The first preview of the earlier revision shows each image
    in its placeholder with its prompt as alternative text: when the
    first element with the id of an image, in the markup [populateUI]
    serialised for the HTML editor, is an HTML element whose [src] and
    [alt] properties write the attributes (an [img], say), that element
    of the preview has the URL of the last image of that id as its [src]
    and its prompt as its [alt]. *)
Theorem earlier_first_preview_shows_each_image :
  forall (html : string) (before after : list Image) (image : Image) (s : State)
         (t : Tag) (a : Attrs),
    let cssContent := fst (separateStyle (parseFromString html)) in
    let htmlContent := outerHTML (snd (separateStyle (parseFromString html))) in
    (forall other, In other after -> img_id other <> img_id image) ->
    docQuery (hasId (img_id image)) (parseFromString htmlContent) = Some (t, a) ->
    reflectsSrc t = true ->
    reflectsAlt t = true ->
    previewFrame_srcdoc (populateUIEarlier html (before ++ image :: after) s)
    = outerHTML
        (firstPreviewEarlier (before ++ image :: after) cssContent
           (parseFromString htmlContent))
    /\ docFirstHas (hasId (img_id image)) "src" (img_url image)
         (firstPreviewEarlier (before ++ image :: after) cssContent
            (parseFromString htmlContent))
    /\ docFirstHas (hasId (img_id image)) "alt" (img_prompt image)
         (firstPreviewEarlier (before ++ image :: after) cssContent
            (parseFromString htmlContent)).
Proof.
  intros html before after image s t a. unfold populateUIEarlier.
  destruct (separateStyle (parseFromString html)) as [css doc]. cbv zeta.
  cbn [fst snd]. intros H E R A.
  split; [reflexivity|].
  unfold firstPreviewEarlier. rewrite fold_injectImageEarlier.
  destruct (placeImage_last
              (fun im => assignSrcAlt (img_url im) (img_prompt im))
              (fun x im t a => hasId_assignSrcAlt x (img_url im) (img_prompt im) t a)
              before after image _ E H) as (a0 & E0).
  assert (Q : docQuery (hasId (img_id image))
                (appendToHead (styleElement css)
                   (fold_left
                      (placeImage
                         (fun im => assignSrcAlt (img_url im) (img_prompt im)))
                      (before ++ image :: after)
                      (parseFromString (outerHTML doc))))
              = Some (t, assignSrcAlt (img_url image) (img_prompt image) t a0)).
  { rewrite docQuery_appendToHead; [exact E0|apply styleElement_no_id]. }
  split.
  - apply (docFirstHas_query _ _ _ Q). unfold assignSrcAlt, assignSrc.
    rewrite A, R. rewrite getAttr_setAttr_other by discriminate.
    apply getAttr_setAttr_same.
  - apply (docFirstHas_query _ _ _ Q). unfold assignSrcAlt.
    rewrite A. apply getAttr_setAttr_same.
Qed.

End TruncationFacts.

(* ================================================================== *)
(** * The further properties on the values *)
(* ================================================================== *)

(** X4 on the bakery page after one edit: one undo click, one redo
    click, and the preview of the edit is back. *)
Lemma undo_and_redo_are_inverse_witness :
  historyIndex
    (applyOps parsePlainText serializePlain
       (repeat OpUndo 1 ++ repeat OpRedo 1)
       (pushHistoryState "Bakery!" "body{}" bakeryPage))
  = historyIndex (pushHistoryState "Bakery!" "body{}" bakeryPage)
  /\ previewFrame_srcdoc
       (applyOps parsePlainText serializePlain
          (repeat OpUndo 1 ++ repeat OpRedo 1)
          (pushHistoryState "Bakery!" "body{}" bakeryPage))
     = serializePlain
         (previewDocument [heroImage; menuImage] (Some bakeryIcon) "body{}"
            (parsePlainText "Bakery!")).
Proof.
  destruct (@undo_and_redo_are_inverse parsePlainText serializePlain
              (pushHistoryState "Bakery!" "body{}" bakeryPage) 1
              (push_valid "Bakery!" "body{}" bakeryPage)) as [H _].
  destruct H as (_ & I & P); [vm_compute; discriminate|].
  split; [exact I|].
  destruct (P (Nat.lt_0_succ 0)) as (snapshot & E & Q).
  vm_compute in E. inversion E; subst snapshot. exact Q.
Defined.


(** X11 on two images whose ids give one file name. *)
Lemma archive_keeps_the_last_payload_witness :
  imagePath bannerImage = imagePath heroImage
  /\ exists zip,
       zipGet (imagePath heroImage) zip = Some (ZipFile (img_url heroImage))
       /\ NoDup (zipPaths zip).
Proof.
  split; [reflexivity|].
  edestruct (@archive_keeps_the_last_payload parseTwin serializePlain echoNet
               twinPage [bannerImage] [] heroImage (img_url heroImage)
               [FetchCall (img_url bannerImage); FetchCall (img_url heroImage)])
    as (A & B & _).
  - reflexivity.
  - split; [reflexivity|]. intros other [].
  - vm_compute. discriminate.
  - reflexivity.
  - vm_compute. reflexivity.
  - eexists. split; [exact A|exact B].
Defined.

(** X12 on the bakery page and a store without room for images. *)
Lemma site_saved_without_images_is_not_exportable_witness :
  clickExport parsePlainText serializePlain echoNet
    (loadStateFromLocalStorage parsePlainText serializePlain
       (set_localStorage
          (localStorage (saveStateToLocalStorage 0 smallStore bakeryPage))
          blankPage))
  = (loadStateFromLocalStorage parsePlainText serializePlain
       (set_localStorage
          (localStorage (saveStateToLocalStorage 0 smallStore bakeryPage))
          blankPage),
     [Alert MsgGenerateFirst]).
Proof.
  apply (@site_saved_without_images_is_not_exportable parsePlainText
           serializePlain 0 smallStore echoNet bakeryPage
           (set_localStorage
              (localStorage (saveStateToLocalStorage 0 smallStore bakeryPage))
              blankPage)).
  - discriminate.
  - reflexivity.
  - reflexivity.
  - reflexivity.
Defined.

(** X13 on the bakery document. *)
Lemma preview_shows_each_image_witness :
  docFirstHas (hasId "menu-image") "src" (img_url menuImage)
    (previewDocument [heroImage; strayImage; menuImage] (Some bakeryIcon)
       "body{}" bakeryDocument).
Proof.
  destruct (@preview_shows_each_image parseBakery serializePlain
              bakeryExportPage (serializePlain bakeryDocument) "body{}"
              [heroImage; strayImage] [] menuImage "img"
              [("id", "menu-image")] eq_refl) as (_ & B & _).
  - intros other [].
  - reflexivity.
  - reflexivity.
  - reflexivity.
  - exact B.
Defined.

(** X14 on the bakery document, whose markup has no icon link. *)
Lemma resolution_sets_meta_and_icon_witness :
  docFirstHas (isMetaNamed "description") "content" "Fresh bread daily"
    (snd (populateDocument (Some bakeryIcon) "Fresh bread daily" ""
            bakeryDocument))
  /\ docQuery isIconLink
       (snd (populateDocument (Some bakeryIcon) "Fresh bread daily" ""
               bakeryDocument))
     = Some (htmlTag "link",
             [("rel", "icon"); ("type", "image/jpeg");
              ("href", fav_url bakeryIcon)])
  /\ docFirstHas isIconLink "href" (fav_url bakeryIcon)
       (previewDocument [heroImage; menuImage] (Some bakeryIcon) "body{}"
          (snd (populateDocument (Some bakeryIcon) "Fresh bread daily" ""
                  bakeryDocument))).
Proof.
  destruct (@resolution_sets_meta_and_icon [heroImage; menuImage]
              (Some bakeryIcon) "Fresh bread daily" "" "body{}" bakeryDocument
              eq_refl)
    as (A & _ & C & D).
  destruct (C bakeryIcon eq_refl) as [_ C2].
  split; [apply A; discriminate|]. split; [apply C2; reflexivity|].
  destruct (D (snd (populateDocument (Some bakeryIcon) "Fresh bread daily" ""
                      bakeryDocument)) eq_refl) as [_ D2].
  apply (D2 bakeryIcon (htmlTag "link")
            [("rel", "icon"); ("type", "image/jpeg");
             ("href", fav_url bakeryIcon)] eq_refl);
    [apply C2; reflexivity|reflexivity].
Defined.

(** X15 on the bakery export. *)
Lemma exported_page_points_to_its_files_witness :
  exists page zip,
    zipGet "index.html" zip = Some (ZipFile (serializePlain page))
    /\ docFirstHas (hasId "menu-image") "src" "images/menu_image.jpeg" page.
Proof.
  edestruct (@exported_page_points_to_its_files parseBakery serializePlain
               echoNet bakeryExportPage [heroImage; strayImage] [] menuImage
               "img" [("id", "menu-image")]
               [FetchCall (img_url heroImage); FetchCall (img_url menuImage)])
    as (page & A & B & _ & _).
  - reflexivity.
  - intros other [].
  - reflexivity.
  - reflexivity.
  - reflexivity.
  - vm_compute. reflexivity.
  - exists page. eexists. split; [exact A|exact B].
Defined.

(** X16 on a prompt of three spaces. *)
Lemma submit_reads_the_trimmed_prompt_witness :
  submitForm parsePlainText serializePlain
    (mkFormInput "   " "Landing Page" "English" "2" []) bakeryRun blankPage
  = (showError blankPage, [Alert MsgPromptMissing; FocusInput]).
Proof.
  apply (proj2 (submit_reads_the_trimmed_prompt parsePlainText serializePlain
                  (mkFormInput "   " "Landing Page" "English" "2" []) bakeryRun
                  blankPage)).
  - repeat constructor.
  - reflexivity.
Defined.

(** X17 on a message in capitals. *)
Lemma error_category_ignores_letter_case_witness :
  getFriendlyErrorMessage "QUOTA EXCEEDED" = getFriendlyErrorMessage "Quota exceeded".
Proof.
  apply (@error_category_ignores_letter_case "Quota exceeded" "QUOTA EXCEEDED").
  - reflexivity.
  - right. left. reflexivity.
Defined.

(** X18 on a short message without keyword. *)
Lemma unexpected_error_detail_is_bounded_witness :
  prefix "boom" "boom" = true
  /\ String.length "boom" = Nat.min 150 (String.length "boom")
  /\ (String.length "boom" <= 150)%nat.
Proof.
  apply (@unexpected_error_detail_is_bounded "boom" "boom"). reflexivity.
Defined.

(** X20 at the bakery run: two prompts, six requests. *)
Lemma generation_makes_two_calls_per_image_witness :
  length
    (filter isNetworkCall
       (snd (generateWebsite parsePlainText serializePlain bakeryRun
               "bakery" "bakery landing page" "English" blankPage)))
  = 6%nat.
Proof.
  destruct (generation_makes_two_calls_per_image parsePlainText serializePlain
              bakeryRun "bakery" "bakery landing page" "English" blankPage)
    as [H _].
  destruct (H _ bakeryPrompts eq_refl eq_refl) as [_ L]. exact L.
Defined.

(** X3 on a generation, an edit, an undo and a failed export. *)
Lemma no_listener_leaves_the_page_busy_witness :
  controlsIdle
    (runEvents parsePlainText serializePlain
       [Submit bakeryForm bakeryRun; EditHtml "Bakery!"; ClickUpdatePreview;
        ClickUndo; ClickExport deadNet]
       blankPage).
Proof.
  apply (proj2 (no_listener_leaves_the_page_busy parsePlainText serializePlain)).
  repeat split.
Defined.

(** X21 on a click on the third of four tabs. *)
Lemma tab_click_selects_one_tab_witness :
  length (filter tb_active
            (tabButtons (clickTabs (TargetTabButton 2) editorTabs))) = 1%nat
  /\ tabContents (clickTabs (TargetTabButton 2) editorTabs)
     = [mkTabContent "preview-content" false true;
        mkTabContent "html-content" false true;
        mkTabContent "css-content" true false;
        mkTabContent "images-content" false true].
Proof.
  destruct (@tab_click_selects_one_tab 2
              (mkTabButton (Some "css") (Some "false") (Some "false") false)
              "css" editorTabs eq_refl eq_refl) as (_ & A & B & _).
  - discriminate.
  - split; [exact A|]. rewrite B. reflexivity.
Defined.

(** X22 on two clicks in a row. *)
Lemma last_tab_click_wins_witness :
  clickTabs (TargetTabButton 3) (clickTabs (TargetTabButton 1) editorTabs)
  = clickTabs (TargetTabButton 3) editorTabs.
Proof.
  apply (proj1 (last_tab_click_wins (TargetTabButton 1) (TargetTabButton 3)
                  editorTabs)).
  exists "images", 3%nat,
    (mkTabButton (Some "images") (Some "false") (Some "false") false).
  repeat split. discriminate.
Defined.

(** X23 on three changes in a row and one later. *)
Lemma autosave_is_debounced_witness :
  pendingSaves (timerRun burstOfEdits noTimer) = [(4%nat, 6000%Z)]
  /\ (length (pendingSaves (timerRun burstOfEdits noTimer)) <= 1)%nat.
Proof.
  destruct (@autosave_is_debounced burstOfEdits) as (A & _).
  - repeat constructor.
  - split; [reflexivity|exact A].
Defined.

(** X24 at the bakery run. *)
Lemma earlier_revision_keeps_every_asset_witness :
  map img_id
    (latestGeneratedImages
       (fst (generateWebsiteEarlier parsePlainText serializePlain bakeryRun
               "bakery" blankPage)))
  = map ip_id bakeryPrompts.
Proof.
  destruct (@earlier_revision_keeps_every_asset parsePlainText
              serializePlain bakeryRun "bakery" blankPage
              (mkWebsiteData "Bakery" "Fresh bread daily" "" "wheat ear logo"
                 "Bakery" (Some bakeryPrompts)) bakeryPrompts eq_refl eq_refl)
    as (_ & A & _).
  exact A.
Defined.

(** X25 on a prompt of nine characters. *)
Lemma earlier_submit_asks_no_minimum_length_witness :
  existsb isNetworkCall
    (snd (submitForm parsePlainText serializePlain
            (mkFormInput "  too short  " "Landing Page" "English" "2" [])
            bakeryRun blankPage)) = false
  /\ existsb isNetworkCallEarlier
       (snd (submitFormEarlier parsePlainText serializePlain
               (mkFormInput "  too short  " "Landing Page" "English" "2" [])
               bakeryRun blankPage)) = true.
Proof.
  destruct (@earlier_submit_asks_no_minimum_length parsePlainText serializePlain
              (mkFormInput "  too short  " "Landing Page" "English" "2" [])
              bakeryRun blankPage eq_refl) as (_ & _ & H).
  apply H.
  - discriminate.
  - apply Nat.ltb_lt. reflexivity.
Defined.

(** X26 at the run without network. *)
Lemma earlier_failure_shows_one_message_witness :
  snd (generateWebsiteEarlier parsePlainText serializePlain offlineRun "bakery"
         bakeryPage)
  = [GenerateContentCallEarlier "bakery"; AlertEarlier GenerationFailedEarlier].
Proof.
  destruct (@earlier_failure_shows_one_message parsePlainText serializePlain
              offlineRun "bakery" bakeryPage) as (A & _).
  - exact I.
  - exact A.
Defined.

(** X27 on the bakery page after one edit: one undo click, then a push. *)
Lemma push_after_undo_drops_the_redo_branch_witness :
  history
    (pushHistoryState "Bakery?" "body{}"
       (applyOps parsePlainText serializePlain (repeat OpUndo 1)
          (pushHistoryState "Bakery!" "body{}" bakeryPage)))
  = [mkSnapshot "Bakery" "body{}"; mkSnapshot "Bakery?" "body{}"].
Proof.
  destruct (@push_after_undo_drops_the_redo_branch parsePlainText serializePlain
              (pushHistoryState "Bakery!" "body{}" bakeryPage) 1
              "Bakery?" "body{}"
              (push_valid "Bakery!" "body{}" bakeryPage)) as (H & _).
  - vm_compute. discriminate.
  - rewrite H. reflexivity.
Defined.

(** X29 on the bakery document. *)
Lemma earlier_first_preview_shows_each_image_witness :
  docFirstHas (hasId "menu-image") "alt" "pastry counter"
    (firstPreviewEarlier [heroImage; menuImage] "body{}"
       (snd (separateStyle bakeryDocument))).
Proof.
  destruct (@earlier_first_preview_shows_each_image parseBakeryEditor
              serializePlain (serializePlain bakeryDocument) [heroImage] []
              menuImage blankPage "img" [("id", "menu-image")])
    as (_ & _ & B).
  - intros other [].
  - reflexivity.
  - reflexivity.
  - reflexivity.
  - exact B.
Defined.
